(** * company-radar: the recency filter and the markup sanitizer of [app.py]

    A shallow embedding of [within_past_week] and [basic_sanitize_ul]
    together with the parts of the Python runtime they call: the [str]
    methods, the backtracking matcher of [re], [int],
    [datetime.strptime] and the subtraction of [datetime] values.

    Text is a list of characters.  A character is a code point below 256
    ([ascii]); the classes [\s], [\d], [\w] and [str.lower] are those of
    Python for the code points U+0000 .. U+00FF.  Exceptions are values
    of [res].  [dt.now()] is the argument [now]; the month names of
    [strptime] are the English ones; [int] has no bound. *)

From Stdlib Require Import List Ascii String ZArith NArith Lia Bool Arith.
Import ListNotations.

Open Scope bool_scope.
Open Scope list_scope.

(* ================================================================== *)
(** ** Text *)

Definition str := list ascii.

(** A literal of the source. *)
Definition L (s : string) : str := list_ascii_of_string s.

(** The quotation marks, written by code since they cannot sit in a literal. *)
Definition dquote : ascii := ascii_of_nat 34.
Definition squote : ascii := ascii_of_nat 39.

Definition code (c : ascii) : N := N_of_ascii c.

Definition in_range (lo hi : N) (c : ascii) : bool :=
  (lo <=? code c)%N && (code c <=? hi)%N.

(** [str.isspace] on one character, also the class [\s] of [re]. *)
Definition is_space (c : ascii) : bool :=
  in_range 9 13 c || in_range 28 32 c || (code c =? 133)%N || (code c =? 160)%N.

(** The class [\d]: decimal digits. *)
Definition is_digit (c : ascii) : bool := in_range 48 57 c.

Definition is_upper_ascii (c : ascii) : bool := in_range 65 90 c.
Definition is_lower_ascii (c : ascii) : bool := in_range 97 122 c.

(** The class [\w]: alphanumeric characters and the underscore. *)
Definition is_word (c : ascii) : bool :=
  is_digit c || is_upper_ascii c || is_lower_ascii c || (code c =? 95)%N
  || (code c =? 170)%N || (code c =? 178)%N || (code c =? 179)%N
  || (code c =? 181)%N || (code c =? 185)%N || (code c =? 186)%N
  || in_range 188 190 c || in_range 192 214 c || in_range 216 246 c
  || in_range 248 255 c.

(** [str.lower] on one character. *)
Definition lower_char (c : ascii) : ascii :=
  if is_upper_ascii c || in_range 192 214 c || in_range 216 222 c
  then ascii_of_N (code c + 32) else c.

Definition lower (s : str) : str := map lower_char s.

Fixpoint lstrip (s : str) : str :=
  match s with
  | c :: s' => if is_space c then lstrip s' else s
  | [] => []
  end.

Definition rstrip (s : str) : str := rev (lstrip (rev s)).

(** [str.strip()] *)
Definition strip (s : str) : str := rstrip (lstrip s).

Fixpoint str_eqb (a b : str) : bool :=
  match a, b with
  | [], [] => true
  | x :: a', y :: b' => Ascii.eqb x y && str_eqb a' b'
  | _, _ => false
  end.

Fixpoint startswith (p s : str) : bool :=
  match p, s with
  | [], _ => true
  | x :: p', y :: s' => Ascii.eqb x y && startswith p' s'
  | _ :: _, [] => false
  end.

(** [p in s] for strings. *)
Fixpoint contains (p s : str) : bool :=
  startswith p s ||
  match s with
  | [] => false
  | _ :: s' => contains p s'
  end.

(** [s.count(p)] restricted to what the statements need: the number of
    positions of [s] at which [p] starts. *)
Fixpoint occurrences (p s : str) : nat :=
  (if startswith p s then 1 else 0) +
  match s with
  | [] => 0
  | _ :: s' => occurrences p s'
  end.

(** [not s] for a string. *)
Definition is_empty (s : str) : bool :=
  match s with [] => true | _ => false end.

(* ================================================================== *)
(** ** Exceptions *)

Inductive exn := ValueError | TypeError | AttributeError.

Inductive res (A : Type) : Type :=
| Ret (a : A)
| Raise (e : exn).
Arguments Ret {A} a.
Arguments Raise {A} e.

Definition bind {A B : Type} (x : res A) (k : A -> res B) : res B :=
  match x with
  | Ret a => k a
  | Raise e => Raise e
  end.

Notation "x <- e ;; k" := (bind e (fun x => k))
  (at level 61, e at next level, right associativity).

(* ================================================================== *)
(** ** The matcher of [re]

    The patterns of the program repeat single characters only, so the
    syntax keeps repetition on atoms; this makes the matcher structural.
    [exec] lists the end states of all ways to match, in the order in
    which the backtracking matcher of [re] tries them: the head of the
    list is the match that [re] reports. *)

Inductive citem :=
| IChar (c : ascii)
| IRange (lo hi : ascii).

(** Under [ignorecase] a literal and the items of a set are compared with
    the lowered character; the sets of the program hold lower-case letters,
    digits and punctuation only. *)
Inductive atom :=
| Lit (c : ascii)             (* a literal character *)
| Dot                         (* .   *)
| Space                       (* \s  *)
| Digit                       (* \d  *)
| Word                        (* \w  *)
| Set_ (items : list citem)   (* [...]  *)
| NSet (items : list citem).  (* [^...] *)

Inductive regex :=
| Eps
| One (a : atom)
| Cat (r1 r2 : regex)
| Alt (r1 r2 : regex)
| Star (a : atom)             (* a*   *)
| Plus (a : atom)             (* a+   *)
| LazyStar (a : atom)         (* a*?  *)
| Opt (r : regex)             (* (?:r)?, and c? *)
| Group (n : nat) (r : regex) (* the capturing group number n *)
| Backref (n : nat)           (* \n   *)
| WordB.                      (* \b   *)

Record flags := { ignorecase : bool; dotall : bool }.

Definition no_flags := {| ignorecase := false; dotall := false |}.
Definition flag_i := {| ignorecase := true; dotall := false |}.
Definition flag_is := {| ignorecase := true; dotall := true |}.

Definition item_ok (c : ascii) (i : citem) : bool :=
  match i with
  | IChar x => Ascii.eqb c x
  | IRange lo hi => in_range (code lo) (code hi) c
  end.

Definition newline : ascii := ascii_of_nat 10.

Definition atom_ok (f : flags) (a : atom) (c : ascii) : bool :=
  match a with
  | Lit x =>
      if ignorecase f then Ascii.eqb (lower_char c) (lower_char x)
      else Ascii.eqb c x
  | Dot => dotall f || negb (Ascii.eqb c newline)
  | Space => is_space c
  | Digit => is_digit c
  | Word => is_word c
  | Set_ items =>
      existsb (item_ok (if ignorecase f then lower_char c else c)) items
  | NSet items => negb (existsb (item_ok c) items)
  end.

Record mstate := {
  prev : option ascii;          (* the character before the position *)
  rest : str;                   (* the text from the position on *)
  groups : list (nat * str)     (* the groups closed so far, newest first *)
}.

Definition advance (c : ascii) (s' : str) (st : mstate) : mstate :=
  {| prev := Some c; rest := s'; groups := groups st |}.

Fixpoint greedy_star (p : ascii -> bool) (pv : option ascii) (s : str)
         (g : list (nat * str)) : list mstate :=
  match s with
  | c :: s' =>
      if p c
      then greedy_star p (Some c) s' g ++ [{| prev := pv; rest := s; groups := g |}]
      else [{| prev := pv; rest := s; groups := g |}]
  | [] => [{| prev := pv; rest := s; groups := g |}]
  end.

Fixpoint lazy_star (p : ascii -> bool) (pv : option ascii) (s : str)
         (g : list (nat * str)) : list mstate :=
  match s with
  | c :: s' =>
      if p c
      then {| prev := pv; rest := s; groups := g |} :: lazy_star p (Some c) s' g
      else [{| prev := pv; rest := s; groups := g |}]
  | [] => [{| prev := pv; rest := s; groups := g |}]
  end.

Fixpoint lookup (n : nat) (g : list (nat * str)) : option str :=
  match g with
  | [] => None
  | (k, v) :: g' => if Nat.eqb k n then Some v else lookup n g'
  end.

(** The text between two positions of one string. *)
Definition taken (from to : str) : str :=
  firstn (List.length from - List.length to) from.

Definition opt_word (o : option ascii) : bool :=
  match o with Some c => is_word c | None => false end.

(** Matching the text [g] of a group again at the position. *)
Fixpoint backref (ci : bool) (g : str) (st : mstate) : list mstate :=
  match g with
  | [] => [st]
  | x :: g' =>
      match rest st with
      | c :: s' =>
          if (if ci then Ascii.eqb (lower_char c) (lower_char x)
              else Ascii.eqb c x)
          then backref ci g' (advance c s' st)
          else []
      | [] => []
      end
  end.

Fixpoint exec (f : flags) (r : regex) (st : mstate) : list mstate :=
  match r with
  | Eps => [st]
  | One a =>
      match rest st with
      | c :: s' => if atom_ok f a c then [advance c s' st] else []
      | [] => []
      end
  | Cat r1 r2 => flat_map (exec f r2) (exec f r1 st)
  | Alt r1 r2 => exec f r1 st ++ exec f r2 st
  | Star a => greedy_star (atom_ok f a) (prev st) (rest st) (groups st)
  | Plus a =>
      match rest st with
      | c :: s' =>
          if atom_ok f a c
          then greedy_star (atom_ok f a) (Some c) s' (groups st)
          else []
      | [] => []
      end
  | LazyStar a => lazy_star (atom_ok f a) (prev st) (rest st) (groups st)
  | Opt r1 => exec f r1 st ++ [st]
  | Group n r1 =>
      map (fun st' =>
             {| prev := prev st'; rest := rest st';
                groups := (n, taken (rest st) (rest st')) :: groups st' |})
          (exec f r1 st)
  | Backref n =>
      match lookup n (groups st) with
      | Some g => backref (ignorecase f) g st
      | None => []
      end
  | WordB =>
      if xorb (opt_word (prev st)) (opt_word (hd_error (rest st)))
      then [st] else []
  end.

(** Pattern syntax helpers. *)
Definition seq_re (rs : list regex) : regex := fold_right Cat Eps rs.

Definition lit (s : string) : regex :=
  seq_re (map (fun c => One (Lit c)) (L s)).

Fixpoint alts (rs : list regex) : regex :=
  match rs with
  | [] => Eps
  | [r] => r
  | r :: rs' => Alt r (alts rs')
  end.

(** A match object: [group(0)], the groups, and where the match ends. *)
Record match_obj := {
  m_text : str;
  m_groups : list (nat * str);
  m_last : option ascii;
  m_after : str
}.

(** [m.group(n)] for [n >= 1]; [None] when the group took no part. *)
Definition m_group (m : match_obj) (n : nat) : option str :=
  lookup n (m_groups m).

(** The match of [r] that starts at the head of [s], the character
    before it being [pv]. *)
Definition match_at (f : flags) (r : regex) (pv : option ascii) (s : str)
  : option match_obj :=
  match exec f r {| prev := pv; rest := s; groups := [] |} with
  | st :: _ =>
      Some {| m_text := taken s (rest st); m_groups := groups st;
              m_last := prev st; m_after := rest st |}
  | [] => None
  end.

(** [re.match(r, s)] *)
Definition re_match (f : flags) (r : regex) (s : str) : option match_obj :=
  match_at f r None s.

(** [re.sub(r, repl, s)] with a function for [repl]: the text is scanned
    from the left; where a match starts, [repl] is called and the
    characters of the match are skipped ([skip] counts those still to
    pass).  No pattern of the program matches the empty string
    (lemma [sub_patterns_consume]); an empty match would be replaced and
    the scan would go on after the next character. *)
Fixpoint sub_scan (f : flags) (r : regex) (repl : match_obj -> res str)
         (skip : nat) (pv : option ascii) (s : str) : res str :=
  match skip with
  | S k =>
      match s with
      | c :: s' => sub_scan f r repl k (Some c) s'
      | [] => Ret []
      end
  | O =>
      match match_at f r pv s with
      | Some m =>
          x <- repl m ;;
          match s with
          | c :: s' =>
              match List.length (m_text m) with
              | S k => y <- sub_scan f r repl k (Some c) s' ;; Ret (x ++ y)
              | O => y <- sub_scan f r repl 0 (Some c) s' ;; Ret (x ++ c :: y)
              end
          | [] => Ret x
          end
      | None =>
          match s with
          | c :: s' => y <- sub_scan f r repl 0 (Some c) s' ;; Ret (c :: y)
          | [] => Ret []
          end
      end
  end.

Definition re_sub (f : flags) (r : regex) (repl : match_obj -> res str)
           (s : str) : res str :=
  sub_scan f r repl 0 None s.

(** [re.finditer(r, s)]: the matches that [re.sub] replaces, in order. *)
Fixpoint find_scan (f : flags) (r : regex) (skip : nat) (pv : option ascii)
         (s : str) : list match_obj :=
  match skip with
  | S k =>
      match s with
      | c :: s' => find_scan f r k (Some c) s'
      | [] => []
      end
  | O =>
      match match_at f r pv s with
      | Some m =>
          m :: match s with
               | c :: s' => find_scan f r (pred (List.length (m_text m))) (Some c) s'
               | [] => []
               end
      | None =>
          match s with
          | c :: s' => find_scan f r 0 (Some c) s'
          | [] => []
          end
      end
  end.

Definition re_finditer (f : flags) (r : regex) (s : str) : list match_obj :=
  find_scan f r 0 None s.

(* ================================================================== *)
(** ** [int] *)

Definition digit_value (c : ascii) : Z := Z.of_N (code c) - 48.

Definition digits_value (s : str) : Z :=
  fold_left (fun acc c => 10 * acc + digit_value c)%Z s 0%Z.

(** [sys.get_int_max_str_digits()], as it is set by default. *)
Definition max_str_digits : nat := 4300.

(** [int(s)] on the strings the program passes: a run of decimal digits,
    possibly between blanks, of at most [max_str_digits] digits (leading
    zeros count).  Anything else is a [ValueError] here (the signed and
    underscored forms never reach it). *)
Definition int_ (s : str) : res Z :=
  let t := strip s in
  if negb (is_empty t) && forallb is_digit t
     && (List.length t <=? max_str_digits)
  then Ret (digits_value t)
  else Raise ValueError.

(** [int(m.group(n))]; [int(None)] is a [TypeError]. *)
Definition int_group (m : match_obj) (n : nat) : res Z :=
  match m_group m n with
  | Some g => int_ g
  | None => Raise TypeError
  end.

(* ================================================================== *)
(** ** [datetime] *)

Record datetime := {
  year : Z; month : Z; day : Z;
  hour : Z; minute : Z; second : Z; microsecond : Z
}.

Definition is_leap (y : Z) : bool :=
  ((y mod 4 =? 0) && (negb (y mod 100 =? 0) || (y mod 400 =? 0)))%Z.

Definition days_in_month (y m : Z) : Z :=
  if (m =? 2)%Z then (if is_leap y then 29 else 28)%Z
  else if ((m =? 4) || (m =? 6) || (m =? 9) || (m =? 11))%Z then 30%Z
  else 31%Z.

Definition days_before_year (y : Z) : Z :=
  ((y - 1) * 365 + (y - 1) / 4 - (y - 1) / 100 + (y - 1) / 400)%Z.

(** The days of the year before the first day of month [m]. *)
Definition days_before_month (y m : Z) : Z :=
  fold_left (fun acc k => acc + days_in_month y (Z.of_nat k))%Z
            (seq 1 (Z.to_nat m - 1)) 0%Z.

Definition ymd2ord (y m d : Z) : Z :=
  (days_before_year y + days_before_month y m + d)%Z.

Definition toordinal (t : datetime) : Z := ymd2ord (year t) (month t) (day t).

Definition valid_date (y m d : Z) : bool :=
  ((1 <=? y) && (y <=? 9999) && (1 <=? m) && (m <=? 12)
   && (1 <=? d) && (d <=? days_in_month y m))%Z.

Definition valid_datetime (t : datetime) : bool :=
  (valid_date (year t) (month t) (day t)
   && (0 <=? hour t) && (hour t <? 24) && (0 <=? minute t) && (minute t <? 60)
   && (0 <=? second t) && (second t <? 60)
   && (0 <=? microsecond t) && (microsecond t <? 1000000))%Z.

Record timedelta := { td_days : Z; td_seconds : Z; td_microseconds : Z }.

(** The constructor of [timedelta] carries microseconds into seconds and
    seconds into days, with floor division. *)
Definition mk_timedelta (d s us : Z) : timedelta :=
  let s1 := (s + us / 1000000)%Z in
  {| td_days := (d + s1 / 86400)%Z;
     td_seconds := (s1 mod 86400)%Z;
     td_microseconds := (us mod 1000000)%Z |}.

(** [a - b] for two [datetime] values. *)
Definition datetime_sub (a b : datetime) : timedelta :=
  mk_timedelta
    (toordinal a - toordinal b)
    ((second a + minute a * 60 + hour a * 3600)
     - (second b + minute b * 60 + hour b * 3600))
    (microsecond a - microsecond b).

(* ------------------------------------------------------------------ *)
(** *** [datetime.strptime] (English month names) *)

Definition month_abbr : list str :=
  map L ["jan"; "feb"; "mar"; "apr"; "may"; "jun";
         "jul"; "aug"; "sep"; "oct"; "nov"; "dec"]%string.

Definition month_name : list str :=
  map L ["january"; "february"; "march"; "april"; "may"; "june"; "july";
         "august"; "september"; "october"; "november"; "december"]%string.

(** Stable insertion by decreasing length. *)
Fixpoint insert_by_len (x : str) (l : list str) : list str :=
  match l with
  | [] => [x]
  | y :: l' =>
      if List.length y <? List.length x then x :: l
      else y :: insert_by_len x l'
  end.

Definition sort_by_len (l : list str) : list str :=
  fold_left (fun acc x => insert_by_len x acc) l [].

Definition lit_str (s : str) : regex :=
  seq_re (map (fun c => One (Lit c)) s).

(** The alternation of the names, longest first. *)
Definition seq_to_re (names : list str) : regex :=
  alts (map lit_str (sort_by_len names)).

(** A named group is numbered by the character of its directive. *)
Definition key (d : string) : nat :=
  match L d with c :: _ => nat_of_ascii c | [] => 0 end.

Definition set_range (lo hi : string) : regex :=
  match L lo, L hi with
  | a :: _, b :: _ => One (Set_ [IRange a b])
  | _, _ => Eps
  end.

Definition directive (d : ascii) : option regex :=
  if Ascii.eqb d "d" then
    Some (Group (key "d")
            (alts [Cat (lit "3") (set_range "0" "1");
                   Cat (set_range "1" "2") (One Digit);
                   Cat (lit "0") (set_range "1" "9");
                   set_range "1" "9";
                   Cat (lit " ") (set_range "1" "9")]))
  else if Ascii.eqb d "Y" then
    Some (Group (key "Y") (seq_re [One Digit; One Digit; One Digit; One Digit]))
  else if Ascii.eqb d "B" then Some (Group (key "B") (seq_to_re month_name))
  else if Ascii.eqb d "b" then Some (Group (key "b") (seq_to_re month_abbr))
  else None.

(** The pattern of a format: a run of blanks becomes [\s+], a directive its
    group, any other character itself.  Only the directives the program
    uses are known. *)
Fixpoint format_regex (in_ws : bool) (fmt : str) : option regex :=
  match fmt with
  | [] => Some Eps
  | c :: fmt' =>
      if is_space c then
        if in_ws then format_regex true fmt'
        else option_map (Cat (Plus Space)) (format_regex true fmt')
      else if Ascii.eqb c "%" then
        match fmt' with
        | d :: fmt'' =>
            match directive d, format_regex false fmt'' with
            | Some r, Some r' => Some (Cat r r')
            | _, _ => None
            end
        | [] => None
        end
      else option_map (Cat (One (Lit c))) (format_regex false fmt')
  end.

Fixpoint index_of (x : str) (l : list str) (i : Z) : option Z :=
  match l with
  | [] => None
  | y :: l' => if str_eqb x y then Some i else index_of x l' (i + 1)%Z
  end.

Definition opt_int (o : option str) (default : Z) : res Z :=
  match o with
  | Some g => int_ g
  | None => Ret default
  end.

Definition found_month (m : match_obj) : res Z :=
  match m_group m (key "B"), m_group m (key "b") with
  | Some g, _ =>
      match index_of (lower g) month_name 1 with
      | Some i => Ret i
      | None => Raise ValueError
      end
  | None, Some g =>
      match index_of (lower g) month_abbr 1 with
      | Some i => Ret i
      | None => Raise ValueError
      end
  | None, None => Ret 1%Z
  end.

(** [datetime.strptime(data_string, fmt)]: the pattern of the format must
    match at the start and leave nothing; the fields must form a date. *)
Definition strptime (data_string fmt : str) : res datetime :=
  match format_regex false fmt with
  | None => Raise ValueError
  | Some r =>
      match re_match flag_i r data_string with
      | None => Raise ValueError
      | Some found =>
          if negb (is_empty (m_after found)) then Raise ValueError
          else
            y <- opt_int (m_group found (key "Y")) 1900 ;;
            mo <- found_month found ;;
            d <- opt_int (m_group found (key "d")) 1 ;;
            if valid_date y mo d
            then Ret {| year := y; month := mo; day := d;
                        hour := 0; minute := 0; second := 0;
                        microsecond := 0 |}
            else Raise ValueError
      end
  end.

(* ================================================================== *)
(** ** [within_past_week] *)

(** [\d+\s*(minute|min|minutes|mins)\s*ago] *)
Definition re_minutes : regex :=
  seq_re [Plus Digit; Star Space;
          Group 1 (alts [lit "minute"; lit "min"; lit "minutes"; lit "mins"]);
          Star Space; lit "ago"].

(** [\d+\s*(hour|hr|hours|hrs)\s*ago] *)
Definition re_hours : regex :=
  seq_re [Plus Digit; Star Space;
          Group 1 (alts [lit "hour"; lit "hr"; lit "hours"; lit "hrs"]);
          Star Space; lit "ago"].

(** [(\d+)\s*(day|days)\s*ago] *)
Definition re_days : regex :=
  seq_re [Group 1 (Plus Digit); Star Space;
          Group 2 (alts [lit "day"; lit "days"]);
          Star Space; lit "ago"].

(** [(\d+)\s*(week|weeks)\s*ago] *)
Definition re_weeks : regex :=
  seq_re [Group 1 (Plus Digit); Star Space;
          Group 2 (alts [lit "week"; lit "weeks"]);
          Star Space; lit "ago"].

Definition date_formats : list str :=
  map L ["%b %d, %Y"; "%B %d, %Y"; "%b. %d, %Y"]%string.

Definition is_some {A : Type} (o : option A) : bool :=
  match o with Some _ => true | None => false end.

(** The loop over the formats: a [ValueError] of [strptime] moves on to
    the next format, the first date that parses decides. *)
Fixpoint try_formats (now : datetime) (t : str) (fmts : list str) : res bool :=
  match fmts with
  | [] => Ret false
  | fmt :: more =>
      match strptime t fmt with
      | Ret when => Ret (td_days (datetime_sub now when) <=? 7)%Z
      | Raise ValueError => try_formats now t more
      | Raise e => Raise e
      end
  end.

(** [now] stands for the value of [dt.now()]. *)
Definition within_past_week (now : datetime) (date_str : str) : res bool :=
  if is_empty date_str then Ret false
  else
    let s := lower (strip date_str) in
    if contains (L "yesterday") s then Ret true
    else if is_some (re_match no_flags re_minutes s) then Ret true
    else if is_some (re_match no_flags re_hours s) then Ret true
    else
      match re_match no_flags re_days s with
      | Some m => n <- int_group m 1 ;; Ret (n <=? 7)%Z
      | None =>
          match re_match no_flags re_weeks s with
          | Some m => n <- int_group m 1 ;; Ret (n <=? 1)%Z
          | None => try_formats now (strip date_str) date_formats
          end
      end.

(* ================================================================== *)
(** ** [basic_sanitize_ul] *)

Definition quotes : atom := Set_ [IChar squote; IChar dquote].
Definition not_quotes : atom := NSet [IChar squote; IChar dquote].
Definition not_gt : atom := NSet [IChar ">"%char].

(** [(?is)<\s*script.*?>.*?<\s*/\s*script\s*>] *)
Definition re_script : regex :=
  seq_re [lit "<"; Star Space; lit "script"; LazyStar Dot; lit ">";
          LazyStar Dot; lit "<"; Star Space; lit "/"; Star Space;
          lit "script"; Star Space; lit ">"].

(** [(?is)\s+on\w+\s*=\s*(Q).*?\1], where Q is the set of the two
    quotation marks *)
Definition re_handler : regex :=
  seq_re [Plus Space; lit "on"; Plus Word; Star Space; lit "="; Star Space;
          Group 1 (One quotes); LazyStar Dot; Backref 1].

(** [(?i)href\s*=\s*(Q)\s*javascript:N*\1], where Q is the set of the
    two quotation marks and N its complement *)
Definition re_href : regex :=
  seq_re [lit "href"; Star Space; lit "="; Star Space; Group 1 (One quotes);
          Star Space; lit "javascript:"; Star not_quotes; Backref 1].

(** [(?is)</?([a-z0-9]+)(?:\s[^>]* )?>] (the blank before the closing
    parenthesis is not part of the pattern) *)
Definition re_tag : regex :=
  seq_re [lit "<"; Opt (lit "/");
          Group 1 (Plus (Set_ [IRange "a" "z"; IRange "0" "9"]));
          Opt (Cat (One Space) (Star not_gt)); lit ">"].

(** [(?i)<a\b([^>]* )>] (the blank before the closing parenthesis is not
    part of the pattern) *)
Definition re_link : regex :=
  seq_re [lit "<a"; WordB; Group 1 (Star not_gt); lit ">"].

Definition allowed : list str :=
  map L ["ul"; "li"; "a"; "strong"; "em"; "code"; "br"]%string.

Definition keep_or_strip (m : match_obj) : res str :=
  match m_group m 1 with
  | None => Raise AttributeError
  | Some g =>
      let tag := lower g in
      Ret (if existsb (str_eqb tag) allowed then m_text m else [])
  end.

Definition target_attr : str := L " target=" ++ dquote :: L "_blank" ++ [dquote].
Definition rel_attr : str := L " rel=" ++ dquote :: L "noopener" ++ [dquote].

(** The body of [fix_link] on the text of the match. *)
Definition fix_tag (tag : str) : str :=
  let tag :=
    if negb (contains (L "target=") tag)
    then removelast tag ++ target_attr ++ L ">" else tag in
  let tag :=
    if negb (contains (L "rel=") tag)
    then removelast tag ++ rel_attr ++ L ">" else tag in
  tag.

Definition fix_link (m : match_obj) : res str := Ret (fix_tag (m_text m)).

Definition href_hash : str := L "href=" ++ dquote :: L "#" ++ [dquote].

Definition basic_sanitize_ul (html_fragment : str) : res str :=
  if is_empty html_fragment then Ret (L "<ul></ul>")
  else
    let s := html_fragment in
    s <- re_sub flag_is re_script (fun _ => Ret []) s ;;
    s <- re_sub flag_is re_handler (fun _ => Ret []) s ;;
    s <- re_sub flag_i re_href (fun _ => Ret href_hash) s ;;
    s <- re_sub flag_is re_tag keep_or_strip s ;;
    s <- re_sub flag_i re_link fix_link s ;;
    Ret s.


(* ================================================================== *)
(** ** The vocabulary of the statements

    The properties of a fragment that the specification names, read with
    the patterns of the sanitizer itself: a tag is a match of [re_tag], an
    [<a>] tag a match of [re_link], a script element a match of
    [re_script], an event handler a match of [re_handler], a
    [javascript:] link a match of [re_href]. *)

Definition tag_allowed (m : match_obj) : bool :=
  match m_group m 1 with
  | Some g => existsb (str_eqb (lower g)) allowed
  | None => false
  end.

(** Only tags of the allowlist. *)
Definition allowlist_only (x : str) : bool :=
  forallb tag_allowed (re_finditer flag_is re_tag x).

Definition has_attrs (m : match_obj) : bool :=
  contains (L "target=") (m_text m) && contains (L "rel=") (m_text m).

(** Every [<a>] tag holds [target=] and [rel=]. *)
Definition attribute_complete (x : str) : bool :=
  forallb has_attrs (re_finditer flag_i re_link x).

Definition no_match (f : flags) (r : regex) (x : str) : bool :=
  match re_finditer f r x with [] => true | _ :: _ => false end.




Definition blank_attr : str := L "target=" ++ dquote :: L "_blank" ++ [dquote].
Definition noopener_attr : str := L "rel=" ++ dquote :: L "noopener" ++ [dquote].



(** Nothing in the fragment for the three removing passes to act on. *)
Definition nothing_to_remove (x : str) : bool :=
  no_match flag_is re_script x && no_match flag_is re_handler x
  && no_match flag_i re_href x.

(** ASCII letters, digits and the space. *)
Definition plain_char (c : ascii) : bool :=
  is_upper_ascii c || is_lower_ascii c || is_digit c || Ascii.eqb c " ".

(** [ds] is a decimal numeral of [n]: a non-empty run of digits, leading
    zeros allowed, with value [n]. *)
Definition numeral_of (ds : str) (n : Z) : Prop :=
  ds <> [] /\ forallb is_digit ds = true /\ digits_value ds = n.

(** Blanks only. *)
Definition blank (ws : str) : bool := forallb is_space ws.

(** The text [N unit ago], with the blanks [ws1] and [ws2], none or
    more, that the patterns allow before and after the unit. *)
Definition counted (ds ws1 : str) (unit : string) (ws2 : str) : str :=
  ds ++ ws1 ++ L unit ++ ws2 ++ L "ago".

(** A numeral of one digit more than [int] accepts. *)
Definition long_numeral : str := List.repeat "1"%char (S max_str_digits).

Definition day_units : list string := ["day"; "days"]%string.
Definition week_units : list string := ["week"; "weeks"]%string.
Definition short_units : list string :=
  ["minute"; "min"; "minutes"; "mins"; "hour"; "hr"; "hours"; "hrs"]%string.

(** The date of the first format that parses. *)
Fixpoint first_parsed (t : str) (fmts : list str) : option datetime :=
  match fmts with
  | [] => None
  | fmt :: more =>
      match strptime t fmt with
      | Ret d => Some d
      | Raise _ => first_parsed t more
      end
  end.

(** *** The calendar, day by day

    The days from one date to another are counted here by going from a
    day to the next one, with the lengths of the months written out;
    the day numbers that [datetime] subtracts play no part. *)

Definition leap_year (y : Z) : bool :=
  ((y mod 4 =? 0) && negb (y mod 100 =? 0) || (y mod 400 =? 0))%Z.

Definition month_length (y m : Z) : Z :=
  match m with
  | 2 => if leap_year y then 29 else 28
  | 4 | 6 | 9 | 11 => 30
  | _ => 31
  end%Z.

(** The day after [t]; the time of day stays. *)
Definition tomorrow (t : datetime) : datetime :=
  let next (y m d : Z) :=
    {| year := y; month := m; day := d; hour := hour t; minute := minute t;
       second := second t; microsecond := microsecond t |} in
  if (day t <? month_length (year t) (month t))%Z
  then next (year t) (month t) (day t + 1)%Z
  else if (month t <? 12)%Z then next (year t) (month t + 1)%Z 1%Z
  else next (year t + 1)%Z 1%Z 1%Z.

(** The day [k] days after [t]. *)
Fixpoint days_later (k : nat) (t : datetime) : datetime :=
  match k with
  | O => t
  | S k' => days_later k' (tomorrow t)
  end.

(** The same day of the calendar, whatever the time. *)
Definition same_day (a b : datetime) : Prop :=
  year a = year b /\ month a = month b /\ day a = day b.

(** The rules of [within_past_week] before the dates. *)
Definition relative_rule (t : str) : bool :=
  contains (L "yesterday") t
  || is_some (re_match no_flags re_minutes t)
  || is_some (re_match no_flags re_hours t)
  || is_some (re_match no_flags re_days t)
  || is_some (re_match no_flags re_weeks t).

(** The head of the text is a decimal digit. *)
Definition starts_with_digit (t : str) : bool :=
  match t with
  | c :: _ => is_digit c
  | [] => false
  end.

(* ================================================================== *)
(** ** Definitions used by the proofs *)

(** The characters some atom of the pattern accepts. *)
Fixpoint alpha (f : flags) (r : regex) (c : ascii) : bool :=
  match r with
  | Eps | WordB => false
  | One a | Star a | Plus a | LazyStar a => atom_ok f a c
  | Cat r1 r2 | Alt r1 r2 => alpha f r1 c || alpha f r2 c
  | Opt r1 | Group _ r1 => alpha f r1 c
  | Backref _ => true
  end.

(** [st'] lies [u] further than [st]. *)
Definition ahead (q : ascii -> bool) (st st' : mstate) : Prop :=
  exists u, rest st = u ++ rest st' /\ forallb q u = true.

(** A character every match of the pattern has to read. *)
Fixpoint needs (c : ascii) (r : regex) : bool :=
  match r with
  | One (Lit x) => Ascii.eqb c x
  | Cat r1 r2 => needs c r1 || needs c r2
  | Alt r1 r2 => needs c r1 && needs c r2
  | Group _ r1 => needs c r1
  | _ => false
  end.

(** Neither [<] nor [=]. *)
Definition markup_free (c : ascii) : bool :=
  negb (Ascii.eqb c "<") && negb (Ascii.eqb c "=").

(** An [<a>] tag with both attributes and a handler split by another. *)
Definition x_handler_split : str :=
  L "<a on onx='1'click='2' target='_blank' rel='noopener'>x</a>".

(** The text up to the first [>] and the text after it. *)
Fixpoint split_gt (s : str) : option (str * str) :=
  match s with
  | [] => None
  | c :: s' =>
      if Ascii.eqb c ">" then Some ([], s')
      else match split_gt s' with
           | Some (b, a) => Some (c :: b, a)
           | None => None
           end
  end.

(** The match of the link pattern at the head of [s]: [<], an [a] of
    either case, no word character next, and the text up to the first
    [>]. *)
Definition link_match (s : str) : option match_obj :=
  match s with
  | c1 :: c2 :: s2 =>
      if Ascii.eqb c1 "<" && Ascii.eqb (lower_char c2) "a"
         && negb (opt_word (hd_error s2))
      then match split_gt s2 with
           | Some (b, a) =>
               Some {| m_text := c1 :: c2 :: b ++ [">"%char];
                       m_groups := [(1, b)];
                       m_last := Some ">"%char; m_after := a |}
           | None => None
           end
      else None
  | _ => None
  end.

(** [c] does not occur in [p]. *)
Definition not_in (c : ascii) (p : str) : bool :=
  forallb (fun x => negb (Ascii.eqb x c)) p.

(** What [fix_link] appends to the tag [t]. *)
Definition extra_target (t : str) : str :=
  if contains (L "target=") t then [] else target_attr.

Definition extra_rel (t : str) : str :=
  if contains (L "rel=") t then [] else rel_attr.

(** [re.sub] and [re.finditer] for the link pattern, on [link_match]. *)
Fixpoint link_pass (skip : nat) (s : str) : str :=
  match skip with
  | S k =>
      match s with
      | _ :: s' => link_pass k s'
      | [] => []
      end
  | O =>
      match link_match s with
      | Some m =>
          match s with
          | _ :: s' =>
              match List.length (m_text m) with
              | S k => fix_tag (m_text m) ++ link_pass k s'
              | O => fix_tag (m_text m) ++ s
              end
          | [] => fix_tag (m_text m)
          end
      | None =>
          match s with
          | c :: s' => c :: link_pass 0 s'
          | [] => []
          end
      end
  end.

Fixpoint link_find (skip : nat) (s : str) : list match_obj :=
  match skip with
  | S k =>
      match s with
      | _ :: s' => link_find k s'
      | [] => []
      end
  | O =>
      match link_match s with
      | Some m =>
          m :: match s with
               | _ :: s' => link_find (pred (List.length (m_text m))) s'
               | [] => []
               end
      | None =>
          match s with
          | _ :: s' => link_find 0 s'
          | [] => []
          end
      end
  end.

(** A [>] occurs in [s]. *)
Definition has_gt (s : str) : bool := existsb (fun c => Ascii.eqb c ">") s.

(** The tag of the match holds [target=] and [rel=]. *)
Definition complete (m : match_obj) : Prop := has_attrs m = true.

(** What the link pass keeps: the first character, whether a [>]
    occurs, and the [<a>] tags, each of them fixed. *)
Definition pass_inv (s : str) : Prop :=
  hd_error (link_pass 0 s) = hd_error s
  /\ has_gt (link_pass 0 s) = has_gt s
  /\ Forall complete (link_find 0 (link_pass 0 s))
  /\ map m_text (link_find 0 (link_pass 0 s))
     = map (fun m => fix_tag (m_text m)) (link_find 0 s).

(** The pattern holds no group numbered [n]. *)
Fixpoint no_group (n : nat) (r : regex) : bool :=
  match r with
  | Cat r1 r2 | Alt r1 r2 => no_group n r1 && no_group n r2
  | Opt r1 => no_group n r1
  | Group k r1 => negb (Nat.eqb k n) && no_group n r1
  | _ => true
  end.

(** The pattern cannot match the empty string. *)
Fixpoint consumes (r : regex) : bool :=
  match r with
  | One _ | Plus _ => true
  | Cat r1 r2 => consumes r1 || consumes r2
  | Alt r1 r2 => consumes r1 && consumes r2
  | Group _ r1 => consumes r1
  | _ => false
  end.

(** The four passes before the link pass. *)
Definition allowlist_step (x : str) : res str :=
  s <- re_sub flag_is re_script (fun _ => Ret []) x ;;
  s <- re_sub flag_is re_handler (fun _ => Ret []) s ;;
  s <- re_sub flag_i re_href (fun _ => Ret href_hash) s ;;
  re_sub flag_is re_tag keep_or_strip s.


(** The example of the specification, with single quotes. *)
Definition x_plain_link : str := L "<ul><li><a href='http://e.com'>go</a></li></ul>".

(** The digit of [k < 10]. *)
Definition digit_char (k : nat) : ascii := ascii_of_nat (48 + k).

(** The character before the position after [s] has been read. *)
Definition last_of (pv : option ascii) (s : str) : option ascii :=
  fold_left (fun _ c => Some c) s pv.

(** A run of [p] characters ends where [tail] begins. *)
Definition stops (p : ascii -> bool) (tail : str) : bool :=
  match tail with
  | c :: _ => negb (p c)
  | [] => true
  end.

(** The head of the text satisfies [p]. *)
Definition starts (p : ascii -> bool) (s : str) : bool :=
  match s with
  | c :: _ => p c
  | [] => false
  end.

(** Every word of the list begins with [h]. *)
Definition head_is (h : ascii) (units : list string) : bool :=
  forallb (fun u => starts (Ascii.eqb h) (L u)) units.

(** Blanks, one of the words in group [k], blanks, [ago]. *)
Definition after_units (k : nat) (units : list string) : regex :=
  seq_re [Star Space; Group k (alts (map lit units)); Star Space; lit "ago"].

(** What follows the numeral of a counted date. *)
Definition after_numeral (ws1 : str) (u : string) (ws2 tail : str) : str :=
  ws1 ++ L u ++ ws2 ++ L "ago" ++ tail.

(** The unit words of the two patterns that count no further. *)
Definition minute_units : list string :=
  ["minute"; "min"; "minutes"; "mins"]%string.
Definition hour_units : list string := ["hour"; "hr"; "hours"; "hrs"]%string.

(** The patterns after their leading numeral. *)
Definition after_minutes : regex := after_units 1 minute_units.
Definition after_hours : regex := after_units 1 hour_units.
Definition after_days : regex := after_units 2 day_units.
Definition after_weeks : regex := after_units 2 week_units.

(** The afternoon of 2025-10-11. *)
Definition now_oct11 : datetime :=
  {| year := 2025; month := 10; day := 11;
     hour := 15; minute := 3; second := 2; microsecond := 5 |}.

(** Blanks, digits, the comma and the full stop. *)
Definition sep (c : ascii) : bool :=
  is_space c || is_digit c || Ascii.eqb c "," || Ascii.eqb c ".".

(** The pattern of [ %d, %Y]. *)
Definition after_month : regex :=
  match format_regex false (L " %d, %Y") with
  | Some r => r
  | None => Eps
  end.

(** The names that [%b] and [%B] accept. *)
Definition all_months : list str := month_abbr ++ sort_by_len month_name.

(** The length of the year. *)
Definition year_length (y : Z) : Z := (if leap_year y then 366 else 365)%Z.

(** The ordinal of the day before the first of the month, within the
    year. *)
Definition before_month (y m : Z) : Z :=
  (match m with
   | 1 => 0 | 2 => 31
   | 3 => 59 | 4 => 90 | 5 => 120 | 6 => 151 | 7 => 181 | 8 => 212
   | 9 => 243 | 10 => 273 | 11 => 304 | _ => 334
   end + (if leap_year y && (2 <? m) then 1 else 0))%Z.

(** A day of the calendar; the year is not bounded. *)
Definition valid_day (t : datetime) : Prop :=
  (1 <= month t <= 12 /\ 1 <= day t <= month_length (year t) (month t))%Z.

(** Midnight of a day. *)
Definition midnight (y m d : Z) : datetime :=
  {| year := y; month := m; day := d;
     hour := 0; minute := 0; second := 0; microsecond := 0 |}.

(** A quarter to midnight of a day. *)
Definition late (y m d : Z) : datetime :=
  {| year := y; month := m; day := d;
     hour := 23; minute := 45; second := 0; microsecond := 0 |}.

(* ================================================================== *)
(** * The callers: [fetch_and_clean_news], [llm_ul_fragment], [generate]

    The two helpers above are called from the code that fetches the news
    and from the code that turns the reply of the language model into a
    list.  What follows embeds these callers: the decoded JSON of a page
    is a Python object, the search service and the clock are functions
    given from outside, the request to the language model is left out
    (its reply is the argument). *)

From Stdlib Require Floats.SpecFloat.

(* ================================================================== *)
(** ** Python objects *)

Module Py.

(** What [r.json()] can return.  A dict is the list of its entries; the
    first entry of a key is the one that counts. *)
#[warnings="-register-all"]
Inductive value :=
| VNone
| VBool (b : bool)
| VInt (n : Z)
| VFloat (x : SpecFloat.spec_float)
| VStr (s : str)
| VList (l : list value)
| VDict (d : list (str * value)).

(** [bool(v)] *)
Definition truthy (v : value) : bool :=
  match v with
  | VNone => false
  | VBool b => b
  | VInt n => negb (n =? 0)%Z
  | VFloat (SpecFloat.S754_zero _) => false
  | VFloat _ => true
  | VStr s => negb (is_empty s)
  | VList l => match l with [] => false | _ :: _ => true end
  | VDict d => match d with [] => false | _ :: _ => true end
  end.

(** [a or b]; [b] is evaluated only when [a] is false. *)
Definition or_ (a : value) (b : res value) : res value :=
  if truthy a then Ret a else b.

Fixpoint dict_get (d : list (str * value)) (k : str) : value :=
  match d with
  | [] => VNone
  | (k', v) :: d' => if str_eqb k k' then v else dict_get d' k
  end.

(** [o.get(k)]: only a dict has the method. *)
Definition get (o : value) (k : string) : res value :=
  match o with
  | VDict d => Ret (dict_get d (L k))
  | _ => Raise AttributeError
  end.

(** [v.strip()]: only a string has the method. *)
Definition strip_ (v : value) : res str :=
  match v with
  | VStr s => Ret (strip s)
  | _ => Raise AttributeError
  end.

Fixpoint keys (d : list (str * value)) (done : list str) : list str :=
  match d with
  | [] => []
  | (k, _) :: d' =>
      if existsb (str_eqb k) done then keys d' done
      else k :: keys d' (k :: done)
  end.

(** The values a [for] loop over [v] goes through: the elements of a
    list, the keys of a dict, the characters of a string; nothing else
    of [value] can be iterated. *)
Definition iter (v : value) : res (list value) :=
  match v with
  | VList l => Ret l
  | VDict d => Ret (map VStr (keys d []))
  | VStr s => Ret (map (fun c => VStr [c]) s)
  | _ => Raise TypeError
  end.

(** [s.strip(chars)] for the set [p] of characters. *)
Fixpoint lstrip_of (p : ascii -> bool) (s : str) : str :=
  match s with
  | c :: s' => if p c then lstrip_of p s' else s
  | [] => []
  end.

Definition rstrip_of (p : ascii -> bool) (s : str) : str :=
  rev (lstrip_of p (rev s)).

Definition strip_of (p : ascii -> bool) (s : str) : str :=
  rstrip_of p (lstrip_of p s).

(** The line boundaries of [str.splitlines] below U+0100: line feed,
    vertical tab, form feed, carriage return, the three separators
    U+001C .. U+001E and the next-line U+0085. *)
Definition is_linebreak (c : ascii) : bool :=
  in_range 10 13 c || in_range 28 30 c || (code c =? 133)%N.

Definition carriage_return : ascii := ascii_of_nat 13.

(** [line] holds the characters of the line being read; [after_cr] tells
    that the character before was a carriage return, which a line feed
    then belongs to. *)
Fixpoint split_from (line : str) (after_cr : bool) (s : str) : list str :=
  match s with
  | [] => if is_empty line then [] else [line]
  | c :: s' =>
      if after_cr && Ascii.eqb c newline then split_from [] false s'
      else if is_linebreak c
      then line :: split_from [] (Ascii.eqb c carriage_return) s'
      else split_from (line ++ [c]) false s'
  end.

(** [s.splitlines()] *)
Definition splitlines (s : str) : list str := split_from [] false s.

End Py.

(* ================================================================== *)
(** ** [fetch_and_clean_news] *)

Module News.
Import Py.

(** An entry of the list that is returned. *)
Record item := {
  title : str; snippet : str; url : str; source : str; date : str
}.

(** The first lines of the loop body: the five fields of a result. *)
Definition read_item (it : value) : res item :=
  t <- get it "title" ;;
  t <- or_ t (Ret (VStr [])) ;;
  title <- strip_ t ;;
  sn <- get it "snippet" ;;
  sn <- or_ sn (d <- get it "description" ;; or_ d (Ret (VStr []))) ;;
  snippet <- strip_ sn ;;
  u <- get it "link" ;;
  u <- or_ u (Ret (VStr [])) ;;
  url_ <- strip_ u ;;
  src <- get it "source" ;;
  so <- match src with
        | VDict _ => get src "name"
        | _ => or_ src (Ret (VStr []))
        end ;;
  source <- strip_ so ;;
  da <- get it "date" ;;
  da <- or_ da (Ret (VStr [])) ;;
  date <- strip_ da ;;
  Ret {| title := title; snippet := snippet; url := url_;
         source := source; date := date |}.

(** The variables of the loops; [ticks] counts the calls of
    [within_past_week], each of which may read the clock. *)
Record state := {
  all_items : list item;
  seen : list str;
  ticks : nat
}.

Definition in_seen (u : str) (seen : list str) : bool :=
  existsb (str_eqb u) seen.

(** The body of the loop over the results.  [clock n] is what [dt.now()]
    returns during call number [n] of [within_past_week]. *)
Definition step (clock : nat -> datetime) (st : state) (it : value)
  : res state :=
  x <- read_item it ;;
  ok <- within_past_week (clock (ticks st)) (date x) ;;
  let st := {| all_items := all_items st; seen := seen st;
               ticks := S (ticks st) |} in
  if negb ok then Ret st
  else if negb (is_empty (url x)) && in_seen (url x) (seen st) then Ret st
  else
    let st :=
      if negb (is_empty (url x))
      then {| all_items := all_items st; seen := url x :: seen st;
              ticks := ticks st |}
      else st in
    if negb (is_empty (title x)) || negb (is_empty (snippet x))
       || negb (is_empty (url x))
    then Ret {| all_items := all_items st ++ [x]; seen := seen st;
                ticks := ticks st |}
    else Ret st.

(** [for it in results] *)
Fixpoint loop (clock : nat -> datetime) (st : state) (its : list value)
  : res state :=
  match its with
  | [] => Ret st
  | it :: more => st' <- step clock st it ;; loop clock st' more
  end.

(** [data.get("news_results") or data.get("organic_results") or []],
    as the loop goes through it. *)
Definition results_of (data : value) : res (list value) :=
  nr <- get data "news_results" ;;
  results <- or_ nr (og <- get data "organic_results" ;;
                     or_ og (Ret (VList []))) ;;
  iter results.

Record params := {
  engine : str; tbm : str; q : str; hl : str; gl : str;
  num : Z; start : Z; api_key : str
}.

(** The three calls [requests.get], [raise_for_status] and [r.json]:
    the decoded body, or an exception of one of them. *)
Inductive reply :=
| Body (data : value)
| Failure.

Inductive outcome (A : Type) : Type :=
| Done (a : A)
| Raised (e : exn)
| RequestFailed.
Arguments Done {A} a.
Arguments Raised {A} e.
Arguments RequestFailed {A}.

Definition search_params (SERPAPI_KEY keyword : str) (num p : Z) : params :=
  {| engine := L "google"; tbm := L "nws"; q := keyword;
     hl := L "en"; gl := L "us"; num := num; start := (p * num)%Z;
     api_key := SERPAPI_KEY |}.

(** [for p in range(pages)]; [serve p] answers the request of page [p]. *)
Fixpoint pages_loop (serve : Z -> params -> reply) (clock : nat -> datetime)
         (SERPAPI_KEY keyword : str) (num : Z) (ps : list Z) (st : state)
  : outcome state :=
  match ps with
  | [] => Done st
  | p :: more =>
      match serve p (search_params SERPAPI_KEY keyword num p) with
      | Failure => RequestFailed
      | Body data =>
          match (its <- results_of data ;; loop clock st its) with
          | Ret st' => pages_loop serve clock SERPAPI_KEY keyword num more st'
          | Raise e => Raised e
          end
      end
  end.

(** [range(n)] *)
Definition range (n : Z) : list Z := map Z.of_nat (seq 0 (Z.to_nat n)).

Definition fetch_and_clean_news (serve : Z -> params -> reply)
           (clock : nat -> datetime) (SERPAPI_KEY keyword : str)
           (pages num : Z) : outcome (list item) :=
  match pages_loop serve clock SERPAPI_KEY keyword num (range pages)
                   {| all_items := []; seen := []; ticks := 0 |} with
  | Done st => Done (all_items st)
  | Raised e => Raised e
  | RequestFailed => RequestFailed
  end.

(** What the body of the loop does with the fields [x] of a result whose
    date the filter has answered with [ok]. *)
Definition keep (st : state) (ok : bool) (x : item) : state :=
  let st := {| all_items := all_items st; seen := seen st;
               ticks := S (ticks st) |} in
  if negb ok then st
  else if negb (is_empty (url x)) && in_seen (url x) (seen st) then st
  else
    let st :=
      if negb (is_empty (url x))
      then {| all_items := all_items st; seen := url x :: seen st;
              ticks := ticks st |}
      else st in
    if negb (is_empty (title x)) || negb (is_empty (snippet x))
       || negb (is_empty (url x))
    then {| all_items := all_items st ++ [x]; seen := seen st;
            ticks := ticks st |}
    else st.

(** *** The vocabulary of the statements *)

(** The date passes the filter at the time [now]. *)
Definition recent (now : datetime) (x : item) : bool :=
  match within_past_week now (date x) with
  | Ret true => true
  | _ => false
  end.

(** The items that pass the filter, the first of them being tested by
    call number [k]. *)
Fixpoint recent_of (clock : nat -> datetime) (k : nat) (xs : list item)
  : list item :=
  match xs with
  | [] => []
  | x :: more =>
      if recent (clock k) x then x :: recent_of clock (S k) more
      else recent_of clock (S k) more
  end.

(** Something to show: a title, a snippet or a link. *)
Definition nonblank (x : item) : bool :=
  negb (is_empty (title x)) || negb (is_empty (snippet x))
  || negb (is_empty (url x)).

Definition same_url (x y : item) : bool := str_eqb (url x) (url y).

(** No link, or a link that none of the [i] items before has. *)
Definition first_of_url (xs : list item) (i : nat) (x : item) : bool :=
  is_empty (url x) || negb (existsb (same_url x) (firstn i xs)).

(** The items of [xs] that have something to show and are the first of
    their link, in the order of [xs]. *)
Definition kept (xs : list item) : list item :=
  map snd
      (filter (fun ix => nonblank (snd ix) && first_of_url xs (fst ix) (snd ix))
              (combine (seq 0 (List.length xs)) xs)).

(** The fields of all the results, when all of them can be read. *)
Fixpoint read_all (its : list value) : res (list item) :=
  match its with
  | [] => Ret []
  | it :: more => x <- read_item it ;; xs <- read_all more ;; Ret (x :: xs)
  end.

(** The links of the items that have one. *)
Definition links (xs : list item) : list str :=
  filter (fun u => negb (is_empty u)) (map url xs).

(** No blank at either end. *)
Definition trimmed (s : str) : Prop := strip s = s.

(** The five fields have no blank at either end. *)
Definition fields_trimmed (x : item) : Prop :=
  trimmed (title x) /\ trimmed (snippet x) /\ trimmed (url x)
  /\ trimmed (source x) /\ trimmed (date x).

(** What holds of an item of the list: it has something to show, its
    fields are trimmed, and the filter let its date pass at some reading
    of the clock. *)
Definition presentable (clock : nat -> datetime) (x : item) : Prop :=
  nonblank x = true /\ fields_trimmed x
  /\ exists k, recent (clock k) x = true.

(** A string, or a value that counts as false and is replaced by the
    empty string. *)
Definition text_or_nothing (v : value) : bool :=
  match v with
  | VStr _ => true
  | _ => negb (truthy v)
  end.

(** A result that the loop can read: a dict whose [title], [link] and
    [date], and whose [snippet] or else [description], are strings or
    count as false, and whose [source] is such a value too or a dict with
    a string under [name]. *)
Definition well_formed (it : value) : bool :=
  match it with
  | VDict d =>
      text_or_nothing (dict_get d (L "title"))
      && text_or_nothing (if truthy (dict_get d (L "snippet"))
                          then dict_get d (L "snippet")
                          else dict_get d (L "description"))
      && text_or_nothing (dict_get d (L "link"))
      && match dict_get d (L "source") with
         | VDict sd =>
             match dict_get sd (L "name") with
             | VStr _ => true
             | _ => false
             end
         | v => text_or_nothing v
         end
      && text_or_nothing (dict_get d (L "date"))
  | _ => false
  end.

(** A result whose [source] is a dict without a string under [name]. *)
Definition nameless_source (it : value) : bool :=
  match it with
  | VDict d =>
      match dict_get d (L "source") with
      | VDict sd =>
          match dict_get sd (L "name") with
          | VStr _ => false
          | _ => true
          end
      | _ => false
      end
  | _ => false
  end.

(** The date of the result, as the loop reads it, has no more
    characters than [int] accepts digits: the filter answers it. *)
Definition short_date (it : value) : bool :=
  match read_item it with
  | Ret x => List.length (date x) <=? max_str_digits
  | Raise _ => true
  end.

(** The result can be read, and the filter raises a [ValueError] on its
    date. *)
Definition refused (it : value) : Prop :=
  exists x now,
    read_item it = Ret x /\ within_past_week now (date x) = Raise ValueError.

(** Page [p] answers with a body whose results are [its]. *)
Definition serves (serve : Z -> params -> reply) (SERPAPI_KEY keyword : str)
           (num : Z) (p : nat) (its : list value) : Prop :=
  exists data,
    serve (Z.of_nat p) (search_params SERPAPI_KEY keyword num (Z.of_nat p))
    = Body data
    /\ results_of data = Ret its.

(** The state of the loops after the results whose items that passed
    the filter are [pre]: the list holds the kept ones, [seen] their
    links. *)
Definition tracks (pre : list item) (st : state) : Prop :=
  all_items st = kept pre
  /\ forall u, u <> [] ->
       in_seen u (seen st) = existsb (fun y => str_eqb u (url y)) pre.

(** *** Two pages of results, for the examples *)

Definition result (t l d : string) : value :=
  VDict [(L "title", VStr (L t)); (L "link", VStr (L l));
         (L "date", VStr (L d))].

Definition page_one : list value :=
  [result "Acme raises a round" "http://a.example/1" "2 days ago";
   result "Old news" "http://b.example/2" "3 weeks ago";
   result "No link" "" "Yesterday"].

Definition page_two : list value :=
  [result "Acme again" " http://a.example/1 " "1 hour ago";
   result "Beta ships" "http://b.example/2" "Oct 9, 2025";
   result "" "" "5 mins ago"].

Definition two_pages (p : Z) (_ : params) : reply :=
  if (p =? 0)%Z then Body (VDict [(L "news_results", VList page_one)])
  else if (p =? 1)%Z
  then Body (VDict [(L "news_results", VList []);
                    (L "organic_results", VList page_two)])
  else Failure.

Definition noon_oct11 (_ : nat) : datetime :=
  {| year := 2025; month := 10; day := 11;
     hour := 12; minute := 0; second := 0; microsecond := 0 |}.

Definition entry (t l d : string) : item :=
  {| title := L t; snippet := []; url := L l; source := []; date := L d |}.

(** The fields of the results of the two pages. *)
Definition two_pages_read : list item :=
  [entry "Acme raises a round" "http://a.example/1" "2 days ago";
   entry "Old news" "http://b.example/2" "3 weeks ago";
   entry "No link" "" "Yesterday";
   entry "Acme again" "http://a.example/1" "1 hour ago";
   entry "Beta ships" "http://b.example/2" "Oct 9, 2025";
   entry "" "" "5 mins ago"].

(** What is kept of them. *)
Definition two_pages_kept : list item :=
  [entry "Acme raises a round" "http://a.example/1" "2 days ago";
   entry "No link" "" "Yesterday";
   entry "Beta ships" "http://b.example/2" "Oct 9, 2025"].

(** A page with a result whose source has no name. *)
Definition nameless_page (p : Z) (_ : params) : reply :=
  Body (VDict [(L "news_results",
                VList [VDict [(L "title", VStr (L "Acme"));
                              (L "source", VDict [(L "icon", VStr (L "i.png"))]);
                              (L "date", VStr (L "3 weeks ago"))]])]).

(** A page with a result whose date is a numeral of 4301 digits. *)
Definition long_date_page (p : Z) (_ : params) : reply :=
  Body (VDict [(L "news_results",
                VList [result "Acme" "http://a.example/1" "2 days ago";
                       VDict [(L "title", VStr (L "Beta"));
                              (L "date",
                               VStr (long_numeral ++ L " days ago"))]])]).

End News.

(* ================================================================== *)
(** ** [llm_ul_fragment] *)

Module Llm.
Import Py.

Definition startup_words : list str :=
  map L ["startup"; "startups"; "ai startup"; "agentic ai"; "founder";
         "seed"; "series a"; "pre-seed"; "pre seed"]%string.

(** [keyword or ""] *)
Definition or_empty (o : option str) : str :=
  match o with
  | Some s => s
  | None => []
  end.

Definition startup_mode (keyword : option str) : bool :=
  let kw_lower := lower (or_empty keyword) in
  existsb (fun k => contains k kw_lower) startup_words.

(** The characters that [ln.strip(...)] takes off a line: the hyphen, the
    space and the tab.  The bullet U+2022 of the source lies outside the
    characters of this development. *)
Definition bullet_char (c : ascii) : bool :=
  Ascii.eqb c "-" || Ascii.eqb c " " || (code c =? 9)%N.

Definition li (ln : str) : str := L "<li>" ++ ln ++ L "</li>".

(** The lines of a reply that is not a list, as list items. *)
Definition lines_of (frag : str) : list str :=
  map (strip_of bullet_char)
      (filter (fun ln => negb (is_empty (strip ln))) (splitlines frag)).

Definition as_list (frag : str) : str :=
  let items := List.concat (map li (lines_of frag)) in
  L "<ul>" ++ newline :: items ++ newline :: L "</ul>".

(** What is handed to the sanitizer. *)
Definition fragment_of (html_fragment : option str) : str :=
  let frag := strip (or_empty html_fragment) in
  if negb (contains (L "<ul") (lower frag)) then as_list frag else frag.

(** The function from line 199 on: [html_fragment] is the text that the
    lines before have left in the variable of that name; the request and
    the reading of the reply object, [html_fragment_of] below, come
    before. *)
Definition llm_ul_fragment (html_fragment : option str) : res str :=
  basic_sanitize_ul (fragment_of html_fragment).

(** *** Reading the reply object

    What the lines between the request and line 199 look at in [resp]:
    the attributes [output_text] and [output], each of which may be
    missing, and [str(resp)].  An object that is no dict, whatever its
    class, stands here as a value that is no [VDict]: the code only
    asks whether it is one. *)
Record response := {
  output_text : option value;
  output : option value;
  shown : str
}.

(** [getattr(resp, name, default)] *)
Definition attr_or (a : option value) (default : value) : value :=
  match a with
  | Some v => v
  | None => default
  end.

(** [v == s] for a string [s] *)
Definition is_text (v : value) (s : string) : bool :=
  match v with
  | VStr t => str_eqb t (L s)
  | _ => false
  end.

(** The entry of the key in a dict, if there is one. *)
Fixpoint dict_find (d : list (str * value)) (k : str) : option value :=
  match d with
  | [] => None
  | (k', v) :: d' => if str_eqb k k' then Some v else dict_find d' k
  end.

(** [for c in ...: if c.get("type") == "output_text" and "text" in c:
    chunks.append(c["text"])] *)
Fixpoint texts_of (content : list value) (chunks : list value)
  : res (list value) :=
  match content with
  | [] => Ret chunks
  | c :: more =>
      t <- get c "type" ;;
      match c with
      | VDict d =>
          match is_text t "output_text", dict_find d (L "text") with
          | true, Some text => texts_of more (chunks ++ [text])
          | _, _ => texts_of more chunks
          end
      | _ => texts_of more chunks
      end
  end.

(** [for item in ...: if isinstance(item, dict) and item.get("type") ==
    "message": for c in item.get("content", []): ...] *)
Fixpoint chunks_of (items : list value) (chunks : list value)
  : res (list value) :=
  match items with
  | [] => Ret chunks
  | item :: more =>
      match item with
      | VDict d =>
          if is_text (dict_get d (L "type")) "message"
          then content <- iter (attr_or (dict_find d (L "content")) (VList [])) ;;
               chunks <- texts_of content chunks ;;
               chunks_of more chunks
          else chunks_of more chunks
      | _ => chunks_of more chunks
      end
  end.

(** [sep.join(chunks)]: every chunk must be a string. *)
Fixpoint join (sep : str) (chunks : list value) : res str :=
  match chunks with
  | [] => Ret []
  | [VStr s] => Ret s
  | VStr s :: more => t <- join sep more ;; Ret (s ++ sep ++ t)
  | _ :: _ => Raise TypeError
  end.

(** Lines 189 to 197: the value of [html_fragment] before line 199. *)
Definition html_fragment_of (resp : response) : res value :=
  let html_fragment := attr_or (output_text resp) VNone in
  if truthy html_fragment then Ret html_fragment
  else
    out <- or_ (attr_or (output resp) (VList [])) (Ret (VList [])) ;;
    items <- iter out ;;
    chunks <- chunks_of items [] ;;
    match chunks with
    | [] => Ret (VStr (shown resp))
    | _ :: _ => s <- join [newline] chunks ;; Ret (VStr s)
    end.

(** Lines 189 to 205.  At line 199 [html_fragment] is a string or a
    value that counts as true; [strip] is a method of the strings
    only. *)
Definition from_response (resp : response) : res str :=
  h <- html_fragment_of resp ;;
  match h with
  | VStr s => llm_ul_fragment (Some s)
  | _ => Raise AttributeError
  end.

(** *** The vocabulary of the statements *)

Definition is_dict (v : value) : bool :=
  match v with
  | VDict _ => true
  | _ => false
  end.

(** No [output], or a list none of whose elements is a dict. *)
Definition no_dict_output (a : option value) : bool :=
  match a with
  | None => true
  | Some (VList items) => forallb (fun item => negb (is_dict item)) items
  | Some _ => false
  end.

(** A reply object with blanks for its text, and one without text whose
    output is a list of objects. *)
Definition blank_reply : response :=
  {| output_text := Some (VStr (L "  ")); output := None; shown := L "R" |}.

Definition object_reply : response :=
  {| output_text := Some (VStr []); output := Some (VList [VNone; VNone]);
     shown := L "Response(id=1)" |}.

Definition list_tags : list str :=
  map L ["<ul>"; "</ul>"; "<li>"; "</li>"]%string.

(** A text made of the four tags of a list and of characters other than
    [<] and [=]. *)
Inductive listing : str -> Prop :=
| listing_nil : listing []
| listing_char c x : markup_free c = true -> listing x -> listing (c :: x)
| listing_tag t x : In t list_tags -> listing x -> listing (t ++ x).

(** A reply of three lines, with the marks of a list at their heads. *)
Definition three_lines : str :=
  L "- Acme raises a round" ++ newline :: L "   " ++ newline
  :: L "* Beta > Gamma -" ++ carriage_return :: newline :: L "-- Delta".

End Llm.

(* ================================================================== *)
(** ** Letter case

    The vocabulary of the statement on the letter case of a date. *)

Module Case.

(** The atoms that, when case is ignored, accept a character and its
    lower-case form alike: all but the negated sets, which compare the
    character as it is. *)
Definition blind_atom (a : atom) : bool :=
  match a with
  | NSet _ => false
  | _ => true
  end.

Fixpoint case_blind (r : regex) : bool :=
  match r with
  | Eps | WordB | Backref _ => true
  | One a | Star a | Plus a | LazyStar a => blind_atom a
  | Cat r1 r2 | Alt r1 r2 => case_blind r1 && case_blind r2
  | Opt r1 | Group _ r1 => case_blind r1
  end.

Definition lower_groups (g : list (nat * str)) : list (nat * str) :=
  map (fun kv => (fst kv, lower (snd kv))) g.

(** The state of the matcher on the text in lower case. *)
Definition lower_state (st : mstate) : mstate :=
  {| prev := option_map lower_char (prev st);
     rest := lower (rest st);
     groups := lower_groups (groups st) |}.

Definition lower_match (m : match_obj) : match_obj :=
  {| m_text := lower (m_text m);
     m_groups := lower_groups (m_groups m);
     m_last := option_map lower_char (m_last m);
     m_after := lower (m_after m) |}.

End Case.

(* ================================================================== *)
(** ** A tag on its own

    The vocabulary of the statements on a single tag without
    attributes in a text that has no other markup. *)

Module Markup.

(** An ASCII letter or digit: what the name of a tag is made of. *)
Definition name_char (c : ascii) : bool :=
  is_lower_ascii c || is_upper_ascii c || is_digit c.

(** [<name>], or [</name>] when [closing]. *)
Definition bare_tag (closing : bool) (name : str) : str :=
  L "<" ++ (if closing then L "/" else []) ++ name ++ L ">".

(** Any character but [<]: what the body of a script element is made of
    when nothing that looks like a tag is written in it. *)
Definition no_lt (c : ascii) : bool := negb (Ascii.eqb c "<").

End Markup.

(* ================================================================== *)
(** ** [generate] *)

Module Web.

Definition default_keyword : str := L "AI Startup".

(** [(request.form.get("keyword") or "AI Startup").strip() or "AI Startup"] *)
Definition form_keyword (field : option str) : str :=
  let k :=
    strip (match field with
           | Some s => if is_empty s then default_keyword else s
           | None => default_keyword
           end) in
  if is_empty k then default_keyword else k.

(** The blanks that [int] passes over at the two ends of a text: the
    ASCII blanks without the separators U+001C .. U+001F, the next-line
    U+0085 and the no-break space U+00A0. *)
Definition int_blank (c : ascii) : bool :=
  in_range 9 13 c || (code c =? 32)%N || (code c =? 133)%N
  || (code c =? 160)%N.

(** Digits, with single underscores between them; [after_digit] tells
    that the character before was a digit. *)
Fixpoint digit_groups (s : str) (after_digit : bool) : bool :=
  match s with
  | [] => after_digit
  | c :: s' =>
      if is_digit c then digit_groups s' true
      else if Ascii.eqb c "_" then after_digit && digit_groups s' false
      else false
  end.

(** [int(s)] for a string: blanks, a sign, digits with underscores; more
    digits than [max_str_digits] are a [ValueError] like any other
    text. *)
Definition int_text (s : str) : res Z :=
  let t := Py.strip_of int_blank s in
  let signed :=
    match t with
    | c :: body =>
        if Ascii.eqb c "-" then (true, body)
        else if Ascii.eqb c "+" then (false, body)
        else (false, t)
    | [] => (false, t)
    end in
  let ds := filter is_digit (snd signed) in
  if digit_groups (snd signed) false && (List.length ds <=? max_str_digits)
  then Ret (if fst signed then - digits_value ds else digits_value ds)%Z
  else Raise ValueError.

(** [int(request.form.get(name) or default)], [default] being an
    [int]. *)
Definition form_int (field : option str) (default : Z) : res Z :=
  match field with
  | Some (c :: s) => int_text (c :: s)
  | _ => Ret default
  end.

(** The values of the module that are read from the environment. *)
Record config := {
  SERPAPI_KEY : str;
  DEFAULT_PAGES : Z;
  DEFAULT_NUM : Z
}.

(** What a request meets: the fields of the form, the search service,
    the clock, the language model and the two values that are computed
    from the time.  [ask] gives the text of the reply of the model, as
    [llm_ul_fragment] has it before it strips it, or nothing when the
    call or the reading of the reply raises. *)
Record world := {
  form : string -> option str;
  serve : Z -> News.params -> News.reply;
  clock : nat -> datetime;
  ask : list News.item -> str -> option (option str);
  generated_at : str;
  duration_sec : SpecFloat.spec_float
}.

(** The dict [meta]; the fields [generated_at] and [duration_sec] hold
    what the world gives. *)
Record meta_dict := {
  count : nat;
  meta_generated_at : str;
  meta_duration_sec : SpecFloat.spec_float;
  pages : Z;
  num : Z;
  meta_keyword : str
}.

(** An exception, by its origin: the text of its message, which the
    error page shows, is not looked at. *)
Inductive failure :=
| Python (e : exn)
| RequestError
| ModelError.

(** The arguments of [render_template]. *)
Record page := {
  keyword : str;
  ul_fragment : option str;
  meta : option meta_dict;
  error : option failure
}.

Definition error_page (e : failure) : page :=
  {| keyword := default_keyword; ul_fragment := None; meta := None;
     error := Some e |}.

Definition generate (c : config) (w : world) : page :=
  let kw := form_keyword (form w "keyword") in
  match form_int (form w "pages") (DEFAULT_PAGES c) with
  | Raise e => error_page (Python e)
  | Ret pages =>
      match form_int (form w "num") (DEFAULT_NUM c) with
      | Raise e => error_page (Python e)
      | Ret num =>
          match News.fetch_and_clean_news (serve w) (clock w) (SERPAPI_KEY c)
                                          kw pages num with
          | News.Raised e => error_page (Python e)
          | News.RequestFailed => error_page RequestError
          | News.Done cleaned =>
              match ask w cleaned kw with
              | None => error_page ModelError
              | Some reply =>
                  match Llm.llm_ul_fragment reply with
                  | Raise e => error_page (Python e)
                  | Ret ul =>
                      {| keyword := kw;
                         ul_fragment := Some ul;
                         meta := Some {| count := List.length cleaned;
                                         meta_generated_at := generated_at w;
                                         meta_duration_sec := duration_sec w;
                                         pages := pages;
                                         num := num;
                                         meta_keyword := kw |};
                         error := None |}
                  end
              end
          end
      end
  end.

(** *** A form and a world, for the examples *)

Definition no_service : world :=
  {| form := fun name =>
       if String.eqb name "pages" then Some (L " -3 ")
       else if String.eqb name "keyword" then Some (L " Acme ")
       else None;
     serve := fun _ _ => News.Failure;
     clock := News.noon_oct11;
     ask := fun _ _ => Some (Some (L "- nothing found"));
     generated_at := L "2025-10-11 12:00:00";
     duration_sec := SpecFloat.S754_zero false |}.

Definition defaults : config :=
  {| SERPAPI_KEY := L "key"; DEFAULT_PAGES := 2; DEFAULT_NUM := 40 |}.

End Web.

(* ================================================================== *)
(** * Proofs *)

(** ** Characters *)

(** Case analysis on the eight bits of a character. *)
Ltac char_cases c :=
  let b0 := fresh in let b1 := fresh in let b2 := fresh in
  let b3 := fresh in let b4 := fresh in let b5 := fresh in
  let b6 := fresh in let b7 := fresh in
  destruct c as [b0 b1 b2 b3 b4 b5 b6 b7];
  destruct b0, b1, b2, b3, b4, b5, b6, b7.

Ltac by_char c := char_cases c; vm_compute; try reflexivity; try discriminate;
                  try tauto; try (intros; discriminate).

(** Splitting conjunctions only. *)
Ltac conj := repeat match goal with |- _ /\ _ => split end.

(** Closed facts settled by evaluation, conjunct by conjunct. *)
Ltac by_eval :=
  repeat match goal with |- _ /\ _ => split end;
  try match goal with |- _ = _ => vm_compute; reflexivity end.

Lemma digit_not_space c : is_digit c = true -> is_space c = false.
Proof. by_char c. Qed.

Lemma digit_lower c : is_digit c = true -> lower_char c = c.
Proof. by_char c. Qed.

Lemma space_lower c : is_space c = true -> lower_char c = c.
Proof. by_char c. Qed.

Lemma lower_space c : is_space (lower_char c) = is_space c.
Proof. by_char c. Qed.

Lemma lower_digit c : is_digit (lower_char c) = is_digit c.
Proof. by_char c. Qed.

Lemma lower_idem c : lower_char (lower_char c) = lower_char c.
Proof. by_char c. Qed.

Lemma eqb_eq_iff (a b : ascii) : Ascii.eqb a b = true <-> a = b.
Proof. apply Ascii.eqb_eq. Qed.

(* ------------------------------------------------------------------ *)
(** ** Text *)

Lemma startswith_refl p s : startswith p (p ++ s) = true.
Proof.
  induction p as [|x p IH]; simpl; [reflexivity|].
  now rewrite Ascii.eqb_refl.
Qed.

Lemma startswith_split p s :
  startswith p s = true -> exists t, s = p ++ t.
Proof.
  revert s; induction p as [|x p IH]; intros s H; simpl in *.
  - now exists s.
  - destruct s as [|y s]; [discriminate|].
    apply andb_true_iff in H as [H1 H2].
    apply Ascii.eqb_eq in H1; subst y.
    destruct (IH _ H2) as [t ->]. now exists t.
Qed.

Lemma contains_cons p c s :
  contains p (c :: s) = startswith p (c :: s) || contains p s.
Proof. reflexivity. Qed.

Lemma contains_app_r p a b : contains p b = true -> contains p (a ++ b) = true.
Proof.
  induction a as [|c a IH]; intros H; [exact H|].
  simpl app. rewrite contains_cons, (IH H). apply orb_true_r.
Qed.

Lemma contains_mid p a b : contains p (a ++ p ++ b) = true.
Proof.
  apply contains_app_r.
  destruct (p ++ b) eqn:E.
  - destruct p; [reflexivity|discriminate].
  - rewrite contains_cons, <- E, startswith_refl. reflexivity.
Qed.

Lemma startswith_app_l p a b :
  startswith p a = true -> startswith p (a ++ b) = true.
Proof.
  revert a; induction p as [|x p IH]; intros a H; [reflexivity|].
  destruct a as [|y a]; [discriminate|]. simpl in *.
  apply andb_true_iff in H as [H1 H2]. now rewrite H1, IH.
Qed.

Lemma contains_app_l p a b : contains p a = true -> contains p (a ++ b) = true.
Proof.
  induction a as [|c a IH]; intros H.
  - destruct p; [|discriminate]. destruct b; reflexivity.
  - simpl app. rewrite contains_cons in *.
    apply orb_true_iff in H as [H|H].
    + change (c :: a ++ b) with ((c :: a) ++ b).
      now rewrite (startswith_app_l _ (c :: a) b H).
    + rewrite (IH H). apply orb_true_r.
Qed.

(** A pattern none of whose characters satisfies [q] cannot reach into a
    text all of whose characters satisfy [q]. *)
Lemma startswith_straddle q p a b :
  p <> [] ->
  forallb (fun c => negb (q c)) p = true ->
  forallb q b = true ->
  startswith p (a ++ b) = startswith p a.
Proof.
  revert a; induction p as [|x p IH]; intros a Hne Hp Hb; [congruence|].
  simpl in Hp. apply andb_true_iff in Hp as [Hx Hp].
  destruct a as [|y a].
  - simpl app. destruct b as [|z b]; [reflexivity|]. simpl.
    simpl in Hb. apply andb_true_iff in Hb as [Hz _].
    destruct (Ascii.eqb x z) eqn:E; [|reflexivity].
    apply Ascii.eqb_eq in E; subst z. rewrite Hz in Hx. discriminate.
  - simpl. destruct (Ascii.eqb x y); [|reflexivity]. simpl.
    destruct p as [|x' p].
    + reflexivity.
    + apply IH; [discriminate|exact Hp|exact Hb].
Qed.

Lemma contains_none q p b :
  p <> [] ->
  forallb (fun c => negb (q c)) p = true ->
  forallb q b = true ->
  contains p b = false.
Proof.
  intros Hne Hp; induction b as [|z b IH]; intros Hb.
  - destruct p; [congruence|reflexivity].
  - rewrite contains_cons. simpl in Hb. apply andb_true_iff in Hb as [Hz Hb].
    rewrite (IH Hb), orb_false_r.
    destruct p as [|x p]; [congruence|]. simpl in *.
    apply andb_true_iff in Hp as [Hx _].
    destruct (Ascii.eqb x z) eqn:E; [|reflexivity].
    apply Ascii.eqb_eq in E; subst z. rewrite Hz in Hx. discriminate.
Qed.

Lemma contains_straddle q p a b :
  p <> [] ->
  forallb (fun c => negb (q c)) p = true ->
  forallb q b = true ->
  contains p (a ++ b) = contains p a.
Proof.
  intros Hne Hp Hb. induction a as [|y a IH].
  - simpl app. rewrite (contains_none q p b Hne Hp Hb).
    destruct p; [congruence|reflexivity].
  - simpl app. rewrite !contains_cons, IH.
    change (y :: a ++ b) with ((y :: a) ++ b).
    now rewrite (startswith_straddle q p (y :: a) b Hne Hp Hb).
Qed.

Lemma occurrences_cons p c s :
  occurrences p (c :: s) =
  (if startswith p (c :: s) then 1 else 0) + occurrences p s.
Proof. reflexivity. Qed.

Lemma occurrences_zero p s : contains p s = false -> occurrences p s = 0.
Proof.
  induction s as [|c s IH]; intros H.
  - simpl in *. rewrite orb_false_r in H. now rewrite H.
  - rewrite contains_cons in H. apply orb_false_iff in H as [H1 H2].
    rewrite occurrences_cons, H1, (IH H2). reflexivity.
Qed.

Lemma occurrences_straddle q p a b :
  p <> [] ->
  forallb (fun c => negb (q c)) p = true ->
  forallb q b = true ->
  occurrences p (a ++ b) = occurrences p a.
Proof.
  intros Hne Hp Hb. induction a as [|y a IH].
  - simpl app. rewrite (occurrences_zero p b (contains_none q p b Hne Hp Hb)).
    destruct p; [congruence|reflexivity].
  - simpl app. rewrite !occurrences_cons, IH.
    change (y :: a ++ b) with ((y :: a) ++ b).
    now rewrite (startswith_straddle q p (y :: a) b Hne Hp Hb).
Qed.

Lemma lower_app a b : lower (a ++ b) = lower a ++ lower b.
Proof. apply map_app. Qed.

Lemma lstrip_app_stop x y :
  (forall c y', y = c :: y' -> is_space c = false) -> y <> [] ->
  lstrip (x ++ y) = lstrip x ++ y.
Proof.
  intros Hy Hne. induction x as [|c x IH]; simpl.
  - destruct y as [|c y']; [congruence|]. simpl.
    now rewrite (Hy c y' eq_refl).
  - destruct (is_space c); [exact IH|reflexivity].
Qed.

Lemma lstrip_id s :
  (forall c s', s = c :: s' -> is_space c = false) -> lstrip s = s.
Proof.
  destruct s as [|c s]; intros H; [reflexivity|].
  simpl. now rewrite (H c s eq_refl).
Qed.

Lemma lstrip_suffix s : exists w, s = w ++ lstrip s.
Proof.
  induction s as [|c s [w IH]]; simpl.
  - now exists [].
  - destruct (is_space c).
    + exists (c :: w). simpl. now f_equal.
    + now exists [].
Qed.

Lemma rstrip_prefix s : exists w, s = rstrip s ++ w.
Proof.
  unfold rstrip. destruct (lstrip_suffix (rev s)) as [w Hw].
  exists (rev w). rewrite <- rev_app_distr, <- Hw. now rewrite rev_involutive.
Qed.

Lemma rstrip_app_stop x y :
  (forall c x', rev x = c :: x' -> is_space c = false) -> x <> [] ->
  rstrip (x ++ y) = x ++ rstrip y.
Proof.
  intros Hx Hne. unfold rstrip. rewrite rev_app_distr.
  rewrite lstrip_app_stop; [|exact Hx|].
  - now rewrite rev_app_distr, rev_involutive.
  - intros E. apply Hne. apply (f_equal (@rev ascii)) in E.
    now rewrite rev_involutive in E.
Qed.

(** A text with no blank at either end is left alone by [strip]. *)
Lemma strip_id s :
  (forall c s', s = c :: s' -> is_space c = false) ->
  (forall c s', rev s = c :: s' -> is_space c = false) ->
  strip s = s.
Proof.
  intros H1 H2. unfold strip. rewrite (lstrip_id s H1).
  unfold rstrip. rewrite (lstrip_id _ H2). apply rev_involutive.
Qed.

(* ------------------------------------------------------------------ *)
(** ** The matcher: what a match consumes *)

Lemma ahead_refl q st : ahead q st st.
Proof. now exists []. Qed.

Lemma ahead_trans q st1 st2 st3 :
  ahead q st1 st2 -> ahead q st2 st3 -> ahead q st1 st3.
Proof.
  intros [u [E1 F1]] [v [E2 F2]]. exists (u ++ v). split.
  - now rewrite E1, E2, app_assoc.
  - rewrite forallb_app, F1, F2. reflexivity.
Qed.

Lemma ahead_weaken (q q' : ascii -> bool) st st' :
  (forall c, q c = true -> q' c = true) -> ahead q st st' -> ahead q' st st'.
Proof.
  intros H [u [E F]]. exists u. split; [exact E|].
  rewrite forallb_forall in *. auto.
Qed.

Lemma greedy_star_ahead p pv s g st' :
  In st' (greedy_star p pv s g) ->
  exists u, s = u ++ rest st' /\ forallb p u = true /\ groups st' = g.
Proof.
  revert pv; induction s as [|c s IH]; intros pv H; simpl in H.
  - destruct H as [<-|[]]. now exists [].
  - destruct (p c) eqn:Pc.
    + apply in_app_or in H as [H|[<-|[]]].
      * destruct (IH _ H) as [u [E [F G]]]. exists (c :: u). simpl.
        rewrite Pc, F. repeat split; [now f_equal|exact G].
      * now exists [].
    + destruct H as [<-|[]]. now exists [].
Qed.

Lemma lazy_star_ahead p pv s g st' :
  In st' (lazy_star p pv s g) ->
  exists u, s = u ++ rest st' /\ forallb p u = true /\ groups st' = g.
Proof.
  revert pv; induction s as [|c s IH]; intros pv H; simpl in H.
  - destruct H as [<-|[]]. now exists [].
  - destruct (p c) eqn:Pc.
    + destruct H as [<-|H]; [now exists []|].
      destruct (IH _ H) as [u [E [F G]]]. exists (c :: u). simpl.
      rewrite Pc, F. repeat split; [now f_equal|exact G].
    + destruct H as [<-|[]]. now exists [].
Qed.

Lemma backref_ahead ci g st st' :
  In st' (backref ci g st) ->
  (exists u, rest st = u ++ rest st' /\ List.length u = List.length g)
  /\ groups st' = groups st.
Proof.
  revert st; induction g as [|x g IH]; intros st H; simpl in H.
  - destruct H as [<-|[]]. split; [now exists []|reflexivity].
  - destruct (rest st) as [|c s'] eqn:E; [destruct H|].
    destruct (if ci then _ else _); [|destruct H].
    destruct (IH _ H) as [[u [E1 L1]] G]. simpl in *. split; [|exact G].
    exists (c :: u). simpl. split; [now f_equal|now f_equal].
Qed.

Lemma forallb_true {A} (l : list A) : forallb (fun _ => true) l = true.
Proof. induction l; simpl; auto. Qed.

(** Every end state of [exec] lies ahead of its start state, by
    characters that atoms of the pattern accept. *)
Lemma exec_ahead f r : forall st st',
  In st' (exec f r st) -> ahead (alpha f r) st st'.
Proof.
  induction r as [|a|r1 IH1 r2 IH2|r1 IH1 r2 IH2|a|a|a|r1 IH1|n r1 IH1|n|];
    intros st st' H; simpl in H.
  - destruct H as [<-|[]]. apply ahead_refl.
  - destruct (rest st) as [|c s'] eqn:E; [destruct H|].
    destruct (atom_ok f a c) eqn:A; [|destruct H].
    destruct H as [<-|[]]. exists [c]. simpl. rewrite E, A. now split.
  - apply in_flat_map in H as [mid [H1 H2]].
    apply ahead_trans with mid.
    + eapply ahead_weaken; [|apply (IH1 _ _ H1)].
      intros c Hc; simpl; now rewrite Hc.
    + eapply ahead_weaken; [|apply (IH2 _ _ H2)].
      intros c Hc; simpl; rewrite Hc; apply orb_true_r.
  - apply in_app_or in H as [H|H].
    + eapply ahead_weaken; [|apply (IH1 _ _ H)].
      intros c Hc; simpl; now rewrite Hc.
    + eapply ahead_weaken; [|apply (IH2 _ _ H)].
      intros c Hc; simpl; rewrite Hc; apply orb_true_r.
  - destruct (greedy_star_ahead _ _ _ _ _ H) as [u [E [F _]]]. now exists u.
  - destruct (rest st) as [|c s'] eqn:E; [destruct H|].
    destruct (atom_ok f a c) eqn:A; [|destruct H].
    destruct (greedy_star_ahead _ _ _ _ _ H) as [u [E' [F _]]].
    exists (c :: u). split; [rewrite E; simpl; now f_equal|].
    change (atom_ok f a c && forallb (atom_ok f a) u = true).
    now rewrite A, F.
  - destruct (lazy_star_ahead _ _ _ _ _ H) as [u [E [F _]]]. now exists u.
  - apply in_app_or in H as [H|[<-|[]]].
    + apply (IH1 _ _ H).
    + apply ahead_refl.
  - apply in_map_iff in H as [st0 [<- H]]. simpl.
    destruct (IH1 _ _ H) as [u [E F]]. now exists u.
  - destruct (lookup n (groups st)) as [g|]; [|destruct H].
    destruct (backref_ahead _ _ _ _ H) as [[u [E _]] _].
    exists u. split; [exact E|apply forallb_true].
  - destruct (xorb _ _); [|destruct H].
    destruct H as [<-|[]]. apply ahead_refl.
Qed.

Lemma exec_suffix f r st st' :
  In st' (exec f r st) -> exists u, rest st = u ++ rest st'.
Proof.
  intros H. destruct (exec_ahead f r st st' H) as [u [E _]]. now exists u.
Qed.

Lemma Forall_suffix {A} (P : A -> Prop) (u v : list A) :
  Forall P (u ++ v) -> Forall P v.
Proof. intros H. apply Forall_app in H. tauto. Qed.

Lemma exec_needs f c r : forall st,
  needs c r = true ->
  Forall (fun x => atom_ok f (Lit c) x = false) (rest st) ->
  exec f r st = [].
Proof.
  induction r as [|a|r1 IH1 r2 IH2|r1 IH1 r2 IH2|a|a|a|r1 IH1|n r1 IH1|n|];
    intros st N F; simpl in N; try discriminate.
  - destruct a; try discriminate. apply Ascii.eqb_eq in N; subst c0.
    simpl. destruct (rest st) as [|x s']; [reflexivity|].
    inversion F; subst. simpl in H1. simpl. now rewrite H1.
  - simpl. apply orb_true_iff in N as [N|N].
    + now rewrite (IH1 st N F).
    + assert (E : forall mid, In mid (exec f r1 st) -> exec f r2 mid = []).
      { intros mid Hm. apply IH2; [exact N|].
        destruct (exec_suffix _ _ _ _ Hm) as [u E]. rewrite E in F.
        now apply Forall_suffix in F. }
      induction (exec f r1 st) as [|m l IHl]; [reflexivity|].
      simpl. rewrite (E m (or_introl eq_refl)). simpl.
      apply IHl. intros mid Hm. apply E. now right.
  - simpl. apply andb_true_iff in N as [N1 N2].
    now rewrite (IH1 st N1 F), (IH2 st N2 F).
  - simpl. now rewrite (IH1 st N F).
Qed.

(* ------------------------------------------------------------------ *)
(** ** Match objects and [re.sub] *)

Lemma taken_firstn s t : exists n, n <= List.length s /\ taken s t = firstn n s.
Proof. exists (List.length s - List.length t). split; [lia|reflexivity]. Qed.

Lemma taken_app u t : taken (u ++ t) t = u.
Proof.
  unfold taken. rewrite length_app.
  replace (List.length u + List.length t - List.length t) with (List.length u + 0) by lia.
  rewrite firstn_app_2. simpl. apply app_nil_r.
Qed.

Lemma match_at_split f r pv s m :
  match_at f r pv s = Some m -> s = m_text m ++ m_after m.
Proof.
  unfold match_at. destruct (exec f r _) as [|st l] eqn:E; [discriminate|].
  intros [= <-]. simpl.
  assert (H : In st (exec f r {| prev := pv; rest := s; groups := [] |}))
    by (rewrite E; now left).
  destruct (exec_suffix _ _ _ _ H) as [u Eu]. simpl in Eu.
  rewrite Eu at 1 2. now rewrite taken_app.
Qed.

Lemma match_at_none_needs f c r pv s :
  needs c r = true ->
  Forall (fun x => atom_ok f (Lit c) x = false) s ->
  match_at f r pv s = None.
Proof.
  intros N F. unfold match_at.
  now rewrite (exec_needs f c r {| prev := pv; rest := s; groups := [] |} N F).
Qed.

Lemma match_at_text_firstn f r pv s m :
  match_at f r pv s = Some m -> m_text m = firstn (List.length (m_text m)) s.
Proof.
  intros H. pose proof (match_at_split _ _ _ _ _ H) as E.
  generalize dependent (m_text m). intros t E. subst s.
  rewrite firstn_app, Nat.sub_diag, firstn_all. simpl. now rewrite app_nil_r.
Qed.

(** [re.sub] leaves the text as it is when the replacement of every match
    is the match itself. *)
Lemma sub_scan_fixed f r repl : forall s skip pv,
  Forall (fun m => repl m = Ret (m_text m)) (find_scan f r skip pv s) ->
  sub_scan f r repl skip pv s = Ret (skipn skip s).
Proof.
  induction s as [|c s IH]; intros skip pv H.
  - destruct skip; simpl in *; [|reflexivity].
    destruct (match_at f r pv []) as [m|] eqn:M; [|reflexivity].
    inversion H; subst. rewrite H2. simpl.
    rewrite (match_at_text_firstn _ _ _ _ _ M). now rewrite firstn_nil.
  - destruct skip as [|k]; simpl in *; [|now apply IH].
    destruct (match_at f r pv (c :: s)) as [m|] eqn:M.
    + inversion H; subst. rewrite H2. simpl.
      pose proof (match_at_text_firstn _ _ _ _ _ M) as T.
      destruct (List.length (m_text m)) as [|k] eqn:Len.
      * simpl in H3. rewrite (IH _ _ H3). simpl.
        destruct (m_text m); [reflexivity|discriminate].
      * simpl in H3. rewrite (IH _ _ H3). simpl.
        rewrite T. simpl. now rewrite firstn_skipn.
    + rewrite (IH _ _ H). reflexivity.
Qed.

Lemma re_sub_fixed f r repl s :
  Forall (fun m => repl m = Ret (m_text m)) (re_finditer f r s) ->
  re_sub f r repl s = Ret s.
Proof. intros H. apply (sub_scan_fixed f r repl s 0 None H). Qed.

Lemma find_scan_none_needs f c r : forall s skip pv,
  needs c r = true ->
  Forall (fun x => atom_ok f (Lit c) x = false) s ->
  find_scan f r skip pv s = [].
Proof.
  induction s as [|x s IH]; intros skip pv N F.
  - destruct skip; simpl; [|reflexivity].
    now rewrite (match_at_none_needs f c r pv [] N F).
  - destruct skip; simpl.
    + rewrite (match_at_none_needs f c r pv _ N F).
      apply IH; [exact N|now inversion F].
    + apply IH; [exact N|now inversion F].
Qed.

Lemma re_sub_none_needs f c r repl s :
  needs c r = true ->
  Forall (fun x => atom_ok f (Lit c) x = false) s ->
  re_sub f r repl s = Ret s.
Proof.
  intros N F. apply re_sub_fixed. unfold re_finditer.
  now rewrite (find_scan_none_needs f c r s 0 None N F).
Qed.

(* ------------------------------------------------------------------ *)
(** ** The sanitizer on text it has nothing to do with *)

Lemma lit_lt_ci c : Ascii.eqb (lower_char c) "<" = Ascii.eqb c "<".
Proof. by_char c. Qed.

Lemma lit_eq_ci c : Ascii.eqb (lower_char c) "=" = Ascii.eqb c "=".
Proof. by_char c. Qed.

Lemma markup_free_lt f s :
  forallb markup_free s = true ->
  Forall (fun x => atom_ok f (Lit "<"%char) x = false) s.
Proof.
  intros H. apply Forall_forall. intros x Hx.
  rewrite forallb_forall in H. specialize (H x Hx).
  unfold markup_free in H. apply andb_true_iff in H as [H _].
  apply negb_true_iff in H. simpl. destruct (ignorecase f); [|exact H].
  change (lower_char "<") with "<"%char. now rewrite lit_lt_ci.
Qed.

Lemma markup_free_eq f s :
  forallb markup_free s = true ->
  Forall (fun x => atom_ok f (Lit "="%char) x = false) s.
Proof.
  intros H. apply Forall_forall. intros x Hx.
  rewrite forallb_forall in H. specialize (H x Hx).
  unfold markup_free in H. apply andb_true_iff in H as [_ H].
  apply negb_true_iff in H. simpl. destruct (ignorecase f); [|exact H].
  change (lower_char "=") with "="%char. now rewrite lit_eq_ci.
Qed.

(** A non-empty text without [<] and [=] passes through unchanged. *)
Lemma sanitize_markup_free s :
  s <> [] -> forallb markup_free s = true -> basic_sanitize_ul s = Ret s.
Proof.
  intros Hne H. unfold basic_sanitize_ul.
  destruct s as [|c s]; [congruence|]. cbn [is_empty].
  rewrite (re_sub_none_needs flag_is "<" re_script _ _ eq_refl (markup_free_lt _ _ H)).
  cbn [bind].
  rewrite (re_sub_none_needs flag_is "=" re_handler _ _ eq_refl (markup_free_eq _ _ H)).
  cbn [bind].
  rewrite (re_sub_none_needs flag_i "=" re_href _ _ eq_refl (markup_free_eq _ _ H)).
  cbn [bind].
  rewrite (re_sub_none_needs flag_is "<" re_tag _ _ eq_refl (markup_free_lt _ _ H)).
  cbn [bind].
  rewrite (re_sub_none_needs flag_i "<" re_link _ _ eq_refl (markup_free_lt _ _ H)).
  reflexivity.
Qed.

Lemma plain_markup_free c : plain_char c = true -> markup_free c = true.
Proof. by_char c. Qed.

Lemma space_markup_free c : is_space c = true -> markup_free c = true.
Proof. by_char c. Qed.

Lemma forallb_impl {A} (p q : A -> bool) l :
  (forall x, p x = true -> q x = true) ->
  forallb p l = true -> forallb q l = true.
Proof. intros H. rewrite !forallb_forall. auto. Qed.

(** C10. A non-empty text of ASCII letters, digits and spaces is returned
    as it is, character for character: nothing is escaped and no
    [<ul></ul>] is put around it.  (The text need not hold a character
    other than the space for this.) *)
Theorem sanitize_plain_text_unchanged (s : str) :
  s <> [] -> forallb plain_char s = true -> basic_sanitize_ul s = Ret s.
Proof.
  intros Hne H. apply sanitize_markup_free; [exact Hne|].
  exact (forallb_impl _ _ _ plain_markup_free H).
Qed.

Lemma sanitize_plain_text_unchanged_witness :
  L "Acme raises 40 million" <> []
  /\ forallb plain_char (L "Acme raises 40 million") = true
  /\ basic_sanitize_ul (L "Acme raises 40 million")
     = Ret (L "Acme raises 40 million").
Proof.
  split; [discriminate|]. split; [reflexivity|].
  apply (sanitize_plain_text_unchanged (L "Acme raises 40 million"));
    [discriminate|reflexivity].
Defined.

(** C2, as the claim has it, fails: a text of one space is not empty for
    [not html_fragment], and comes back as it is. *)
Lemma sanitize_blank_counterexample :
  forallb is_space (L " ") = true
  /\ basic_sanitize_ul (L " ") = Ret (L " ")
  /\ basic_sanitize_ul (L " ") <> Ret (L "<ul></ul>").
Proof. by_eval. vm_compute. discriminate. Qed.

(** C2, amended.  The empty text gives [<ul></ul>]; a non-empty text of
    blanks only is returned unchanged. *)
Theorem sanitize_empty_or_blank :
  basic_sanitize_ul [] = Ret (L "<ul></ul>")
  /\ forall s, s <> [] -> forallb is_space s = true ->
               basic_sanitize_ul s = Ret s.
Proof.
  split; [reflexivity|]. intros s Hne H.
  apply sanitize_markup_free; [exact Hne|].
  exact (forallb_impl _ _ _ space_markup_free H).
Qed.

Lemma sanitize_empty_or_blank_witness :
  basic_sanitize_ul (L "  ") = Ret (L "  ").
Proof.
  apply (proj2 sanitize_empty_or_blank (L "  ")); [discriminate|reflexivity].
Defined.

(* ------------------------------------------------------------------ *)
(** ** A second pass *)

Lemma no_match_fixed f r repl x :
  no_match f r x = true -> re_sub f r repl x = Ret x.
Proof.
  unfold no_match. intros H. apply re_sub_fixed.
  destruct (re_finditer f r x); [constructor|discriminate].
Qed.

Lemma keep_allowed m : tag_allowed m = true -> keep_or_strip m = Ret (m_text m).
Proof.
  unfold tag_allowed, keep_or_strip. destruct (m_group m 1); [|discriminate].
  now intros ->.
Qed.

Lemma fix_tag_complete t :
  contains (L "target=") t = true -> contains (L "rel=") t = true ->
  fix_tag t = t.
Proof.
  intros H1 H2. unfold fix_tag. rewrite H1. cbn [negb]. cbv iota zeta.
  now rewrite H2.
Qed.

Lemma fix_link_complete m : has_attrs m = true -> fix_link m = Ret (m_text m).
Proof.
  unfold has_attrs, fix_link. intros H. apply andb_true_iff in H as [H1 H2].
  now rewrite fix_tag_complete.
Qed.

Lemma forallb_Forall {A} (p : A -> bool) (P : A -> Prop) l :
  (forall x, p x = true -> P x) -> forallb p l = true -> Forall P l.
Proof.
  intros H F. apply Forall_forall. intros x Hx.
  rewrite forallb_forall in F. auto.
Qed.

(** A non-empty fragment with nothing to remove, tags of the allowlist
    only and complete anchors is a fixed point. *)
Lemma sanitize_fixed_point x :
  x <> [] -> nothing_to_remove x = true -> allowlist_only x = true ->
  attribute_complete x = true -> basic_sanitize_ul x = Ret x.
Proof.
  intros Hne Hr Ha Hc. unfold nothing_to_remove in Hr.
  apply andb_true_iff in Hr as [Hr H3]. apply andb_true_iff in Hr as [H1 H2].
  unfold basic_sanitize_ul. destruct x as [|c x]; [congruence|]. cbn [is_empty].
  rewrite (no_match_fixed _ _ _ _ H1). cbn [bind].
  rewrite (no_match_fixed _ _ _ _ H2). cbn [bind].
  rewrite (no_match_fixed _ _ _ _ H3). cbn [bind].
  rewrite (re_sub_fixed flag_is re_tag keep_or_strip);
    [|exact (forallb_Forall _ _ _ keep_allowed Ha)]. cbn [bind].
  rewrite (re_sub_fixed flag_i re_link fix_link);
    [|exact (forallb_Forall _ _ _ fix_link_complete Hc)].
  reflexivity.
Qed.

(** C8.  The fragment [x_handler_split] has an [<a>] tag only, with
    [target=] and [rel=].  The first pass removes the handler [onx] and
    leaves what then reads as a handler [onclick]; the second pass
    removes that one: the two results differ. *)
Lemma idempotence_counterexample :
  allowlist_only x_handler_split = true
  /\ attribute_complete x_handler_split = true
  /\ basic_sanitize_ul x_handler_split
     = Ret (L "<a onclick='2' target='_blank' rel='noopener'>x</a>")
  /\ basic_sanitize_ul (L "<a onclick='2' target='_blank' rel='noopener'>x</a>")
     = Ret (L "<a target='_blank' rel='noopener'>x</a>")
  /\ (x <- basic_sanitize_ul x_handler_split ;; basic_sanitize_ul x)
     <> basic_sanitize_ul x_handler_split.
Proof. by_eval. vm_compute. discriminate. Qed.

(* ------------------------------------------------------------------ *)
(** ** The link pattern, read directly *)

Lemma lit_gt_ci c : Ascii.eqb (lower_char c) ">" = Ascii.eqb c ">".
Proof. by_char c. Qed.

Lemma lower_a_word c : Ascii.eqb (lower_char c) "a" = true -> is_word c = true.
Proof. by_char c. Qed.

Lemma flat_map_app' {A B} (f : A -> list B) l1 l2 :
  flat_map f (l1 ++ l2) = flat_map f l1 ++ flat_map f l2.
Proof. induction l1; simpl; [reflexivity|]. now rewrite IHl1, app_assoc. Qed.

Lemma exec_cat f r1 r2 st :
  exec f (Cat r1 r2) st = flat_map (exec f r2) (exec f r1 st).
Proof. reflexivity. Qed.

Lemma exec_gt pv c s g :
  exec flag_i (Cat (lit ">") Eps) {| prev := pv; rest := c :: s; groups := g |}
  = if Ascii.eqb c ">"
    then [{| prev := Some ">"%char; rest := s; groups := g |}] else [].
Proof.
  cbn. rewrite lit_gt_ci. destruct (Ascii.eqb c ">") eqn:C; [|reflexivity].
  apply Ascii.eqb_eq in C. now subst c.
Qed.

Lemma link_tail (n : nat) : forall s pre base pv g,
  base = pre ++ s ->
  flat_map (exec flag_i (Cat (lit ">") Eps))
    (map (fun st' => {| prev := prev st'; rest := rest st';
                        groups := (n, taken base (rest st')) :: groups st' |})
         (greedy_star (atom_ok flag_i not_gt) pv s g))
  = match split_gt s with
    | Some (b, a) =>
        [{| prev := Some ">"%char; rest := a; groups := (n, pre ++ b) :: g |}]
    | None => []
    end.
Proof.
  induction s as [|c s IH]; intros pre base pv g E.
  - reflexivity.
  - cbn [greedy_star split_gt].
    assert (X : atom_ok flag_i not_gt c = negb (Ascii.eqb c ">"))
      by (cbn; rewrite orb_false_r; reflexivity).
    rewrite X.
    destruct (Ascii.eqb c ">") eqn:C; cbn [negb].
    + cbn [map flat_map prev rest groups]. rewrite exec_gt, C.
      subst base. rewrite taken_app. now rewrite !app_nil_r.
    + rewrite map_app, flat_map_app'.
      rewrite (IH (pre ++ [c]) base (Some c) g)
        by (subst base; now rewrite <- app_assoc).
      cbn [map flat_map prev rest groups]. rewrite exec_gt, C.
      rewrite !app_nil_r.
      destruct (split_gt s) as [[b a]|]; [|reflexivity].
      now rewrite <- app_assoc.
Qed.

Lemma link_tail_exec n pv s g :
  exec flag_i (Cat (Group n (Star not_gt)) (Cat (lit ">") Eps))
       {| prev := pv; rest := s; groups := g |}
  = match split_gt s with
    | Some (b, a) =>
        [{| prev := Some ">"%char; rest := a; groups := (n, b) :: g |}]
    | None => []
    end.
Proof.
  rewrite exec_cat. cbn [exec prev rest groups].
  exact (link_tail n s [] s pv g eq_refl).
Qed.

Lemma taken_cons c s t :
  List.length t <= List.length s -> taken (c :: s) t = c :: taken s t.
Proof.
  intros H. unfold taken. simpl List.length.
  replace (S (List.length s) - List.length t) with (S (List.length s - List.length t)) by lia.
  reflexivity.
Qed.

Lemma split_gt_spec s b a : split_gt s = Some (b, a) ->
  s = b ++ ">"%char :: a /\ forallb (fun c => negb (Ascii.eqb c ">")) b = true.
Proof.
  revert b a; induction s as [|c s IH]; intros b a H; [discriminate|].
  simpl in H. destruct (Ascii.eqb c ">") eqn:C.
  - injection H as <- <-. apply Ascii.eqb_eq in C. subst c. now split.
  - destruct (split_gt s) as [[b' a']|]; [|discriminate].
    injection H as <- <-. destruct (IH _ _ eq_refl) as [E F]. split.
    + simpl. now f_equal.
    + simpl. now rewrite C, F.
Qed.

(** The head of the link pattern: [<a] and the word boundary. *)
Lemma link_head_exec (T : regex) pv s :
  exec flag_i
       (Cat (Cat (One (Lit "<"%char)) (Cat (One (Lit "a"%char)) Eps))
            (Cat WordB T))
       {| prev := pv; rest := s; groups := [] |}
  = match s with
    | c1 :: c2 :: s2 =>
        if Ascii.eqb c1 "<" && Ascii.eqb (lower_char c2) "a"
           && negb (opt_word (hd_error s2))
        then exec flag_i T {| prev := Some c2; rest := s2; groups := [] |}
        else []
    | _ => []
    end.
Proof.
  destruct s as [|c1 [|c2 s2]]; [reflexivity| |].
  - cbn. destruct (Ascii.eqb (lower_char c1) _); reflexivity.
  - cbn. rewrite lit_lt_ci.
    destruct (Ascii.eqb c1 "<") eqn:C1; [|reflexivity]. cbn.
    destruct (Ascii.eqb (lower_char c2) "a") eqn:C2; [|reflexivity]. cbn.
    rewrite (lower_a_word _ C2).
    destruct (opt_word (hd_error s2)) eqn:W; cbn; [reflexivity|].
    now rewrite !app_nil_r.
Qed.

(** The matcher on the link pattern and the direct reading agree. *)
Lemma link_match_eq pv s : match_at flag_i re_link pv s = link_match s.
Proof.
  unfold match_at, link_match.
  change re_link with
    (Cat (Cat (One (Lit "<"%char)) (Cat (One (Lit "a"%char)) Eps))
         (Cat WordB (Cat (Group 1 (Star not_gt)) (Cat (lit ">") Eps)))).
  rewrite link_head_exec.
  destruct s as [|c1 [|c2 s2]]; [reflexivity..|].
  destruct (_ && _ && _) eqn:C; [|reflexivity].
  rewrite link_tail_exec.
  destruct (split_gt s2) as [[b a]|] eqn:S; [|reflexivity].
  cbn [rest groups prev]. f_equal.
  destruct (split_gt_spec _ _ _ S) as [E _].
  f_equal. subst s2.
  rewrite !taken_cons by (cbn [List.length]; rewrite length_app; simpl; lia).
  do 2 f_equal.
  change (b ++ ">"%char :: a) with (b ++ [">"%char] ++ a).
  rewrite app_assoc. apply taken_app.
Qed.

(* ------------------------------------------------------------------ *)
(** ** Substrings across a separator *)

Lemma startswith_sep p a c b :
  p <> [] -> not_in c p = true ->
  startswith p (a ++ c :: b) = startswith p a.
Proof.
  revert a; induction p as [|x p IH]; intros a Hne Hc; [congruence|].
  simpl in Hc. apply andb_true_iff in Hc as [Hx Hc].
  destruct a as [|y a]; simpl.
  - apply negb_true_iff in Hx. now rewrite Hx.
  - destruct (Ascii.eqb x y); [|reflexivity]. simpl.
    destruct p as [|x' p]; [reflexivity|].
    apply IH; [discriminate|exact Hc].
Qed.

Lemma startswith_sep_head p c b :
  p <> [] -> not_in c p = true -> startswith p (c :: b) = false.
Proof.
  intros Hne Hc. change (c :: b) with ([] ++ c :: b).
  rewrite (startswith_sep p [] c b Hne Hc). destruct p; [congruence|reflexivity].
Qed.

Lemma contains_sep p a c b :
  p <> [] -> not_in c p = true ->
  contains p (a ++ c :: b) = contains p a || contains p b.
Proof.
  intros Hne Hc. induction a as [|y a IH].
  - simpl app. rewrite contains_cons, (startswith_sep_head p c b Hne Hc).
    destruct p; [congruence|reflexivity].
  - simpl app. rewrite !contains_cons, IH.
    change (y :: a ++ c :: b) with ((y :: a) ++ c :: b).
    rewrite (startswith_sep p (y :: a) c b Hne Hc). now rewrite orb_assoc.
Qed.

Lemma occurrences_sep p a c b :
  p <> [] -> not_in c p = true ->
  occurrences p (a ++ c :: b) = occurrences p a + occurrences p b.
Proof.
  intros Hne Hc. induction a as [|y a IH].
  - simpl app. rewrite occurrences_cons, (startswith_sep_head p c b Hne Hc).
    destruct p; [congruence|reflexivity].
  - simpl app. rewrite !occurrences_cons, IH.
    change (y :: a ++ c :: b) with ((y :: a) ++ c :: b).
    rewrite (startswith_sep p (y :: a) c b Hne Hc). lia.
Qed.

(* ------------------------------------------------------------------ *)
(** ** [fix_link] on a tag *)

Lemma contains_close p u :
  p <> [] -> not_in ">" p = true -> contains p (u ++ L ">") = contains p u.
Proof.
  intros Hne Hc. change (L ">") with (">"%char :: []).
  rewrite (contains_sep p u ">" [] Hne Hc).
  destruct p; [congruence|]. simpl. apply orb_false_r.
Qed.

(** The two tests of [fix_link] see the same tag: the attribute that the
    first one appends holds no [rel=]. *)
Lemma fix_tag_closed u :
  fix_tag (u ++ L ">")
  = u ++ extra_target (u ++ L ">") ++ extra_rel (u ++ L ">") ++ L ">".
Proof.
  assert (E : contains (L "rel=") (u ++ target_attr ++ L ">")
              = contains (L "rel=") (u ++ L ">")).
  { rewrite (contains_close (L "rel=") u) by (discriminate || reflexivity).
    change (target_attr ++ L ">")
      with (" "%char :: L "target=" ++ dquote :: L "_blank" ++ dquote :: L ">").
    rewrite (contains_sep (L "rel=") u " ") by (discriminate || reflexivity).
    apply orb_false_r. }
  unfold fix_tag, extra_target, extra_rel.
  change (L ">") with [">"%char] in *.
  destruct (contains (L "target=") (u ++ [">"%char])) eqn:T; cbn [negb].
  - destruct (contains (L "rel=") (u ++ [">"%char])); cbn [negb].
    + reflexivity.
    + now rewrite removelast_last.
  - rewrite removelast_last, E.
    destruct (contains (L "rel=") (u ++ [">"%char])); cbn [negb].
    + reflexivity.
    + rewrite (app_assoc u), removelast_last. now rewrite <- app_assoc.
Qed.

Lemma fix_tag_has_target u :
  contains (L "target=") (fix_tag (u ++ L ">")) = true.
Proof.
  rewrite fix_tag_closed. unfold extra_target.
  destruct (contains (L "target=") (u ++ L ">")) eqn:T.
  - rewrite contains_close in T by (discriminate || reflexivity).
    now apply contains_app_l.
  - apply contains_app_r. apply contains_app_l. reflexivity.
Qed.

Lemma fix_tag_has_rel u :
  contains (L "rel=") (fix_tag (u ++ L ">")) = true.
Proof.
  rewrite fix_tag_closed. unfold extra_rel.
  destruct (contains (L "rel=") (u ++ L ">")) eqn:T.
  - rewrite contains_close in T by (discriminate || reflexivity).
    now apply contains_app_l.
  - apply contains_app_r. apply contains_app_r. apply contains_app_l.
    reflexivity.
Qed.

(** A tag that had neither attribute has each exactly once afterwards. *)
Lemma fix_tag_once u p :
  In p [L "target="; L "rel="; blank_attr; noopener_attr] ->
  contains (L "target=") (u ++ L ">") = false ->
  contains (L "rel=") (u ++ L ">") = false ->
  occurrences p (fix_tag (u ++ L ">")) = 1.
Proof.
  intros Hp T R. rewrite fix_tag_closed. unfold extra_target, extra_rel.
  rewrite T, R.
  rewrite contains_close in T, R by (discriminate || reflexivity).
  assert (Z : occurrences p u = 0).
  { destruct Hp as [<-|[<-|[<-|[<-|[]]]]].
    - now apply occurrences_zero.
    - now apply occurrences_zero.
    - apply occurrences_zero.
      destruct (contains blank_attr u) eqn:C; [|reflexivity].
      rewrite <- T. symmetry.
      clear - C. induction u as [|c u IH]; [discriminate|].
      rewrite contains_cons in *. apply orb_true_iff in C as [C|C].
      + destruct (startswith_split _ _ C) as [w ->]. reflexivity.
      + rewrite (IH C). apply orb_true_r.
    - apply occurrences_zero.
      destruct (contains noopener_attr u) eqn:C; [|reflexivity].
      rewrite <- R. symmetry.
      clear - C. induction u as [|c u IH]; [discriminate|].
      rewrite contains_cons in *. apply orb_true_iff in C as [C|C].
      + destruct (startswith_split _ _ C) as [w ->]. reflexivity.
      + rewrite (IH C). apply orb_true_r. }
  change (target_attr ++ rel_attr ++ L ">")
    with (" "%char :: L "target=" ++ dquote :: L "_blank" ++ dquote :: rel_attr ++ L ">").
  destruct Hp as [<-|[<-|[<-|[<-|[]]]]];
    rewrite occurrences_sep by (discriminate || reflexivity);
    rewrite Z; reflexivity.
Qed.

(* ------------------------------------------------------------------ *)
(** ** The link pass, read directly *)

Lemma link_match_text s m :
  link_match s = Some m ->
  exists c2 b, m_text m = "<"%char :: c2 :: b ++ L ">"
               /\ s = m_text m ++ m_after m
               /\ forallb (fun c => negb (Ascii.eqb c ">")) b = true
               /\ Ascii.eqb (lower_char c2) "a" = true
               /\ opt_word (hd_error (b ++ ">"%char :: m_after m)) = false.
Proof.
  unfold link_match. destruct s as [|c1 [|c2 s2]]; try discriminate.
  destruct (_ && _ && _) eqn:C; [|discriminate].
  destruct (split_gt s2) as [[b a]|] eqn:S; [|discriminate].
  intros [= <-]. cbn [m_text m_after].
  apply andb_true_iff in C as [C C3]. apply andb_true_iff in C as [C1 C2].
  apply Ascii.eqb_eq in C1. subst c1.
  destruct (split_gt_spec _ _ _ S) as [E F]. subst s2.
  exists c2, b. repeat split; try assumption.
  - simpl. now rewrite <- app_assoc.
  - now apply negb_true_iff in C3.
Qed.

Lemma sub_scan_link : forall s skip pv,
  sub_scan flag_i re_link fix_link skip pv s = Ret (link_pass skip s).
Proof.
  induction s as [|c s IH]; intros skip pv.
  - destruct skip; [|reflexivity]. cbn [sub_scan link_pass].
    rewrite link_match_eq. destruct (link_match []); reflexivity.
  - destruct skip as [|k]; cbn [sub_scan link_pass]; [|apply IH].
    rewrite link_match_eq. destruct (link_match (c :: s)) as [m|] eqn:M.
    + cbn [fix_link bind].
      destruct (link_match_text _ _ M) as [c2 [b [T _]]].
      rewrite T. cbn [List.length]. now rewrite IH.
    + now rewrite IH.
Qed.

Lemma find_scan_link : forall s skip pv,
  find_scan flag_i re_link skip pv s = link_find skip s.
Proof.
  induction s as [|c s IH]; intros skip pv.
  - destruct skip; [|reflexivity]. cbn [find_scan link_find].
    now rewrite link_match_eq.
  - destruct skip as [|k]; cbn [find_scan link_find]; [|apply IH].
    rewrite link_match_eq. destruct (link_match (c :: s)); now rewrite IH.
Qed.

Lemma link_pass_skip u : forall s,
  link_pass (List.length u) (u ++ s) = link_pass 0 s.
Proof.
  induction u as [|c u IH]; intros s; [reflexivity|]. simpl. apply IH.
Qed.

Lemma link_find_skip u : forall s,
  link_find (List.length u) (u ++ s) = link_find 0 s.
Proof.
  induction u as [|c u IH]; intros s; [reflexivity|]. simpl. apply IH.
Qed.

(** Where the pattern matches, the pass puts the fixed tag and goes on
    after the match. *)
Lemma link_pass_match s m :
  link_match s = Some m ->
  link_pass 0 s = fix_tag (m_text m) ++ link_pass 0 (m_after m).
Proof.
  intros M. destruct (link_match_text _ _ M) as [c2 [b [T [E _]]]].
  destruct s as [|c s]; [rewrite T in E; discriminate|].
  cbn [link_pass]. rewrite M. rewrite T in *.
  change (List.length ("<"%char :: c2 :: b ++ L ">"))
    with (S (List.length (c2 :: b ++ L ">"))).
  cbv iota. f_equal. injection E as -> ->.
  change (c2 :: (b ++ L ">") ++ m_after m)
    with ((c2 :: b ++ L ">") ++ m_after m).
  apply link_pass_skip.
Qed.

Lemma link_find_match s m :
  link_match s = Some m ->
  link_find 0 s = m :: link_find 0 (m_after m).
Proof.
  intros M. destruct (link_match_text _ _ M) as [c2 [b [T [E _]]]].
  destruct s as [|c s]; [rewrite T in E; discriminate|].
  cbn [link_find]. rewrite M. f_equal. rewrite T in *.
  change (pred (List.length ("<"%char :: c2 :: b ++ L ">")))
    with (List.length (c2 :: b ++ L ">")).
  injection E as -> ->.
  change (c2 :: (b ++ L ">") ++ m_after m)
    with ((c2 :: b ++ L ">") ++ m_after m).
  apply link_find_skip.
Qed.

Lemma link_pass_nomatch c s :
  link_match (c :: s) = None -> link_pass 0 (c :: s) = c :: link_pass 0 s.
Proof. intros M. cbn [link_pass]. now rewrite M. Qed.

Lemma link_find_nomatch c s :
  link_match (c :: s) = None -> link_find 0 (c :: s) = link_find 0 s.
Proof. intros M. cbn [link_find]. now rewrite M. Qed.

(* ------------------------------------------------------------------ *)
(** ** The anchors of the output *)

Lemma split_gt_has_gt s : is_some (split_gt s) = has_gt s.
Proof.
  induction s as [|c s IH]; [reflexivity|]. simpl.
  destruct (Ascii.eqb c ">"); [reflexivity|]. simpl. rewrite <- IH.
  now destruct (split_gt s) as [[b a]|].
Qed.

Lemma split_gt_app b a :
  forallb (fun c => negb (Ascii.eqb c ">")) b = true ->
  split_gt (b ++ ">"%char :: a) = Some (b, a).
Proof.
  induction b as [|c b IH]; intros F; [reflexivity|].
  simpl in *. apply andb_true_iff in F as [C F].
  apply negb_true_iff in C. now rewrite C, (IH F).
Qed.

Lemma link_match_intro c2 b a :
  Ascii.eqb (lower_char c2) "a" = true ->
  forallb (fun c => negb (Ascii.eqb c ">")) b = true ->
  opt_word (hd_error (b ++ ">"%char :: a)) = false ->
  link_match ("<"%char :: c2 :: b ++ ">"%char :: a)
  = Some {| m_text := "<"%char :: c2 :: b ++ [">"%char]; m_groups := [(1, b)];
            m_last := Some ">"%char; m_after := a |}.
Proof.
  intros C2 F W. unfold link_match.
  rewrite C2, W, (split_gt_app _ _ F). reflexivity.
Qed.

(** Whether the pattern matches at a [<] depends on the two characters
    after it and on a [>] being there at all. *)
Lemma link_match_some c c2 s :
  is_some (link_match (c :: c2 :: s))
  = Ascii.eqb c "<" && Ascii.eqb (lower_char c2) "a"
    && negb (opt_word (hd_error s)) && has_gt s.
Proof.
  unfold link_match. rewrite <- split_gt_has_gt.
  destruct (_ && _ && _); [|reflexivity].
  now destruct (split_gt s) as [[b a]|].
Qed.

Lemma extras_shape t :
  let e := extra_target t ++ extra_rel t in
  forallb (fun c => negb (Ascii.eqb c ">")) e = true
  /\ forall a, opt_word (hd_error (e ++ ">"%char :: a)) = false.
Proof.
  unfold extra_target, extra_rel.
  destruct (contains (L "target=") t), (contains (L "rel=") t);
    split; try reflexivity; intros a; reflexivity.
Qed.

Lemma is_some_none {A} (o : option A) : is_some o = false -> o = None.
Proof. destruct o; [discriminate|reflexivity]. Qed.

Lemma pass_inv_all : forall n s, List.length s <= n -> pass_inv s.
Proof.
  induction n as [|n IH]; intros s Hn.
  - destruct s; [|simpl in Hn; lia]. unfold pass_inv. conj; try reflexivity.
    constructor.
  - destruct s as [|c s];
      [unfold pass_inv; conj; try reflexivity; constructor|].
    simpl in Hn. assert (Hs : List.length s <= n) by lia.
    destruct (link_match (c :: s)) as [m|] eqn:M.
    + (* a tag starts here *)
      destruct (link_match_text _ _ M) as [c2 [b [T [E [F [C2 W]]]]]].
      assert (Ha : pass_inv (m_after m)).
      { apply IH. apply (f_equal (@List.length ascii)) in E.
        rewrite length_app, T in E. simpl in E. lia. }
      destruct Ha as [_ [_ [Ha Hb]]].
      unfold pass_inv. rewrite (link_pass_match _ _ M).
      rewrite (link_find_match _ _ M).
      change ("<"%char :: c2 :: b ++ L ">") with (("<"%char :: c2 :: b) ++ L ">") in T.
      rewrite T, fix_tag_closed.
      set (t := ("<"%char :: c2 :: b) ++ L ">") in *.
      destruct (extras_shape t) as [Fe We].
      set (e := extra_target t ++ extra_rel t) in *.
      assert (O : ("<"%char :: c2 :: b) ++ extra_target t ++ extra_rel t ++ L ">"
                  = "<"%char :: c2 :: (b ++ e) ++ [">"%char]).
      { unfold e. simpl. now rewrite <- !app_assoc. }
      rewrite O.
      assert (M' : link_match (("<"%char :: c2 :: (b ++ e) ++ [">"%char])
                               ++ link_pass 0 (m_after m))
                   = Some {| m_text := "<"%char :: c2 :: (b ++ e) ++ [">"%char];
                             m_groups := [(1, b ++ e)];
                             m_last := Some ">"%char;
                             m_after := link_pass 0 (m_after m) |}).
      { simpl. rewrite <- app_assoc.
        apply (link_match_intro c2 (b ++ e) (link_pass 0 (m_after m)) C2).
        - now rewrite forallb_app, F, Fe.
        - destruct b as [|x b]; [apply We|exact W]. }
      conj.
      * rewrite E, T. reflexivity.
      * transitivity true.
        { unfold has_gt. rewrite existsb_app. simpl.
          rewrite existsb_app. simpl. now rewrite !orb_true_r. }
        symmetry. rewrite E, T. unfold has_gt, t. rewrite !existsb_app.
        simpl. now rewrite !orb_true_r.
      * rewrite (link_find_match _ _ M'). cbn [m_after]. constructor; [|exact Ha].
        unfold complete, has_attrs. cbn [m_text]. rewrite <- O.
        rewrite <- fix_tag_closed.
        now rewrite fix_tag_has_target, fix_tag_has_rel.
      * rewrite (link_find_match _ _ M'). cbn [m_after map m_text].
        rewrite Hb. f_equal. rewrite <- O, <- fix_tag_closed. now rewrite T.
    + (* a character is copied *)
      destruct (IH s Hs) as [Hh [Hg [Hf Hm]]].
      unfold pass_inv. rewrite (link_pass_nomatch _ _ M).
      rewrite (link_find_nomatch _ _ M).
      assert (N : link_match (c :: link_pass 0 s) = None).
        { destruct s as [|c2 s2].
          - reflexivity.
          - destruct (link_pass 0 (c2 :: s2)) as [|o o'] eqn:Eo;
              [discriminate|].
            injection Hh as ->.
            apply is_some_none. rewrite link_match_some.
            pose proof (f_equal is_some M) as M1. rewrite link_match_some in M1.
            cbn [is_some] in M1.
            destruct (Ascii.eqb c "<"); [|reflexivity].
            destruct (Ascii.eqb (lower_char c2) "a") eqn:C2; [|reflexivity].
            cbn [andb] in *.
            destruct (link_match (c2 :: s2)) as [m2|] eqn:M2.
            + destruct (link_match_text _ _ M2) as [c3 [b [T [E _]]]].
              rewrite T in E. injection E as -> _. discriminate.
            + rewrite (link_pass_nomatch _ _ M2) in Eo. injection Eo as <-.
              simpl in Hs.
              destruct (IH s2 ltac:(lia)) as [Hh2 [Hg2 _]].
              now rewrite Hh2, Hg2. }
      rewrite (link_find_nomatch _ _ N). conj.
      * reflexivity.
      * simpl. now rewrite Hg.
      * exact Hf.
      * exact Hm.
Qed.

(** After the link pass every [<a>] tag holds [target=] and [rel=]. *)
Lemma link_pass_complete s :
  Forall complete (link_find 0 (link_pass 0 s)).
Proof. apply (pass_inv_all (List.length s) s (le_n _)). Qed.

(** The [<a>] tags after the link pass are those before it, each one
    fixed, in the same order. *)
Lemma link_pass_tags s :
  map m_text (link_find 0 (link_pass 0 s))
  = map (fun m => fix_tag (m_text m)) (link_find 0 s).
Proof. apply (pass_inv_all (List.length s) s (le_n _)). Qed.

(* ------------------------------------------------------------------ *)
(** ** Groups *)

Lemma exec_other_groups f n r : forall st st',
  no_group n r = true -> In st' (exec f r st) ->
  lookup n (groups st') = lookup n (groups st).
Proof.
  induction r as [|a|r1 IH1 r2 IH2|r1 IH1 r2 IH2|a|a|a|r1 IH1|k r1 IH1|k|];
    intros st st' N H; simpl in N, H.
  - destruct H as [<-|[]]. reflexivity.
  - destruct (rest st) as [|c s']; [destruct H|].
    destruct (atom_ok f a c); [|destruct H]. now destruct H as [<-|[]].
  - apply andb_true_iff in N as [N1 N2].
    apply in_flat_map in H as [mid [H1 H2]].
    now rewrite (IH2 _ _ N2 H2), (IH1 _ _ N1 H1).
  - apply andb_true_iff in N as [N1 N2].
    apply in_app_or in H as [H|H]; [now apply IH1|now apply IH2].
  - destruct (greedy_star_ahead _ _ _ _ _ H) as [u [_ [_ G]]]. now rewrite G.
  - destruct (rest st) as [|c s']; [destruct H|].
    destruct (atom_ok f a c); [|destruct H].
    destruct (greedy_star_ahead _ _ _ _ _ H) as [u [_ [_ G]]]. now rewrite G.
  - destruct (lazy_star_ahead _ _ _ _ _ H) as [u [_ [_ G]]]. now rewrite G.
  - apply in_app_or in H as [H|[<-|[]]]; [now apply IH1|reflexivity].
  - apply andb_true_iff in N as [N1 N2]. apply negb_true_iff in N1.
    apply in_map_iff in H as [st0 [<- H]]. cbn [groups lookup].
    rewrite N1. now apply IH1.
  - destruct (lookup k (groups st)) as [g|]; [|destruct H].
    destruct (backref_ahead _ _ _ _ H) as [_ G]. now rewrite G.
  - destruct (xorb _ _); [|destruct H]. now destruct H as [<-|[]].
Qed.

(** A group that has matched holds the text it matched. *)
Lemma exec_group_binds f n r st st' :
  In st' (exec f (Group n r) st) ->
  exists u, lookup n (groups st') = Some u
            /\ rest st = u ++ rest st' /\ forallb (alpha f r) u = true.
Proof.
  simpl. intros H. apply in_map_iff in H as [st0 [<- H]].
  destruct (exec_ahead _ _ _ _ H) as [u [E F]].
  exists u. cbn [groups rest lookup]. rewrite Nat.eqb_refl, E, taken_app.
  repeat split; assumption.
Qed.

Lemma exec_cat_inv f r1 r2 st st' :
  In st' (exec f (Cat r1 r2) st) ->
  exists mid, In mid (exec f r1 st) /\ In st' (exec f r2 mid).
Proof. simpl. intros H. now apply in_flat_map in H. Qed.

Lemma exec_plus_nonempty f a st st' :
  In st' (exec f (Plus a) st) -> rest st' <> rest st.
Proof.
  simpl. destruct (rest st) as [|c s']; [intros []|].
  destruct (atom_ok f a c); [|intros []]. intros H.
  destruct (greedy_star_ahead _ _ _ _ _ H) as [u [E _]].
  intros E'. rewrite E' in E. apply (f_equal (@List.length ascii)) in E.
  rewrite length_app in E. simpl in E. lia.
Qed.

Lemma exec_consumes f r : forall st st',
  consumes r = true -> In st' (exec f r st) ->
  exists c u, rest st = c :: u ++ rest st'.
Proof.
  induction r as [|a|r1 IH1 r2 IH2|r1 IH1 r2 IH2|a|a|a|r1 IH1|k r1 IH1|k|];
    intros st st' C H; simpl in C; try discriminate.
  - cbn [exec] in H. destruct (rest st) as [|c s']; [destruct H|].
    destruct (atom_ok f a c); [|destruct H]. destruct H as [<-|[]].
    now exists c, [].
  - apply exec_cat_inv in H as [mid [H1 H2]].
    apply orb_true_iff in C as [C|C].
    + destruct (IH1 _ _ C H1) as [c [u E]].
      destruct (exec_suffix _ _ _ _ H2) as [v E2].
      exists c, (u ++ v). now rewrite E, E2, app_assoc.
    + destruct (IH2 _ _ C H2) as [c [u E]].
      destruct (exec_suffix _ _ _ _ H1) as [v E1].
      rewrite E1, E. destruct v as [|c' v].
      * now exists c, u.
      * exists c', (v ++ c :: u). simpl. now rewrite <- app_assoc.
  - apply andb_true_iff in C as [C1 C2]. cbn [exec] in H.
    apply in_app_or in H as [H|H]; [now apply IH1|now apply IH2].
  - cbn [exec] in H. destruct (rest st) as [|c s']; [destruct H|].
    destruct (atom_ok f a c); [|destruct H].
    destruct (greedy_star_ahead _ _ _ _ _ H) as [u [E _]].
    exists c, u. now rewrite E.
  - cbn [exec] in H. apply in_map_iff in H as [st0 [<- H]].
    exact (IH1 _ _ C H).
Qed.

(* ------------------------------------------------------------------ *)
(** ** [re.sub] returns *)

Lemma sub_scan_total f r repl :
  (forall pv s m, match_at f r pv s = Some m -> exists x, repl m = Ret x) ->
  forall s skip pv, exists out, sub_scan f r repl skip pv s = Ret out.
Proof.
  intros Hr. induction s as [|c s IH]; intros skip pv.
  - destruct skip; simpl; [|now eexists].
    destruct (match_at f r pv []) as [m|] eqn:M; [|now eexists].
    destruct (Hr _ _ _ M) as [x ->]. now eexists.
  - destruct skip as [|k]; simpl; [|apply IH].
    destruct (match_at f r pv (c :: s)) as [m|] eqn:M.
    + destruct (Hr _ _ _ M) as [x ->]. simpl.
      destruct (List.length (m_text m)) as [|k].
      * destruct (IH 0 (Some c)) as [y ->]. now eexists.
      * destruct (IH k (Some c)) as [y ->]. now eexists.
    + destruct (IH 0 (Some c)) as [y ->]. now eexists.
Qed.

Lemma re_sub_total f r repl s :
  (forall pv s m, match_at f r pv s = Some m -> exists x, repl m = Ret x) ->
  exists out, re_sub f r repl s = Ret out.
Proof. intros H. apply (sub_scan_total f r repl H). Qed.

Lemma match_at_head f r pv s m :
  match_at f r pv s = Some m ->
  exists st, In st (exec f r {| prev := pv; rest := s; groups := [] |})
             /\ m_groups m = groups st /\ m_after m = rest st.
Proof.
  unfold match_at. destruct (exec f r _) as [|st l] eqn:E; [discriminate|].
  intros [= <-]. exists st. repeat split. now left.
Qed.

(** No pattern of the sanitizer matches the empty string, so that
    [re.sub] always moves on by the length of the match. *)
Lemma sub_patterns_consume f r pv s m :
  In r [re_script; re_handler; re_href; re_tag; re_link] ->
  match_at f r pv s = Some m -> m_text m <> [].
Proof.
  intros Hr M.
  assert (C : consumes r = true)
    by (destruct Hr as [<-|[<-|[<-|[<-|[<-|[]]]]]]; reflexivity).
  pose proof (match_at_split _ _ _ _ _ M) as E.
  destruct (match_at_head _ _ _ _ _ M) as [st [H [_ A]]].
  destruct (exec_consumes _ _ _ _ C H) as [c [u E']]. cbn [rest] in E'.
  intros T. rewrite T, A in E. simpl in E. rewrite E in E'.
  apply (f_equal (@List.length ascii)) in E'.
  simpl in E'. rewrite length_app in E'. lia.
Qed.

(** In a match of the tag pattern the group of the name has matched, so
    that [m.group(1).lower()] is defined. *)
Lemma tag_group_bound pv s m :
  match_at flag_is re_tag pv s = Some m -> exists g, m_group m 1 = Some g.
Proof.
  intros M. destruct (match_at_head _ _ _ _ _ M) as [st [H [G _]]].
  unfold m_group. rewrite G. clear M G.
  change re_tag with
    (Cat (lit "<") (Cat (Opt (lit "/"))
       (Cat (Group 1 (Plus (Set_ [IRange "a" "z"; IRange "0" "9"])))
            (seq_re [Opt (Cat (One Space) (Star not_gt)); lit ">"])))) in H.
  apply exec_cat_inv in H as [st1 [_ H]].
  apply exec_cat_inv in H as [st2 [_ H]].
  apply exec_cat_inv in H as [st3 [H3 H]].
  destruct (exec_group_binds _ _ _ _ _ H3) as [u [B _]].
  exists u. rewrite <- B.
  apply (exec_other_groups flag_is 1
           (seq_re [Opt (Cat (One Space) (Star not_gt)); lit ">"]) st3 st);
    [reflexivity|exact H].
Qed.

Lemma keep_or_strip_total pv s m :
  match_at flag_is re_tag pv s = Some m -> exists x, keep_or_strip m = Ret x.
Proof.
  intros M. destruct (tag_group_bound _ _ _ M) as [g G].
  unfold keep_or_strip. rewrite G. now eexists.
Qed.

Lemma allowlist_step_total x : exists y, allowlist_step x = Ret y.
Proof.
  unfold allowlist_step.
  destruct (re_sub_total flag_is re_script (fun _ => Ret []) x) as [s1 ->];
    [intros; now eexists|]. cbn [bind].
  destruct (re_sub_total flag_is re_handler (fun _ => Ret []) s1) as [s2 ->];
    [intros; now eexists|]. cbn [bind].
  destruct (re_sub_total flag_i re_href (fun _ => Ret href_hash) s2) as [s3 ->];
    [intros; now eexists|]. cbn [bind].
  apply re_sub_total. apply keep_or_strip_total.
Qed.

Lemma sanitize_steps x :
  x <> [] ->
  basic_sanitize_ul x
  = (y <- allowlist_step x ;; re_sub flag_i re_link fix_link y).
Proof.
  intros Hne. destruct x as [|c x]; [congruence|].
  unfold basic_sanitize_ul, allowlist_step. cbn [is_empty].
  destruct (re_sub flag_is re_script _ _) as [s1|]; [|reflexivity]. cbn [bind].
  destruct (re_sub flag_is re_handler _ _) as [s2|]; [|reflexivity]. cbn [bind].
  destruct (re_sub flag_i re_href _ _) as [s3|]; [|reflexivity]. cbn [bind].
  destruct (re_sub flag_is re_tag _ _) as [s4|]; [|reflexivity]. cbn [bind].
  now destruct (re_sub flag_i re_link fix_link s4).
Qed.

Lemma sanitize_total x : exists out, basic_sanitize_ul x = Ret out.
Proof.
  destruct x as [|c x]; [now eexists|].
  rewrite sanitize_steps by discriminate.
  destruct (allowlist_step_total (c :: x)) as [y ->]. cbn [bind].
  unfold re_sub. rewrite sub_scan_link. now eexists.
Qed.

(* ------------------------------------------------------------------ *)
(** ** C1 *)





(* ------------------------------------------------------------------ *)
(** ** C7 *)

Lemma link_text_closed pv s m :
  match_at flag_i re_link pv s = Some m ->
  exists u, m_text m = u ++ L ">".
Proof.
  rewrite link_match_eq. intros M.
  destruct (link_match_text _ _ M) as [c2 [b [T _]]].
  exists ("<"%char :: c2 :: b). now rewrite T.
Qed.

(** C7.  The last pass of the sanitizer is [re.sub] with [fix_link] on
    the [<a ...>] opening tags of the text that the allowlist pass left:
    the [<a ...>] tags of the output are those tags, each one as
    [fix_link] returns it, in the same order.
    On such a tag [fix_link] appends [target="_blank"] exactly when the
    tag does not hold [target=], and [rel="noopener"] exactly when it does
    not hold [rel=], both put before the closing [>]; these are tests on
    the whole text of the tag.  A tag that had neither ends up with each
    exactly once; a tag that had both is returned as it is. *)
Theorem fix_link_appends :
  (forall x, x <> [] ->
     basic_sanitize_ul x
     = (y <- allowlist_step x ;; re_sub flag_i re_link fix_link y))
  /\ (forall x y, x <> [] -> allowlist_step x = Ret y ->
        exists out,
          basic_sanitize_ul x = Ret out
          /\ map m_text (re_finditer flag_i re_link out)
             = map (fun m => fix_tag (m_text m)) (re_finditer flag_i re_link y))
  /\ (forall pv s m, match_at flag_i re_link pv s = Some m ->
        let t := m_text m in
        fix_link m
        = Ret (removelast t
               ++ (if contains (L "target=") t then [] else target_attr)
               ++ (if contains (L "rel=") t then [] else rel_attr)
               ++ L ">")
        /\ (contains (L "target=") t = true -> contains (L "rel=") t = true ->
            fix_link m = Ret t)
        /\ (contains (L "target=") t = false -> contains (L "rel=") t = false ->
            exists out, fix_link m = Ret out
              /\ occurrences blank_attr out = 1
              /\ occurrences noopener_attr out = 1
              /\ occurrences (L "target=") out = 1
              /\ occurrences (L "rel=") out = 1)).
Proof.
  split; [exact sanitize_steps|]. split.
  { intros x y Hne A. rewrite (sanitize_steps x Hne), A. cbn [bind].
    unfold re_sub, re_finditer. rewrite sub_scan_link. eexists.
    split; [reflexivity|]. rewrite !find_scan_link. apply link_pass_tags. }
  intros pv s m M t. destruct (link_text_closed _ _ _ M) as [u U].
  subst t. unfold fix_link. rewrite U.
  repeat split.
  - rewrite fix_tag_closed. change (L ">") with [">"%char].
    rewrite removelast_last. reflexivity.
  - intros T R. now rewrite fix_tag_complete.
  - intros T R. eexists. split; [reflexivity|].
    repeat split; apply fix_tag_once; try assumption; simpl; tauto.
Qed.

Lemma fix_link_appends_witness :
  exists m,
    match_at flag_i re_link None (L "<a href='http://e.com'>go</a>") = Some m
    /\ m_text m = L "<a href='http://e.com'>"
    /\ fix_link m = Ret (L "<a href='http://e.com'" ++ target_attr ++ rel_attr ++ L ">")
    /\ basic_sanitize_ul x_plain_link
       = Ret (L "<ul><li><a href='http://e.com'" ++ target_attr ++ rel_attr
                ++ L ">go</a></li></ul>")
    /\ basic_sanitize_ul (L "<a href='x' title='target=rel='>y</a>")
       = Ret (L "<a href='x' title='target=rel='>y</a>").
Proof.
  destruct (match_at flag_i re_link None (L "<a href='http://e.com'>go</a>"))
    as [m|] eqn:M; [|vm_compute in M; discriminate].
  exists m. split; [reflexivity|].
  destruct (proj2 (proj2 fix_link_appends) None _ m M) as [E _].
  assert (T : m_text m = L "<a href='http://e.com'>")
    by (vm_compute in M; injection M as <-; reflexivity).
  split; [exact T|]. split; [|split].
  - rewrite E, T. vm_compute. reflexivity.
  - rewrite (proj1 fix_link_appends x_plain_link) by discriminate.
    vm_compute. reflexivity.
  - vm_compute. reflexivity.
Defined.

(* ------------------------------------------------------------------ *)
(** ** Numerals *)

Lemma digits_value_snoc ds c :
  digits_value (ds ++ [c]) = (10 * digits_value ds + digit_value c)%Z.
Proof. unfold digits_value. now rewrite fold_left_app. Qed.

Lemma digit_char_ok k :
  k < 10 -> is_digit (digit_char k) = true
            /\ digit_value (digit_char k) = Z.of_nat k.
Proof.
  intros H. do 10 (destruct k as [|k]; [now split|]). lia.
Qed.

(** Every natural number has a numeral. *)
Lemma numeral_exists_nat : forall k, exists ds, numeral_of ds (Z.of_nat k).
Proof.
  intros k. induction k as [k IH] using lt_wf_ind.
  destruct (Nat.lt_ge_cases k 10) as [H|H].
  - exists [digit_char k]. destruct (digit_char_ok k H) as [D V].
    unfold numeral_of. conj.
    + discriminate.
    + cbn [forallb]. now rewrite D.
    + unfold digits_value. cbn [fold_left]. rewrite V. lia.
  - destruct (IH (k / 10)) as [ds [Hne [Hd Hv]]].
    { apply Nat.div_lt; lia. }
    assert (Hm : k mod 10 < 10) by (apply Nat.mod_upper_bound; lia).
    destruct (digit_char_ok _ Hm) as [D V].
    exists (ds ++ [digit_char (k mod 10)]). unfold numeral_of. conj.
    + destruct ds; discriminate.
    + rewrite forallb_app, Hd. cbn [forallb]. now rewrite D.
    + rewrite digits_value_snoc, Hv, V.
      rewrite (Nat.div_mod_eq k 10) at 3. lia.
Qed.

Lemma numeral_exists n : (0 <= n)%Z -> exists ds, numeral_of ds n.
Proof.
  intros H. destruct (numeral_exists_nat (Z.to_nat n)) as [ds Hds].
  exists ds. now rewrite Z2Nat.id in Hds.
Qed.

Lemma digit_no_space_forall ds :
  forallb is_digit ds = true -> forallb (fun c => negb (is_space c)) ds = true.
Proof.
  apply forallb_impl. intros c H. now rewrite (digit_not_space c H).
Qed.

Lemma lstrip_no_space s :
  forallb (fun c => negb (is_space c)) s = true -> lstrip s = s.
Proof.
  destruct s as [|c s]; [reflexivity|]. simpl. intros H.
  apply andb_true_iff in H as [H _]. apply negb_true_iff in H. now rewrite H.
Qed.

Lemma strip_no_space s :
  forallb (fun c => negb (is_space c)) s = true -> strip s = s.
Proof.
  intros H. unfold strip, rstrip. rewrite (lstrip_no_space s H).
  rewrite lstrip_no_space; [apply rev_involutive|].
  rewrite forallb_forall in *. intros c Hc. apply H. now apply in_rev.
Qed.

(** [int] on a numeral: its value, unless it has too many digits. *)
Lemma int_digits ds n :
  numeral_of ds n ->
  int_ ds = if List.length ds <=? max_str_digits then Ret n
            else Raise ValueError.
Proof.
  intros [Hne [Hd Hv]]. unfold int_.
  rewrite (strip_no_space ds (digit_no_space_forall ds Hd)), Hd.
  destruct ds as [|d ds]; [congruence|]. cbn [is_empty negb andb].
  now rewrite <- Hv.
Qed.

Lemma int_numeral ds n :
  numeral_of ds n -> List.length ds <= max_str_digits -> int_ ds = Ret n.
Proof.
  intros Hn Hl. rewrite (int_digits ds n Hn).
  apply Nat.leb_le in Hl. now rewrite Hl.
Qed.

Lemma int_long ds n :
  numeral_of ds n -> max_str_digits < List.length ds ->
  int_ ds = Raise ValueError.
Proof.
  intros Hn Hl. rewrite (int_digits ds n Hn).
  apply Nat.leb_gt in Hl. now rewrite Hl.
Qed.

(** A number below [10 ^ m] has a numeral of at most [m] digits. *)
Lemma numeral_bounded_nat : forall m k,
  k < 10 ^ S m ->
  exists ds, numeral_of ds (Z.of_nat k) /\ List.length ds <= S m.
Proof.
  induction m as [|m IH]; intros k H.
  - assert (H10 : k < 10) by (cbn in H; lia).
    exists [digit_char k]. destruct (digit_char_ok k H10) as [D V].
    split; [|cbn; lia]. unfold numeral_of. conj.
    + discriminate.
    + cbn [forallb]. now rewrite D.
    + unfold digits_value. cbn [fold_left]. rewrite V. lia.
  - destruct (IH (k / 10)) as [ds [[Hne [Hd Hv]] Hl]].
    { apply Nat.Div0.div_lt_upper_bound.
      change (10 ^ S (S m)) with (10 * 10 ^ S m) in H. exact H. }
    assert (Hm : k mod 10 < 10) by (apply Nat.mod_upper_bound; lia).
    destruct (digit_char_ok _ Hm) as [D V].
    exists (ds ++ [digit_char (k mod 10)]). split.
    + unfold numeral_of. conj.
      * destruct ds; discriminate.
      * rewrite forallb_app, Hd. cbn [forallb]. now rewrite D.
      * rewrite digits_value_snoc, Hv, V.
        rewrite (Nat.div_mod_eq k 10) at 3. lia.
    + rewrite length_app. cbn [List.length]. lia.
Qed.

Lemma numeral_bounded (n : Z) (m : nat) :
  (0 <= n)%Z -> 0 < m -> (n < 10 ^ Z.of_nat m)%Z ->
  exists ds, numeral_of ds n /\ List.length ds <= m.
Proof.
  intros Hn Hm H. destruct m as [|m]; [lia|].
  destruct (numeral_bounded_nat m (Z.to_nat n)) as [ds [Hds Hl]].
  - apply Nat2Z.inj_lt. rewrite Z2Nat.id by exact Hn.
    now rewrite Nat2Z.inj_pow.
  - exists ds. split; [|exact Hl]. now rewrite Z2Nat.id in Hds.
Qed.

(* ------------------------------------------------------------------ *)
(** ** The counted patterns on a numeral *)

(** A greedy repetition first takes the whole run. *)
Lemma greedy_star_run p ds tail : forall pv g,
  forallb p ds = true -> stops p tail = true ->
  exists l, greedy_star p pv (ds ++ tail) g
            = {| prev := last_of pv ds; rest := tail; groups := g |} :: l.
Proof.
  induction ds as [|d ds IH]; intros pv g Hd Ht.
  - simpl app. destruct tail as [|c tail]; [now exists []|].
    simpl in Ht. apply negb_true_iff in Ht. simpl. rewrite Ht. now exists [].
  - simpl in Hd. apply andb_true_iff in Hd as [Hp Hd].
    simpl. rewrite Hp. destruct (IH (Some d) g Hd Ht) as [l ->].
    eexists. reflexivity.
Qed.

Lemma plus_run f a ds tail pv g :
  ds <> [] -> forallb (atom_ok f a) ds = true ->
  stops (atom_ok f a) tail = true ->
  exists l, exec f (Plus a) {| prev := pv; rest := ds ++ tail; groups := g |}
            = {| prev := last_of pv ds; rest := tail; groups := g |} :: l.
Proof.
  intros Hne Hd Ht. destruct ds as [|d ds]; [congruence|].
  simpl in Hd. apply andb_true_iff in Hd as [Hp Hd].
  cbn [exec rest app prev groups]. rewrite Hp.
  apply (greedy_star_run _ ds tail (Some d) g Hd Ht).
Qed.

(** [\d+] followed by [R]: when [R] matches after the whole numeral, the
    pattern matches. *)
Lemma digits_then_some R (ds tail : str) :
  ds <> [] -> forallb is_digit ds = true -> stops is_digit tail = true ->
  (forall pv g, exec no_flags R {| prev := pv; rest := tail; groups := g |}
                <> []) ->
  is_some (re_match no_flags (Cat (Plus Digit) R) (ds ++ tail)) = true.
Proof.
  intros Hne Hd Ht HR. unfold re_match, match_at. rewrite exec_cat.
  destruct (plus_run no_flags Digit ds tail None [] Hne Hd Ht) as [l ->].
  cbn [flat_map].
  specialize (HR (last_of None ds) []).
  destruct (exec no_flags R _); [congruence|reflexivity].
Qed.

(** [(\d+)] followed by [R]: group 1 is the whole numeral. *)
Lemma group_digits_then R (ds tail : str) :
  ds <> [] -> forallb is_digit ds = true -> stops is_digit tail = true ->
  no_group 1 R = true ->
  (forall pv g, exec no_flags R {| prev := pv; rest := tail; groups := g |}
                <> []) ->
  exists m, re_match no_flags (Cat (Group 1 (Plus Digit)) R) (ds ++ tail)
            = Some m /\ m_group m 1 = Some ds.
Proof.
  intros Hne Hd Ht HG HR.
  specialize (HR (last_of None ds) [(1, ds)]).
  destruct (exec no_flags R
              {| prev := last_of None ds; rest := tail; groups := [(1, ds)] |})
    as [|y l'] eqn:EY; [congruence|].
  assert (X : exists l2,
             exec no_flags (Cat (Group 1 (Plus Digit)) R)
                  {| prev := None; rest := ds ++ tail; groups := [] |}
             = y :: l2).
  { rewrite exec_cat.
    destruct (plus_run no_flags Digit ds tail None [] Hne Hd Ht) as [l E].
    change (exec no_flags (Group 1 (Plus Digit))
                 {| prev := None; rest := ds ++ tail; groups := [] |})
      with (map (fun st' => {| prev := prev st'; rest := rest st';
                               groups := (1, taken (ds ++ tail) (rest st'))
                                         :: groups st' |})
                (exec no_flags (Plus Digit)
                      {| prev := None; rest := ds ++ tail; groups := [] |})).
    rewrite E. cbn [map flat_map prev rest groups]. rewrite taken_app, EY.
    eexists. reflexivity. }
  destruct X as [l2 X]. unfold re_match, match_at. rewrite X.
  eexists. split; [reflexivity|].
  unfold m_group. cbn [m_groups].
  rewrite (exec_other_groups no_flags 1 R
             {| prev := last_of None ds; rest := tail; groups := [(1, ds)] |}
             y HG); [reflexivity|].
  rewrite EY. now left.
Qed.

Lemma greedy_star_states p (ds tail : str) : forall pv g st,
  forallb p ds = true -> stops p tail = true ->
  In st (greedy_star p pv (ds ++ tail) g) ->
  groups st = g
  /\ (rest st = tail \/ exists c r, rest st = c :: r /\ p c = true).
Proof.
  induction ds as [|d ds IH]; intros pv g st Hd Ht H.
  - simpl app in H. destruct tail as [|c tail].
    + destruct H as [<-|[]]. split; [reflexivity|now left].
    + simpl in Ht. apply negb_true_iff in Ht. simpl in H. rewrite Ht in H.
      destruct H as [<-|[]]. split; [reflexivity|now left].
  - simpl in Hd. apply andb_true_iff in Hd as [Hp Hd].
    simpl in H. rewrite Hp in H. apply in_app_or in H as [H|[<-|[]]].
    + exact (IH _ _ _ Hd Ht H).
    + split; [reflexivity|]. right. now exists d, (ds ++ tail).
Qed.

Lemma flat_map_nil {A B} (f : A -> list B) l :
  (forall x, In x l -> f x = []) -> flat_map f l = [].
Proof.
  induction l as [|x l IH]; intros H; [reflexivity|].
  simpl. rewrite (H x (or_introl eq_refl)). apply IH.
  intros y Hy. apply H. now right.
Qed.

(** [\d+] followed by [R], inside a group or not: when [R] fails after
    the numeral and after every digit, the pattern fails. *)
Lemma digits_then_none (grouped : bool) R (ds tail : str) :
  ds <> [] -> forallb is_digit ds = true -> stops is_digit tail = true ->
  (forall pv g, exec no_flags R {| prev := pv; rest := tail; groups := g |}
                = []) ->
  (forall pv g c r, is_digit c = true ->
     exec no_flags R {| prev := pv; rest := c :: r; groups := g |} = []) ->
  re_match no_flags
    (Cat (if grouped then Group 1 (Plus Digit) else Plus Digit) R) (ds ++ tail)
  = None.
Proof.
  intros Hne Hd Ht H1 H2. unfold re_match, match_at. rewrite exec_cat.
  rewrite flat_map_nil; [reflexivity|].
  intros st Hst.
  assert (X : rest st = tail \/ exists c r, rest st = c :: r /\ is_digit c = true).
  { destruct ds as [|d ds]; [congruence|].
    simpl in Hd. apply andb_true_iff in Hd as [Hp Hd].
    destruct grouped.
    - cbn [exec] in Hst. apply in_map_iff in Hst as [st0 [<- Hst]].
      cbn [rest app] in Hst. cbn [atom_ok] in Hst. rewrite Hp in Hst.
      cbn [rest]. exact (proj2 (greedy_star_states _ _ _ _ _ _ Hd Ht Hst)).
    - cbn [exec rest app] in Hst. cbn [atom_ok] in Hst. rewrite Hp in Hst.
      exact (proj2 (greedy_star_states _ _ _ _ _ _ Hd Ht Hst)). }
  destruct st as [pv r g]. cbn [rest] in X.
  destruct X as [->|[c [r' [-> Hc]]]]; [apply H1|now apply H2].
Qed.

Lemma digit_facts c :
  is_digit c = true ->
  is_space c = false
  /\ Ascii.eqb c "m" = false /\ Ascii.eqb c "h" = false
  /\ Ascii.eqb c "d" = false /\ Ascii.eqb c "w" = false.
Proof. by_char c; intros _; now conj. Qed.

Lemma digit_not_letter c x :
  is_digit c = true -> is_lower_ascii x = true ->
  atom_ok no_flags (Lit x) c = false.
Proof.
  intros D Lx. simpl. destruct (Ascii.eqb c x) eqn:E; [|reflexivity].
  apply Ascii.eqb_eq in E. subst x. revert D Lx. by_char c.
Qed.

Lemma digits_lack x ds tail :
  is_lower_ascii x = true -> forallb is_digit ds = true ->
  forallb (fun c => negb (Ascii.eqb c x)) tail = true ->
  Forall (fun c => atom_ok no_flags (Lit x) c = false) (ds ++ tail).
Proof.
  intros Lx Hd Ht. apply Forall_app. split; apply Forall_forall; intros c Hc.
  - rewrite forallb_forall in Hd. apply digit_not_letter; auto.
  - rewrite forallb_forall in Ht. specialize (Ht c Hc).
    apply negb_true_iff in Ht. exact Ht.
Qed.

Lemma yesterday_not_in_digits ds t :
  forallb is_digit ds = true ->
  contains (L "yesterday") (ds ++ " "%char :: t) = contains (L "yesterday") t.
Proof.
  intros Hd. rewrite contains_sep by (discriminate || reflexivity).
  rewrite (contains_none is_digit (L "yesterday") ds); try reflexivity.
  - discriminate.
  - exact Hd.
Qed.

Lemma lower_strip_nonempty s t :
  lower (strip s) = t -> t <> [] -> is_empty s = false.
Proof. intros E Hne. destruct s; [subst t; now elim Hne|reflexivity]. Qed.

(* ------------------------------------------------------------------ *)
(** ** Blanks, a unit word, blanks and a literal *)

Lemma counted_split ds ws1 u ws2 tail :
  counted ds ws1 u ws2 ++ tail = ds ++ after_numeral ws1 u ws2 tail.
Proof. unfold counted, after_numeral. now rewrite <- !app_assoc. Qed.

Lemma exec_lit_self f w : forall t pv g,
  exec f (lit_str w) {| prev := pv; rest := w ++ t; groups := g |}
  = [{| prev := last_of pv w; rest := t; groups := g |}].
Proof.
  induction w as [|x w IH]; intros t pv g; [reflexivity|].
  change (lit_str (x :: w)) with (Cat (One (Lit x)) (lit_str w)).
  rewrite exec_cat. cbn [exec rest app].
  assert (A : atom_ok f (Lit x) x = true)
    by (cbn [atom_ok]; destruct (ignorecase f); apply Ascii.eqb_refl).
  rewrite A. cbn [flat_map advance groups]. rewrite app_nil_r.
  exact (IH t (Some x) g).
Qed.

Lemma exec_cat_in f r1 r2 st s1 s2 :
  In s1 (exec f r1 st) -> In s2 (exec f r2 s1) ->
  In s2 (exec f (Cat r1 r2) st).
Proof.
  intros H1 H2. rewrite exec_cat. apply in_flat_map. now exists s1.
Qed.

Lemma alts_in f rs : forall r st st',
  In r rs -> In st' (exec f r st) -> In st' (exec f (alts rs) st).
Proof.
  induction rs as [|r0 rs IH]; intros r st st' I H; [destruct I|].
  destruct rs as [|r1 rs].
  - destruct I as [<-|[]]. exact H.
  - change (alts (r0 :: r1 :: rs)) with (Alt r0 (alts (r1 :: rs))).
    cbn [exec]. apply in_or_app. destruct I as [<-|I]; [now left|right].
    exact (IH r st st' I H).
Qed.

Lemma greedy_star_self p pv s g :
  In {| prev := pv; rest := s; groups := g |} (greedy_star p pv s g).
Proof.
  destruct s as [|c s]; cbn [greedy_star]; [now left|].
  destruct (p c); [apply in_or_app; right|]; now left.
Qed.

(** A run of blanks can be passed whole. *)
Lemma star_blank_in f ws : forall t pv g,
  blank ws = true ->
  In {| prev := last_of pv ws; rest := t; groups := g |}
     (exec f (Star Space) {| prev := pv; rest := ws ++ t; groups := g |}).
Proof.
  induction ws as [|c ws IH]; intros t pv g B.
  - apply greedy_star_self.
  - cbn in B. apply andb_true_iff in B as [Bc B].
    cbn [exec rest prev groups app greedy_star atom_ok]. rewrite Bc.
    apply in_or_app. left. exact (IH t (Some c) g B).
Qed.

Lemma after_units_some k units u ws1 ws2 tail pv g :
  In u units -> blank ws1 = true -> blank ws2 = true ->
  exec no_flags (after_units k units)
       {| prev := pv; rest := after_numeral ws1 u ws2 tail; groups := g |}
  <> [].
Proof.
  intros Iu B1 B2.
  assert (H : exists st,
            In st (exec no_flags (after_units k units)
                        {| prev := pv; rest := after_numeral ws1 u ws2 tail;
                           groups := g |})).
  { eexists. unfold after_units, after_numeral.
    cbn [seq_re fold_right].
    eapply exec_cat_in; [exact (star_blank_in no_flags ws1 _ pv g B1)|].
    eapply exec_cat_in.
    - cbn [exec]. apply in_map.
      apply (alts_in no_flags (map lit units) (lit u));
        [now apply in_map|].
      unfold lit. fold (lit_str (L u)). rewrite exec_lit_self. now left.
    - cbn [prev rest groups].
      eapply exec_cat_in; [exact (star_blank_in no_flags ws2 _ _ _ B2)|].
      eapply exec_cat_in.
      + unfold lit. fold (lit_str (L "ago")). rewrite exec_lit_self. now left.
      + now left. }
  destruct H as [st H]. intros E. rewrite E in H. destruct H.
Qed.

Lemma lit_head_fail u h c r pv g :
  starts (Ascii.eqb h) (L u) = true -> Ascii.eqb h c = false ->
  exec no_flags (lit u) {| prev := pv; rest := c :: r; groups := g |} = [].
Proof.
  intros S E. unfold lit. destruct (L u) as [|y w]; [discriminate|].
  cbn in S. apply Ascii.eqb_eq in S. subst y.
  cbn [map seq_re fold_right]. rewrite exec_cat.
  cbn [exec rest atom_ok no_flags ignorecase].
  rewrite Ascii.eqb_sym, E. reflexivity.
Qed.

Lemma alts_head_fail units h c r pv g :
  units <> [] -> head_is h units = true -> Ascii.eqb h c = false ->
  exec no_flags (alts (map lit units))
       {| prev := pv; rest := c :: r; groups := g |} = [].
Proof.
  intros Hne H E. induction units as [|u units IH]; [congruence|].
  cbn in H. apply andb_true_iff in H as [Hu H].
  destruct units as [|u2 units].
  - exact (lit_head_fail u h c r pv g Hu E).
  - change (alts (map lit (u :: u2 :: units)))
      with (Alt (lit u) (alts (map lit (u2 :: units)))).
    cbn [exec]. rewrite (lit_head_fail u h c r pv g Hu E).
    apply IH; [discriminate|exact H].
Qed.

(** The words all begin with [h]: after the blanks, another character
    than [h] ends the match. *)
Lemma after_units_none k units h ws x r pv g :
  units <> [] -> head_is h units = true -> is_space h = false ->
  blank ws = true -> is_space x = false -> Ascii.eqb h x = false ->
  exec no_flags (after_units k units)
       {| prev := pv; rest := ws ++ x :: r; groups := g |} = [].
Proof.
  intros Hne H Sh B Sx E. unfold after_units. cbn [seq_re fold_right].
  rewrite exec_cat. apply flat_map_nil. intros st Hst.
  cbn [exec rest prev groups] in Hst.
  assert (St : stops (atom_ok no_flags Space) (x :: r) = true)
    by (cbn; now rewrite Sx).
  destruct (greedy_star_states _ ws (x :: r) _ _ _ B St Hst) as [_ R].
  rewrite exec_cat.
  assert (A : exec no_flags (Group k (alts (map lit units))) st = []).
  { cbn [exec]. destruct st as [pv' rs g']. cbn [rest] in R.
    destruct R as [->|[c [r' [-> Hc]]]].
    - now rewrite (alts_head_fail units h x r pv' g' Hne H E).
    - rewrite (alts_head_fail units h c r' pv' g' Hne H); [reflexivity|].
      destruct (Ascii.eqb h c) eqn:Ec; [|reflexivity].
      apply Ascii.eqb_eq in Ec. subst c. cbn in Hc. congruence. }
  now rewrite A.
Qed.

Lemma lower_not_space c : is_lower_ascii c = true -> is_space c = false.
Proof. by_char c. Qed.

Lemma lower_not_digit c : is_lower_ascii c = true -> is_digit c = false.
Proof. by_char c. Qed.

Lemma stops_after_blanks ws z :
  blank ws = true -> stops is_digit z = true -> z <> [] ->
  stops is_digit (ws ++ z) = true.
Proof.
  intros B S Hz. destruct ws as [|c ws]; [exact S|].
  cbn in B. apply andb_true_iff in B as [Bc _]. cbn.
  destruct (is_digit c) eqn:D; [|reflexivity].
  now rewrite (digit_not_space c D) in Bc.
Qed.

Lemma unit_of_list units h u :
  head_is h units = true -> In u units -> exists w, L u = h :: w.
Proof.
  intros H I. unfold head_is in H.
  rewrite forallb_forall in H. specialize (H u I).
  destruct (L u) as [|y w]; [discriminate|]. cbn in H.
  apply Ascii.eqb_eq in H. subst y. now exists w.
Qed.

Lemma numeral_stops ws1 hu w z :
  blank ws1 = true -> is_lower_ascii hu = true ->
  stops is_digit (ws1 ++ (hu :: w) ++ z) = true.
Proof.
  intros B Hl. apply stops_after_blanks; [exact B| |discriminate].
  cbn. now rewrite (lower_not_digit hu Hl).
Qed.

(** The pattern of the units of a list, all of which begin with the
    letter [h], on a counted date of one of them. *)
Lemma counted_some k units h ds ws1 ws2 tail u :
  head_is h units = true -> is_lower_ascii h = true ->
  ds <> [] -> forallb is_digit ds = true ->
  blank ws1 = true -> blank ws2 = true -> In u units ->
  is_some (re_match no_flags (Cat (Plus Digit) (after_units k units))
                    (ds ++ after_numeral ws1 u ws2 tail)) = true.
Proof.
  intros H Hh Hne Hd B1 B2 I. destruct (unit_of_list units h u H I) as [w E].
  apply digits_then_some; [exact Hne|exact Hd| |].
  - unfold after_numeral. rewrite E. now apply numeral_stops.
  - intros pv g. now apply after_units_some.
Qed.

Lemma counted_group k units h ds ws1 ws2 tail u :
  head_is h units = true -> is_lower_ascii h = true ->
  ds <> [] -> forallb is_digit ds = true ->
  blank ws1 = true -> blank ws2 = true -> In u units ->
  no_group 1 (after_units k units) = true ->
  exists m,
    re_match no_flags (Cat (Group 1 (Plus Digit)) (after_units k units))
             (ds ++ after_numeral ws1 u ws2 tail) = Some m
    /\ m_group m 1 = Some ds.
Proof.
  intros H Hh Hne Hd B1 B2 I G.
  destruct (unit_of_list units h u H I) as [w E].
  apply group_digits_then; [exact Hne|exact Hd| |exact G|].
  - unfold after_numeral. rewrite E. now apply numeral_stops.
  - intros pv g. now apply after_units_some.
Qed.

(** The pattern of these units on a counted date of a unit that begins
    with another letter. *)
Lemma counted_none (grouped : bool) k units h ds ws1 ws2 tail u hu w :
  units <> [] -> head_is h units = true -> is_lower_ascii h = true ->
  ds <> [] -> forallb is_digit ds = true -> blank ws1 = true ->
  L u = hu :: w -> is_lower_ascii hu = true -> Ascii.eqb h hu = false ->
  re_match no_flags
    (Cat (if grouped then Group 1 (Plus Digit) else Plus Digit)
         (after_units k units))
    (ds ++ after_numeral ws1 u ws2 tail)
  = None.
Proof.
  intros Hu H Hh Hne Hd B1 E Hl D.
  pose proof (lower_not_space h Hh) as Sh.
  apply digits_then_none; [exact Hne|exact Hd| | |].
  - unfold after_numeral. rewrite E. now apply numeral_stops.
  - intros pv g. unfold after_numeral. rewrite E.
    change ((hu :: w) ++ ws2 ++ L "ago" ++ tail)
      with (hu :: w ++ ws2 ++ L "ago" ++ tail).
    apply (after_units_none k units h); auto.
    now apply lower_not_space.
  - intros pv g c r Hc.
    apply (after_units_none k units h [] c r pv g); auto.
    + now apply digit_not_space.
    + rewrite Ascii.eqb_sym.
      exact (digit_not_letter c h Hc Hh).
Qed.

(* ------------------------------------------------------------------ *)
(** ** The relative dates *)

(** The rules of [within_past_week] one after the other, on the trimmed
    and lowered text [t] of a non-empty [date_str]. *)
Lemma within_past_week_rules now s t :
  lower (strip s) = t -> t <> [] ->
  within_past_week now s =
  if contains (L "yesterday") t then Ret true
  else if is_some (re_match no_flags re_minutes t) then Ret true
  else if is_some (re_match no_flags re_hours t) then Ret true
  else match re_match no_flags re_days t with
       | Some m => n <- int_group m 1 ;; Ret (n <=? 7)%Z
       | None =>
           match re_match no_flags re_weeks t with
           | Some m => n <- int_group m 1 ;; Ret (n <=? 1)%Z
           | None => try_formats now (strip s) date_formats
           end
       end.
Proof.
  intros E Hne. unfold within_past_week.
  rewrite (lower_strip_nonempty s t E Hne). now rewrite E.
Qed.

Lemma patterns_split :
  re_minutes = Cat (Plus Digit) after_minutes
  /\ re_hours = Cat (Plus Digit) after_hours
  /\ re_days = Cat (Group 1 (Plus Digit)) after_days
  /\ re_weeks = Cat (Group 1 (Plus Digit)) after_weeks.
Proof. conj; reflexivity. Qed.

Lemma counted_nonempty ds ws1 u ws2 tail :
  ds <> [] -> counted ds ws1 u ws2 ++ tail <> [].
Proof. intros H. unfold counted. destruct ds; [congruence|discriminate]. Qed.

(** A counted date in minutes or hours is recent, whatever follows. *)
Lemma short_unit_recent now s ds ws1 u ws2 tail :
  ds <> [] -> forallb is_digit ds = true -> In u short_units ->
  blank ws1 = true -> blank ws2 = true ->
  lower (strip s) = counted ds ws1 u ws2 ++ tail ->
  within_past_week now s = Ret true.
Proof.
  intros Hne Hd Hu B1 B2 E.
  rewrite (within_past_week_rules now s _ E (counted_nonempty _ _ _ _ _ Hne)).
  destruct (contains _ _); [reflexivity|].
  rewrite counted_split.
  destruct patterns_split as [-> [-> _]].
  change short_units with (minute_units ++ hour_units) in Hu.
  apply in_app_or in Hu as [Hu|Hu].
  - unfold after_minutes.
    now rewrite (counted_some 1 minute_units "m" ds ws1 ws2 tail u
                   eq_refl eq_refl Hne Hd B1 B2 Hu).
  - destruct (unit_of_list hour_units "h" u eq_refl Hu) as [w Ew].
    unfold after_minutes.
    rewrite (counted_none false 1 minute_units "m" ds ws1 ws2 tail u "h" w
             ltac:(discriminate) eq_refl eq_refl Hne Hd B1 Ew eq_refl eq_refl).
    cbn [is_some]. unfold after_hours.
    now rewrite (counted_some 1 hour_units "h" ds ws1 ws2 tail u
                   eq_refl eq_refl Hne Hd B1 B2 Hu).
Qed.

(** A counted date in days: [yesterday] comes first, then the number is
    read by [int] and compared with 7. *)
Lemma day_unit_window now s ds n ws1 u ws2 tail :
  numeral_of ds n -> In u day_units ->
  blank ws1 = true -> blank ws2 = true ->
  lower (strip s) = counted ds ws1 u ws2 ++ tail ->
  within_past_week now s
  = if contains (L "yesterday") (lower (strip s)) then Ret true
    else if List.length ds <=? max_str_digits then Ret (n <=? 7)%Z
         else Raise ValueError.
Proof.
  intros Hn Hu B1 B2 E. pose proof Hn as [Hne [Hd Hv]].
  rewrite (within_past_week_rules now s _ E (counted_nonempty _ _ _ _ _ Hne)).
  rewrite E. destruct (contains _ _); [reflexivity|].
  rewrite counted_split.
  destruct patterns_split as [-> [-> [-> _]]].
  destruct (unit_of_list day_units "d" u eq_refl Hu) as [w Ew].
  unfold after_minutes, after_hours, after_days.
  rewrite (counted_none false 1 minute_units "m" ds ws1 ws2 tail u "d" w
             ltac:(discriminate) eq_refl eq_refl Hne Hd B1 Ew eq_refl eq_refl).
  rewrite (counted_none false 1 hour_units "h" ds ws1 ws2 tail u "d" w
             ltac:(discriminate) eq_refl eq_refl Hne Hd B1 Ew eq_refl eq_refl).
  cbn [is_some].
  destruct (counted_group 2 day_units "d" ds ws1 ws2 tail u
              eq_refl eq_refl Hne Hd B1 B2 Hu eq_refl) as [m [-> G]].
  unfold int_group. rewrite G, (int_digits ds n Hn).
  now destruct (List.length ds <=? max_str_digits).
Qed.

(** A counted date in weeks, likewise, with the bound 1. *)
Lemma week_unit_window now s ds n ws1 u ws2 tail :
  numeral_of ds n -> In u week_units ->
  blank ws1 = true -> blank ws2 = true ->
  lower (strip s) = counted ds ws1 u ws2 ++ tail ->
  within_past_week now s
  = if contains (L "yesterday") (lower (strip s)) then Ret true
    else if List.length ds <=? max_str_digits then Ret (n <=? 1)%Z
         else Raise ValueError.
Proof.
  intros Hn Hu B1 B2 E. pose proof Hn as [Hne [Hd Hv]].
  rewrite (within_past_week_rules now s _ E (counted_nonempty _ _ _ _ _ Hne)).
  rewrite E. destruct (contains _ _); [reflexivity|].
  rewrite counted_split.
  destruct patterns_split as [-> [-> [-> ->]]].
  destruct (unit_of_list week_units "w" u eq_refl Hu) as [w Ew].
  unfold after_minutes, after_hours, after_days, after_weeks.
  rewrite (counted_none false 1 minute_units "m" ds ws1 ws2 tail u "w" w
             ltac:(discriminate) eq_refl eq_refl Hne Hd B1 Ew eq_refl eq_refl).
  rewrite (counted_none false 1 hour_units "h" ds ws1 ws2 tail u "w" w
             ltac:(discriminate) eq_refl eq_refl Hne Hd B1 Ew eq_refl eq_refl).
  cbn [is_some].
  rewrite (counted_none true 2 day_units "d" ds ws1 ws2 tail u "w" w
             ltac:(discriminate) eq_refl eq_refl Hne Hd B1 Ew eq_refl eq_refl).
  destruct (counted_group 2 week_units "w" ds ws1 ws2 tail u
              eq_refl eq_refl Hne Hd B1 B2 Hu eq_refl) as [m [-> G]].
  unfold int_group. rewrite G, (int_digits ds n Hn).
  now destruct (List.length ds <=? max_str_digits).
Qed.

Lemma leb_iff (a b : Z) (r : res bool) :
  r = Ret (a <=? b)%Z -> (r = Ret true <-> (a <= b)%Z).
Proof.
  intros ->. split.
  - intros [= H]. now apply Z.leb_le.
  - intros H. apply Z.leb_le in H. now rewrite H.
Qed.

Lemma max_str_digits_pos : 0 < max_str_digits.
Proof. apply Nat.lt_0_succ. Qed.

Lemma long_numeral_facts :
  numeral_of long_numeral (digits_value long_numeral)
  /\ (List.length long_numeral <=? max_str_digits) = false.
Proof.
  unfold numeral_of. conj; [discriminate| |reflexivity|].
  - unfold long_numeral. apply forallb_forall. intros c Hc.
    apply repeat_spec in Hc. now subst c.
  - unfold long_numeral. rewrite repeat_length. apply Nat.leb_gt. lia.
Qed.




(** C4, the claim as it is written: a text that begins with
    [2 weeks ago] is recent when [yesterday] stands further on, and a
    numeral of more digits than [int] accepts is not answered at all. *)
Lemma weeks_ago_counterexample :
  within_past_week now_oct11 (L "2 weeks ago, seen yesterday") = Ret true
  /\ within_past_week now_oct11 (long_numeral ++ L " weeks ago")
     = Raise ValueError.
Proof.
  split; [vm_compute; reflexivity|].
  destruct long_numeral_facts as [Hn Hl].
  assert (Y : contains (L "yesterday")
                        (lower (strip (long_numeral ++ L " weeks ago"))) = false)
    by (vm_compute; reflexivity).
  rewrite (week_unit_window now_oct11 _ long_numeral _ (L " ") "weeks" (L " ") []
             Hn (or_intror (or_introl eq_refl)) eq_refl eq_refl);
    [now rewrite Y, Hl|vm_compute; reflexivity].
Qed.

(** C4.  For a number [n >= 0] and each of its numerals: a text that
    begins with the numeral, blanks or none, one of the unit words
    minute, min, minutes, mins, hour, hr, hours, hrs, blanks or none and
    [ago] is recent whatever [n] is and however long the numeral.  With
    [week] or [weeks], a numeral of at most 4300 digits and no
    [yesterday] in the text, it is recent exactly when [n <= 1].  The
    bound of seven days plays no part. *)
Theorem short_units_always_weeks_at_most_one (n : Z) :
  (0 <= n)%Z ->
  (exists ds, numeral_of ds n)
  /\ ((n < 10 ^ Z.of_nat max_str_digits)%Z ->
      exists ds, numeral_of ds n /\ List.length ds <= max_str_digits)
  /\ (forall now s ds ws1 u ws2 tail,
        numeral_of ds n -> In u short_units ->
        blank ws1 = true -> blank ws2 = true ->
        lower (strip s) = counted ds ws1 u ws2 ++ tail ->
        within_past_week now s = Ret true)
  /\ (forall now s ds ws1 u ws2 tail,
        numeral_of ds n -> List.length ds <= max_str_digits ->
        In u week_units -> blank ws1 = true -> blank ws2 = true ->
        lower (strip s) = counted ds ws1 u ws2 ++ tail ->
        contains (L "yesterday") (lower (strip s)) = false ->
        within_past_week now s = Ret (n <=? 1)%Z
        /\ (within_past_week now s = Ret true <-> (n <= 1)%Z)).
Proof.
  intros Hn. conj.
  - now apply numeral_exists.
  - intros H. exact (numeral_bounded n max_str_digits Hn max_str_digits_pos H).
  - intros now s ds ws1 u ws2 tail [Hne [Hd _]] Hu B1 B2 E.
    exact (short_unit_recent now s ds ws1 u ws2 tail Hne Hd Hu B1 B2 E).
  - intros now s ds ws1 u ws2 tail Hds Hl Hu B1 B2 E Y.
    assert (R : within_past_week now s = Ret (n <=? 1)%Z).
    { rewrite (week_unit_window now s ds n ws1 u ws2 tail Hds Hu B1 B2 E), Y.
      apply Nat.leb_le in Hl. now rewrite Hl. }
    split; [exact R|now apply leb_iff].
Qed.

Lemma short_units_always_weeks_at_most_one_witness :
  within_past_week now_oct11 (L "5 minutes ago") = Ret true
  /\ within_past_week now_oct11 (L "300hrs ago, or so") = Ret true
  /\ within_past_week now_oct11 (L "1 week ago") = Ret true
  /\ within_past_week now_oct11 (L "2 weeks ago") = Ret false.
Proof.
  assert (U : forall k, (k <= 3)%nat -> k <= max_str_digits)
    by (intros k H; unfold max_str_digits; lia).
  split; [|split; [|split]].
  - exact (proj1 (proj2 (proj2 (short_units_always_weeks_at_most_one 5 ltac:(lia))))
             now_oct11 (L "5 minutes ago") (L "5") (L " ") "minutes"%string
             (L " ") []
             ltac:(unfold numeral_of; conj; discriminate || reflexivity)
             ltac:(simpl; tauto) eq_refl eq_refl eq_refl).
  - exact (proj1 (proj2 (proj2 (short_units_always_weeks_at_most_one 300 ltac:(lia))))
             now_oct11 (L "300hrs ago, or so") (L "300") [] "hrs"%string
             (L " ") (L ", or so")
             ltac:(unfold numeral_of; conj; discriminate || reflexivity)
             ltac:(simpl; tauto) eq_refl eq_refl eq_refl).
  - exact (proj1 (proj2 (proj2 (proj2
             (short_units_always_weeks_at_most_one 1 ltac:(lia))))
             now_oct11 (L "1 week ago") (L "1") (L " ") "week"%string (L " ") []
             ltac:(unfold numeral_of; conj; discriminate || reflexivity)
             ltac:(apply U; cbn; lia)
             ltac:(simpl; tauto) eq_refl eq_refl eq_refl eq_refl)).
  - exact (proj1 (proj2 (proj2 (proj2
             (short_units_always_weeks_at_most_one 2 ltac:(lia))))
             now_oct11 (L "2 weeks ago") (L "2") (L " ") "weeks"%string (L " ") []
             ltac:(unfold numeral_of; conj; discriminate || reflexivity)
             ltac:(apply U; cbn; lia)
             ltac:(simpl; tauto) eq_refl eq_refl eq_refl eq_refl)).
Defined.

(* ------------------------------------------------------------------ *)
(** ** The counted patterns start with a digit *)

Lemma plus_head_fail f a R pv c s g :
  atom_ok f a c = false ->
  exec f (Cat (Plus a) R) {| prev := pv; rest := c :: s; groups := g |} = [].
Proof. intros H. rewrite exec_cat. cbn [exec rest]. now rewrite H. Qed.

Lemma group_plus_head_fail f n a R pv c s g :
  atom_ok f a c = false ->
  exec f (Cat (Group n (Plus a)) R)
       {| prev := pv; rest := c :: s; groups := g |} = [].
Proof. intros H. rewrite exec_cat. cbn [exec rest]. now rewrite H. Qed.

(** The four counted patterns match at the start only, and there they
    need a digit. *)
Lemma counted_need_digit t :
  starts_with_digit t = false ->
  re_match no_flags re_minutes t = None
  /\ re_match no_flags re_hours t = None
  /\ re_match no_flags re_days t = None
  /\ re_match no_flags re_weeks t = None.
Proof.
  intros H. unfold re_match, match_at.
  change re_minutes with (Cat (Plus Digit) after_minutes).
  change re_hours with (Cat (Plus Digit) after_hours).
  change re_days with (Cat (Group 1 (Plus Digit)) after_days).
  change re_weeks with (Cat (Group 1 (Plus Digit)) after_weeks).
  destruct t as [|c t].
  - conj; reflexivity.
  - simpl in H.
    rewrite !plus_head_fail, !group_plus_head_fail by exact H. now conj.
Qed.

(* ------------------------------------------------------------------ *)
(** ** What [strptime] accepts *)

Lemma lit_str_inv f w : forall st st',
  In st' (exec f (lit_str w) st) ->
  exists u, rest st = u ++ rest st'
            /\ Forall2 (fun x c => atom_ok f (Lit x) c = true) w u.
Proof.
  induction w as [|x w IH]; intros st st' H.
  - change (lit_str []) with Eps in H. simpl in H. destruct H as [<-|[]].
    exists []. split; [reflexivity|apply Forall2_nil].
  - change (lit_str (x :: w)) with (Cat (One (Lit x)) (lit_str w)) in H.
    apply exec_cat_inv in H as [mid [H1 H2]].
    cbn [exec] in H1. destruct (rest st) as [|c s'] eqn:E; [destruct H1|].
    destruct (atom_ok f (Lit x) c) eqn:A; [|destruct H1].
    destruct H1 as [<-|[]].
    destruct (IH _ _ H2) as [u [E2 F]]. cbn [rest advance] in E2.
    exists (c :: u). split; [simpl; now f_equal|now apply Forall2_cons].
Qed.

Lemma alts_inv f rs : forall st st',
  rs <> [] -> In st' (exec f (alts rs) st) ->
  exists r, In r rs /\ In st' (exec f r st).
Proof.
  induction rs as [|r rs IH]; intros st st' Hne H; [congruence|].
  destruct rs as [|r2 rs].
  - exists r. split; [now left|exact H].
  - change (alts (r :: r2 :: rs)) with (Alt r (alts (r2 :: rs))) in H.
    simpl in H. apply in_app_or in H as [H|H].
    + exists r. split; [now left|exact H].
    + destruct (IH st st' ltac:(discriminate) H) as [r' [I E]].
      exists r'. split; [now right|exact E].
Qed.

Lemma ci_lower w u :
  Forall2 (fun x c => atom_ok flag_i (Lit x) c = true) w u ->
  lower u = lower w.
Proof.
  induction 1 as [|x c w u A _ IH]; [reflexivity|].
  simpl in *. apply Ascii.eqb_eq in A. now rewrite A, IH.
Qed.

(** A group of names: the text it takes is one of the names, in any
    case. *)
Lemma names_group_inv k (names : list str) st st' :
  names <> [] ->
  In st' (exec flag_i (Group k (alts (map lit_str names))) st) ->
  exists w u, In w names /\ rest st = u ++ rest st' /\ lower u = lower w.
Proof.
  intros Hne H. simpl in H. apply in_map_iff in H as [st0 [<- H]].
  apply alts_inv in H as [r [I H]]; [|now destruct names].
  apply in_map_iff in I as [w [<- I]].
  apply lit_str_inv in H as [u [E F]].
  exists w, u. cbn [rest]. repeat split; [exact I|exact E|now apply ci_lower].
Qed.

Lemma after_month_alpha c : alpha flag_i after_month c = true -> sep c = true.
Proof. by_char c. Qed.

Lemma dot_after_month_alpha c :
  alpha flag_i (Cat (One (Lit "."%char)) after_month) c = true -> sep c = true.
Proof. by_char c. Qed.

Lemma sep_lower c : sep c = true -> lower_char c = c.
Proof. by_char c. Qed.

(** The three patterns, as [format_regex] builds them. *)
Lemma format_patterns fmt :
  In fmt date_formats ->
  exists k names R,
    format_regex false fmt
    = Some (Cat (Group k (alts (map lit_str names))) R)
    /\ names <> [] /\ incl names all_months
    /\ (forall c, alpha flag_i R c = true -> sep c = true).
Proof.
  intros [<-|[<-|[<-|[]]]].
  - exists (key "b"), month_abbr, after_month.
    conj; [reflexivity|discriminate|apply incl_appl, incl_refl
           |exact after_month_alpha].
  - exists (key "B"), (sort_by_len month_name), after_month.
    conj; [reflexivity|discriminate|apply incl_appr, incl_refl
           |exact after_month_alpha].
  - exists (key "b"), month_abbr, (Cat (One (Lit "."%char)) after_month).
    conj; [reflexivity|discriminate|apply incl_appl, incl_refl
           |exact dot_after_month_alpha].
Qed.

Lemma forallb_lower_sep v : forallb sep v = true -> lower v = v.
Proof.
  induction v as [|c v IH]; [reflexivity|]. simpl. intros H.
  apply andb_true_iff in H as [H1 H2]. now rewrite (sep_lower c H1), IH.
Qed.

(** A text that [strptime] takes under one of the formats is the name of
    a month followed by blanks, digits, commas and full stops. *)
Lemma strptime_shape t fmt d :
  In fmt date_formats -> strptime t fmt = Ret d ->
  exists w v, In w all_months /\ lower t = w ++ v /\ forallb sep v = true.
Proof.
  intros Hf H. destruct (format_patterns fmt Hf) as [k [names [R [E [Hne [Hi HR]]]]]].
  unfold strptime in H. rewrite E in H.
  destruct (re_match flag_i _ t) as [found|] eqn:M; [|discriminate].
  destruct (is_empty (m_after found)) eqn:A; [|discriminate].
  clear H. unfold re_match in M.
  destruct (match_at_head _ _ _ _ _ M) as [st [H [_ Ha]]].
  apply exec_cat_inv in H as [mid [H1 H2]].
  destruct (names_group_inv k names _ _ Hne H1) as [w [u [Iw [E1 Lw]]]].
  destruct (exec_ahead _ _ _ _ H2) as [v [E2 F]].
  cbn [rest] in E1. rewrite <- Ha in E2.
  destruct (m_after found); [|discriminate]. rewrite app_nil_r in E2.
  assert (Fs : forallb sep v = true) by (exact (forallb_impl _ _ _ HR F)).
  exists w, v. conj.
  - now apply Hi.
  - rewrite E1, E2, lower_app, Lw, (forallb_lower_sep v Fs). f_equal.
    assert (X : forallb (fun w => str_eqb (lower w) w) all_months = true)
      by (vm_compute; reflexivity).
    rewrite forallb_forall in X. specialize (X w (Hi w Iw)).
    clear - X. revert X. generalize (lower w). intros a.
    revert w; induction a as [|x a IH]; intros [|y w] X; try discriminate;
      [reflexivity|].
    simpl in X. apply andb_true_iff in X as [X1 X2].
    apply Ascii.eqb_eq in X1. subst y. f_equal. now apply IH.
  - exact Fs.
Qed.

(** None of the rules before the dates applies to such a text. *)
Lemma strptime_not_relative t fmt d :
  In fmt date_formats -> strptime t fmt = Ret d ->
  relative_rule (lower t) = false.
Proof.
  intros Hf H. destruct (strptime_shape t fmt d Hf H) as [w [v [Iw [E F]]]].
  rewrite E. unfold relative_rule.
  assert (Y : contains (L "yesterday") (w ++ v) = false).
  { rewrite (contains_straddle sep (L "yesterday") w v);
      [|discriminate|reflexivity|exact F].
    assert (X : forallb (fun w => negb (contains (L "yesterday") w)) all_months
                = true) by (vm_compute; reflexivity).
    rewrite forallb_forall in X. specialize (X w Iw).
    now apply negb_true_iff in X. }
  assert (D : starts_with_digit (w ++ v) = false).
  { assert (X : forallb (fun w => negb (starts_with_digit w)
                                  && negb (is_empty w)) all_months = true)
      by (vm_compute; reflexivity).
    rewrite forallb_forall in X. specialize (X w Iw).
    apply andb_true_iff in X as [X1 X2].
    destruct w as [|c w]; [discriminate|]. now apply negb_true_iff in X1. }
  destruct (counted_need_digit _ D) as [-> [-> [-> ->]]].
  now rewrite Y.
Qed.

(* ------------------------------------------------------------------ *)
(** ** The dates *)

Lemma int_raises s e : int_ s = Raise e -> e = ValueError.
Proof. unfold int_. destruct (_ && _); [discriminate|]. now intros [= <-]. Qed.

Lemma opt_int_raises o dflt e : opt_int o dflt = Raise e -> e = ValueError.
Proof. destruct o; simpl; [apply int_raises|discriminate]. Qed.

(** [strptime] raises nothing but [ValueError]. *)
Lemma strptime_raises t fmt e : strptime t fmt = Raise e -> e = ValueError.
Proof.
  unfold strptime.
  destruct (format_regex false fmt); [|now intros [= <-]].
  destruct (re_match flag_i r t) as [found|]; [|now intros [= <-]].
  destruct (negb _); [now intros [= <-]|].
  destruct (opt_int (m_group found (key "Y")) 1900) eqn:EY;
    [|intros [= <-]; now apply opt_int_raises in EY].
  cbn [bind].
  destruct (found_month found) eqn:EM.
  - cbn [bind].
    destruct (opt_int (m_group found (key "d")) 1) eqn:ED;
      [|intros [= <-]; now apply opt_int_raises in ED].
    cbn [bind]. destruct (valid_date _ _ _); [discriminate|now intros [= <-]].
  - cbn [bind]. intros [= <-]. unfold found_month in EM.
    destruct (m_group found (key "B")), (m_group found (key "b"));
      try destruct (index_of _ _ _); congruence.
Qed.

Lemma strptime_midnight t fmt d :
  strptime t fmt = Ret d ->
  hour d = 0%Z /\ minute d = 0%Z /\ second d = 0%Z /\ microsecond d = 0%Z.
Proof.
  unfold strptime.
  destruct (format_regex false fmt); [|discriminate].
  destruct (re_match flag_i r t) as [found|]; [|discriminate].
  destruct (negb _); [discriminate|].
  destruct (opt_int _ 1900); [|discriminate]. cbn [bind].
  destruct (found_month found); [|discriminate]. cbn [bind].
  destruct (opt_int _ 1); [|discriminate]. cbn [bind].
  destruct (valid_date _ _ _); [|discriminate].
  intros [= <-]. now conj.
Qed.

(** The days of the difference to a midnight are the difference of the
    ordinals. *)
Lemma days_to_midnight now d :
  valid_datetime now = true ->
  hour d = 0%Z /\ minute d = 0%Z /\ second d = 0%Z /\ microsecond d = 0%Z ->
  td_days (datetime_sub now d) = (toordinal now - toordinal d)%Z.
Proof.
  intros V [Hh [Hm [Hs Hu]]]. unfold valid_datetime in V.
  repeat (apply andb_true_iff in V as [V ?]).
  unfold datetime_sub, mk_timedelta. cbn [td_days].
  rewrite Hh, Hm, Hs, Hu.
  repeat match goal with
         | H : (_ <=? _)%Z = true |- _ => apply Z.leb_le in H
         | H : (_ <? _)%Z = true |- _ => apply Z.ltb_lt in H
         end.
  rewrite Z.sub_0_r.
  rewrite (Z.div_small (microsecond now - 0)) by lia.
  rewrite Z.div_small by lia. lia.
Qed.

Lemma try_formats_first now t fmts :
  try_formats now t fmts
  = Ret (match first_parsed t fmts with
         | Some d => (td_days (datetime_sub now d) <=? 7)%Z
         | None => false
         end).
Proof.
  induction fmts as [|fmt more IH]; [reflexivity|].
  cbn [try_formats first_parsed].
  destruct (strptime t fmt) as [d|e] eqn:E; [reflexivity|].
  rewrite (strptime_raises _ _ _ E). exact IH.
Qed.

Lemma first_parsed_some t fmts d :
  first_parsed t fmts = Some d ->
  exists fmt, In fmt fmts /\ strptime t fmt = Ret d.
Proof.
  induction fmts as [|fmt more IH]; [discriminate|].
  cbn [first_parsed]. destruct (strptime t fmt) as [d'|e] eqn:E.
  - intros [= <-]. exists fmt. split; [now left|exact E].
  - intros H. destruct (IH H) as [f [I S]]. exists f. split; [now right|exact S].
Qed.

Lemma absolute_date_result now s d :
  valid_datetime now = true ->
  first_parsed (strip s) date_formats = Some d ->
  within_past_week now s = Ret (toordinal now - toordinal d <=? 7)%Z.
Proof.
  intros V P. destruct (first_parsed_some _ _ _ P) as [fmt [If S]].
  pose proof (strptime_not_relative _ _ _ If S) as NR.
  destruct (strptime_shape _ _ _ If S) as [w [v [Iw [E _]]]].
  assert (Hne : lower (strip s) <> []).
  { rewrite E. assert (X : forallb (fun w => negb (is_empty w)) all_months = true)
      by (vm_compute; reflexivity).
    rewrite forallb_forall in X. specialize (X w Iw). now destruct w. }
  rewrite (within_past_week_rules now s _ eq_refl Hne).
  unfold relative_rule in NR.
  repeat (apply orb_false_iff in NR as [NR ?]).
  rewrite NR.
  repeat match goal with
         | H : is_some ?x = false |- _ =>
             apply is_some_none in H; rewrite H
         end.
  cbn [is_some]. rewrite try_formats_first, P.
  now rewrite (days_to_midnight now d V (strptime_midnight _ _ _ S)).
Qed.

(* ------------------------------------------------------------------ *)
(** ** The day numbers and the calendar *)

Open Scope Z_scope.

Lemma is_leap_year y : is_leap y = leap_year y.
Proof.
  unfold is_leap, leap_year.
  destruct (Z.eqb_spec (y mod 4) 0) as [H4|H4];
    destruct (Z.eqb_spec (y mod 100) 0) as [H100|H100];
    destruct (Z.eqb_spec (y mod 400) 0) as [H400|H400];
    cbn [andb orb negb]; try reflexivity.
  all: exfalso; apply H4; clear H100.
  all: pose proof (Z.div_mod y 400 ltac:(lia)) as E; rewrite H400 in E;
    rewrite E;
    replace (400 * (y / 400) + 0) with ((100 * (y / 400)) * 4) by lia;
    apply Z.mod_mul; lia.
Qed.

Lemma days_before_year_succ y :
  days_before_year (y + 1) = days_before_year y + year_length y.
Proof.
  unfold days_before_year, year_length, leap_year.
  replace (y + 1 - 1) with y by lia.
  destruct (Z.eqb_spec (y mod 4) 0) as [H4|H4];
    destruct (Z.eqb_spec (y mod 100) 0) as [H100|H100];
    destruct (Z.eqb_spec (y mod 400) 0) as [H400|H400];
    cbn [andb orb negb];
    Z.div_mod_to_equations; lia.
Qed.

Lemma days_before_year_mono y1 y2 :
  y1 <= y2 -> days_before_year y1 <= days_before_year y2.
Proof.
  intros H. replace y2 with (y1 + Z.of_nat (Z.to_nat (y2 - y1))) by lia.
  induction (Z.to_nat (y2 - y1)) as [|k IH].
  - replace (y1 + Z.of_nat 0) with y1 by lia. lia.
  - replace (y1 + Z.of_nat (S k)) with (y1 + Z.of_nat k + 1) by lia.
    rewrite days_before_year_succ. unfold year_length.
    destruct (leap_year _); lia.
Qed.

Lemma month_cases m :
  1 <= m <= 12 ->
  m = 1 \/ m = 2 \/ m = 3 \/ m = 4 \/ m = 5 \/ m = 6 \/ m = 7 \/ m = 8
  \/ m = 9 \/ m = 10 \/ m = 11 \/ m = 12.
Proof. lia. Qed.

Ltac each_month H :=
  apply month_cases in H;
  repeat (destruct H as [H|H]); subst.

Lemma days_before_month_table y m :
  1 <= m <= 12 -> days_before_month y m = before_month y m.
Proof.
  intros H. each_month H; unfold days_before_month, before_month;
    cbn [Z.to_nat Pos.to_nat Pos.iter_op Nat.add Nat.sub seq fold_left];
    unfold days_in_month; rewrite ?is_leap_year;
    cbn [Z.of_nat Pos.of_succ_nat Pos.succ Z.eqb Pos.eqb orb Z.ltb Z.compare
         Pos.compare Pos.compare_cont andb];
    destruct (leap_year y); reflexivity.
Qed.

Lemma days_in_month_table y m :
  1 <= m <= 12 -> days_in_month y m = month_length y m.
Proof.
  intros H. each_month H; unfold days_in_month, month_length;
    rewrite ?is_leap_year; reflexivity.
Qed.

Lemma toordinal_table t :
  valid_day t ->
  toordinal t
  = days_before_year (year t) + before_month (year t) (month t) + day t.
Proof.
  intros [Hm _]. unfold toordinal, ymd2ord.
  now rewrite (days_before_month_table _ _ Hm).
Qed.

Lemma toordinal_tomorrow t :
  valid_day t ->
  toordinal (tomorrow t) = toordinal t + 1 /\ valid_day (tomorrow t).
Proof.
  intros V. pose proof V as [Hm Hd].
  assert (T : valid_day (tomorrow t)).
  { unfold tomorrow, valid_day.
    destruct (Z.ltb_spec (day t) (month_length (year t) (month t))) as [L|L];
      cbn [year month day]; [lia|].
    destruct (Z.ltb_spec (month t) 12) as [M|M]; cbn [year month day].
    - split; [lia|]. split; [lia|].
      assert (1 <= month t + 1 <= 12) as Hm' by lia.
      clear - Hm'. revert Hm'. generalize (month t + 1). intros m H.
      each_month H; unfold month_length; try destruct (leap_year _); lia.
    - split; [lia|]. cbn. lia. }
  split; [|exact T].
  rewrite (toordinal_table _ T), (toordinal_table _ V).
  unfold tomorrow.
  destruct (Z.ltb_spec (day t) (month_length (year t) (month t))) as [L|L];
    cbn [year month day]; [lia|].
  assert (Ed : day t = month_length (year t) (month t)) by lia.
  rewrite Ed. clear L Ed Hd T V.
  destruct (Z.ltb_spec (month t) 12) as [M|M]; cbn [year month day].
  - revert Hm M. generalize (month t). intros m Hm M.
    each_month Hm; try lia; unfold before_month, month_length;
      cbn [Z.add Pos.add Pos.succ Z.ltb Z.compare Pos.compare
           Pos.compare_cont andb];
      destruct (leap_year (year t)); cbn [andb]; lia.
  - assert (E12 : month t = 12) by lia. rewrite E12.
    rewrite days_before_year_succ. unfold before_month, month_length, year_length.
    cbn [Z.ltb Z.compare Pos.compare Pos.compare_cont andb].
    rewrite andb_false_r.
    destruct (leap_year (year t)); cbn [andb]; lia.
Qed.

Lemma toordinal_days_later k : forall t,
  valid_day t ->
  toordinal (days_later k t) = toordinal t + Z.of_nat k
  /\ valid_day (days_later k t).
Proof.
  induction k as [|k IH]; intros t V.
  - cbn [days_later]. split; [lia|exact V].
  - cbn [days_later]. destruct (toordinal_tomorrow t V) as [E V'].
    destruct (IH _ V') as [E' V'']. split; [lia|exact V''].
Qed.

Lemma same_day_toordinal a b : same_day a b -> toordinal a = toordinal b.
Proof. intros [Ey [Em Ed]]. unfold toordinal. now rewrite Ey, Em, Ed. Qed.

Lemma toordinal_bounds t :
  valid_day t ->
  days_before_year (year t) < toordinal t <= days_before_year (year t + 1).
Proof.
  intros V. rewrite (toordinal_table t V), days_before_year_succ.
  destruct V as [Hm Hd]. revert Hm Hd. generalize (day t), (month t).
  intros d m Hm Hd. unfold year_length.
  each_month Hm; unfold before_month, month_length in *;
    cbn [Z.ltb Z.compare Pos.compare Pos.compare_cont andb] in *;
    destruct (leap_year (year t)); cbn [andb] in *; lia.
Qed.

(** Two days with the same day number are the same day. *)
Lemma toordinal_inj a b :
  valid_day a -> valid_day b -> toordinal a = toordinal b -> same_day a b.
Proof.
  intros Va Vb E.
  pose proof (toordinal_bounds a Va) as Ba.
  pose proof (toordinal_bounds b Vb) as Bb.
  assert (Ey : year a = year b).
  { destruct (Z.lt_trichotomy (year a) (year b)) as [H|[H|H]]; [|exact H|].
    - pose proof (days_before_year_mono (year a + 1) (year b) ltac:(lia)). lia.
    - pose proof (days_before_year_mono (year b + 1) (year a) ltac:(lia)). lia. }
  rewrite (toordinal_table a Va), (toordinal_table b Vb), Ey in E.
  unfold same_day. split; [exact Ey|].
  destruct Va as [Hma Hda], Vb as [Hmb Hdb]. rewrite Ey in Hda.
  revert Hma Hda Hmb Hdb E.
  generalize (day a), (month a), (day b), (month b), (year b).
  intros da ma db mb y Hma Hda Hmb Hdb E.
  each_month Hma; each_month Hmb; unfold before_month, month_length in *;
    cbn [Z.ltb Z.compare Pos.compare Pos.compare_cont andb] in *;
    destruct (leap_year y); cbn [andb] in *; lia.
Qed.

(** Of two days, one is some days after the other. *)
Lemma days_apart a b :
  valid_day a -> valid_day b ->
  exists k, same_day a (days_later k b) \/ same_day b (days_later k a).
Proof.
  intros Va Vb.
  destruct (Z.le_gt_cases (toordinal b) (toordinal a)) as [H|H].
  - exists (Z.to_nat (toordinal a - toordinal b)). left.
    destruct (toordinal_days_later (Z.to_nat (toordinal a - toordinal b)) b Vb)
      as [E V].
    apply toordinal_inj; [exact Va|exact V|]. lia.
  - exists (Z.to_nat (toordinal b - toordinal a)). right.
    destruct (toordinal_days_later (Z.to_nat (toordinal b - toordinal a)) a Va)
      as [E V].
    apply toordinal_inj; [exact Vb|exact V|]. lia.
Qed.

Lemma valid_date_day t :
  valid_date (year t) (month t) (day t) = true -> valid_day t.
Proof.
  unfold valid_date, valid_day. intros H.
  repeat (apply andb_true_iff in H as [H ?]).
  repeat match goal with
         | H : (_ <=? _) = true |- _ => apply Z.leb_le in H
         end.
  assert (Hm : 1 <= month t <= 12) by lia.
  rewrite (days_in_month_table _ _ Hm) in *. lia.
Qed.

Close Scope Z_scope.

(* ------------------------------------------------------------------ *)
(** ** C5 *)

Lemma strptime_valid t fmt d :
  strptime t fmt = Ret d -> valid_date (year d) (month d) (day d) = true.
Proof.
  unfold strptime.
  destruct (format_regex false fmt); [|discriminate].
  destruct (re_match flag_i r t) as [found|]; [|discriminate].
  destruct (negb _); [discriminate|].
  destruct (opt_int _ 1900); [|discriminate]. cbn [bind].
  destruct (found_month found); [|discriminate]. cbn [bind].
  destruct (opt_int _ 1); [|discriminate]. cbn [bind].
  destruct (valid_date _ _ _) eqn:V; [|discriminate].
  intros [= <-]. exact V.
Qed.

Lemma valid_datetime_day now : valid_datetime now = true -> valid_day now.
Proof.
  unfold valid_datetime. intros H.
  do 8 (apply andb_true_iff in H as [H _]). now apply valid_date_day.
Qed.

Lemma leb_of_nat k : (Z.of_nat k <=? 7)%Z = (k <=? 7).
Proof.
  destruct (Nat.leb_spec k 7) as [H|H].
  - apply Z.leb_le. lia.
  - apply Z.leb_gt. lia.
Qed.

(** The date of the text lies [k] days before the day of [now]. *)
Lemma absolute_date_past now s d k :
  valid_datetime now = true ->
  first_parsed (strip s) date_formats = Some d ->
  same_day now (days_later k d) ->
  within_past_week now s = Ret (k <=? 7).
Proof.
  intros V P S. rewrite (absolute_date_result now s d V P).
  destruct (first_parsed_some _ _ _ P) as [fmt [_ Sp]].
  pose proof (valid_date_day d (strptime_valid _ _ _ Sp)) as Vd.
  destruct (toordinal_days_later k d Vd) as [E _].
  rewrite (same_day_toordinal _ _ S), E.
  replace (toordinal d + Z.of_nat k - toordinal d)%Z with (Z.of_nat k) by lia.
  now rewrite leb_of_nat.
Qed.

(** The date of the text lies [k] days after the day of [now], or is
    that day. *)
Lemma absolute_date_future now s d k :
  valid_datetime now = true ->
  first_parsed (strip s) date_formats = Some d ->
  same_day d (days_later k now) ->
  within_past_week now s = Ret true.
Proof.
  intros V P S. rewrite (absolute_date_result now s d V P).
  destruct (toordinal_days_later k now (valid_datetime_day now V)) as [E _].
  rewrite (same_day_toordinal _ _ S), E. f_equal. apply Z.leb_le. lia.
Qed.

(** C5.  When the trimmed text parses as a date under the formats
    [%b %d, %Y], [%B %d, %Y], [%b. %d, %Y], tried in this order, the
    first date that parses decides, by the days of the calendar that
    lie between it and the day of [now]: when [now] is [k] days after
    the date the answer is whether [k <= 7], so that 7 days back is
    recent and 8 days back is not; when the date is the day of [now] or
    a later day the answer is [True].  One of the two is always the
    case. *)
Theorem absolute_date_within_seven_days (now : datetime) (s : str) (d : datetime) :
  valid_datetime now = true ->
  first_parsed (strip s) date_formats = Some d ->
  (exists k, same_day now (days_later k d) \/ same_day d (days_later k now))
  /\ (forall k, same_day now (days_later k d) ->
                within_past_week now s = Ret (k <=? 7))
  /\ (forall k, same_day d (days_later k now) ->
                within_past_week now s = Ret true)
  /\ (within_past_week now s = Ret true
      <-> (exists k, k <= 7 /\ same_day now (days_later k d))
          \/ (exists k, same_day d (days_later k now))).
Proof.
  intros V P.
  destruct (first_parsed_some _ _ _ P) as [fmt [_ Sp]].
  pose proof (valid_date_day d (strptime_valid _ _ _ Sp)) as Vd.
  pose proof (valid_datetime_day now V) as Vn.
  conj.
  - exact (days_apart now d Vn Vd).
  - intros k S. exact (absolute_date_past now s d k V P S).
  - intros k S. exact (absolute_date_future now s d k V P S).
  - split.
    + intros R. destruct (days_apart now d Vn Vd) as [k [S|S]].
      * left. exists k. split; [|exact S].
        rewrite (absolute_date_past now s d k V P S) in R.
        injection R as R. now apply Nat.leb_le.
      * right. now exists k.
    + intros [[k [Hk S]]|[k S]].
      * rewrite (absolute_date_past now s d k V P S).
        apply Nat.leb_le in Hk. now rewrite Hk.
      * exact (absolute_date_future now s d k V P S).
Qed.

Ltac same := unfold same_day; vm_compute; auto.

Lemma absolute_date_within_seven_days_witness :
  within_past_week now_oct11 (L "Oct 4, 2025") = Ret true
  /\ within_past_week now_oct11 (L "Oct 3, 2025") = Ret false
  /\ within_past_week now_oct11 (L "October 12, 2025") = Ret true
  /\ within_past_week now_oct11 (L " Sep. 30, 2025 ") = Ret false
  /\ within_past_week (late 2024 3 3) (L "Feb 25, 2024") = Ret true
  /\ within_past_week (late 2024 3 3) (L "February 24, 2024") = Ret false
  /\ within_past_week (late 2023 3 3) (L "Feb 24, 2023") = Ret true
  /\ within_past_week (midnight 2026 1 2) (L "Dec 26, 2025") = Ret true
  /\ within_past_week (midnight 2026 1 2) (L "Dec 25, 2025") = Ret false.
Proof.
  conj.
  - exact (proj1 (proj2 (absolute_date_within_seven_days now_oct11
             (L "Oct 4, 2025") (midnight 2025 10 4)
             ltac:(vm_compute; reflexivity) ltac:(vm_compute; reflexivity)))
             7 ltac:(same)).
  - exact (proj1 (proj2 (absolute_date_within_seven_days now_oct11
             (L "Oct 3, 2025") (midnight 2025 10 3)
             ltac:(vm_compute; reflexivity) ltac:(vm_compute; reflexivity)))
             8 ltac:(same)).
  - exact (proj1 (proj2 (proj2 (absolute_date_within_seven_days now_oct11
             (L "October 12, 2025") (midnight 2025 10 12)
             ltac:(vm_compute; reflexivity) ltac:(vm_compute; reflexivity))))
             1 ltac:(same)).
  - exact (proj1 (proj2 (absolute_date_within_seven_days now_oct11
             (L " Sep. 30, 2025 ") (midnight 2025 9 30)
             ltac:(vm_compute; reflexivity) ltac:(vm_compute; reflexivity)))
             11 ltac:(same)).
  - exact (proj1 (proj2 (absolute_date_within_seven_days (late 2024 3 3)
             (L "Feb 25, 2024") (midnight 2024 2 25)
             ltac:(vm_compute; reflexivity) ltac:(vm_compute; reflexivity)))
             7 ltac:(same)).
  - exact (proj1 (proj2 (absolute_date_within_seven_days (late 2024 3 3)
             (L "February 24, 2024") (midnight 2024 2 24)
             ltac:(vm_compute; reflexivity) ltac:(vm_compute; reflexivity)))
             8 ltac:(same)).
  - exact (proj1 (proj2 (absolute_date_within_seven_days (late 2023 3 3)
             (L "Feb 24, 2023") (midnight 2023 2 24)
             ltac:(vm_compute; reflexivity) ltac:(vm_compute; reflexivity)))
             7 ltac:(same)).
  - exact (proj1 (proj2 (absolute_date_within_seven_days (midnight 2026 1 2)
             (L "Dec 26, 2025") (midnight 2025 12 26)
             ltac:(vm_compute; reflexivity) ltac:(vm_compute; reflexivity)))
             7 ltac:(same)).
  - exact (proj1 (proj2 (absolute_date_within_seven_days (midnight 2026 1 2)
             (L "Dec 25, 2025") (midnight 2025 12 25)
             ltac:(vm_compute; reflexivity) ltac:(vm_compute; reflexivity)))
             8 ltac:(same)).
Defined.

(* ------------------------------------------------------------------ *)
(** ** C6 *)

Lemma within_past_week_rules_nonempty now s :
  s <> [] ->
  within_past_week now s =
  let t := lower (strip s) in
  if contains (L "yesterday") t then Ret true
  else if is_some (re_match no_flags re_minutes t) then Ret true
  else if is_some (re_match no_flags re_hours t) then Ret true
  else match re_match no_flags re_days t with
       | Some m => n <- int_group m 1 ;; Ret (n <=? 7)%Z
       | None =>
           match re_match no_flags re_weeks t with
           | Some m => n <- int_group m 1 ;; Ret (n <=? 1)%Z
           | None => try_formats now (strip s) date_formats
           end
       end.
Proof. intros H. destruct s; [congruence|reflexivity]. Qed.

(** In a match of a pattern that begins with [(\d+)], group 1 is a
    numeral at the head of the text. *)
Lemma counted_group_head R t m :
  no_group 1 R = true ->
  re_match no_flags (Cat (Group 1 (Plus Digit)) R) t = Some m ->
  exists u v, m_group m 1 = Some u /\ t = u ++ v
              /\ numeral_of u (digits_value u).
Proof.
  intros HG M. unfold re_match in M.
  destruct (match_at_head _ _ _ _ _ M) as [st [H [G _]]].
  apply exec_cat_inv in H as [mid [H1 H2]].
  destruct (exec_group_binds _ _ _ _ _ H1) as [u [B [E F]]].
  assert (Hne : u <> []).
  { intros ->. cbn [exec] in H1. apply in_map_iff in H1 as [st0 [<- H1]].
    apply exec_plus_nonempty in H1. cbn [rest] in *. now rewrite E in H1. }
  exists u, (rest mid). unfold m_group. rewrite G.
  rewrite (exec_other_groups no_flags 1 R mid st HG H2), B.
  cbn [rest] in E. unfold numeral_of. now conj.
Qed.

Lemma lstrip_length s : List.length (lstrip s) <= List.length s.
Proof.
  destruct (lstrip_suffix s) as [w E]. rewrite E at 2.
  rewrite length_app. lia.
Qed.

Lemma strip_length s : List.length (strip s) <= List.length s.
Proof.
  unfold strip. destruct (rstrip_prefix (lstrip s)) as [w E].
  pose proof (lstrip_length s) as H. rewrite E in H at 1.
  rewrite length_app in H. lia.
Qed.

Lemma counted_group_int R t m :
  no_group 1 R = true ->
  re_match no_flags (Cat (Group 1 (Plus Digit)) R) t = Some m ->
  List.length t <= max_str_digits ->
  exists n, int_group m 1 = Ret n.
Proof.
  intros HG M Hl.
  destruct (counted_group_head R t m HG M) as [u [v [G [E N]]]].
  unfold int_group. rewrite G. exists (digits_value u).
  apply (int_numeral u _ N). rewrite E, length_app in Hl. lia.
Qed.

(** A text of at most 4300 characters is answered. *)
Lemma within_past_week_returns now s :
  List.length s <= max_str_digits -> exists b, within_past_week now s = Ret b.
Proof.
  intros Hl. destruct s as [|c s]; [now exists false|].
  rewrite within_past_week_rules_nonempty by discriminate. cbv zeta.
  assert (Ht : List.length (lower (strip (c :: s))) <= max_str_digits).
  { unfold lower. rewrite length_map.
    pose proof (strip_length (c :: s)). lia. }
  destruct (contains _ _); [now eexists|].
  destruct (is_some _); [now eexists|].
  destruct (is_some _); [now eexists|].
  destruct (re_match no_flags re_days _) as [m|] eqn:MD.
  - change re_days with (Cat (Group 1 (Plus Digit)) after_days) in MD.
    destruct (counted_group_int after_days _ m eq_refl MD Ht) as [n ->].
    now eexists.
  - destruct (re_match no_flags re_weeks _) as [m|] eqn:MW.
    + change re_weeks with (Cat (Group 1 (Plus Digit)) after_weeks) in MW.
      destruct (counted_group_int after_weeks _ m eq_refl MW Ht) as [n ->].
      now eexists.
    + rewrite try_formats_first. now eexists.
Qed.

Lemma int_group_raises m e : int_group m 1 = Raise e -> e = ValueError \/ e = TypeError.
Proof.
  unfold int_group. destruct (m_group m 1); [|intros [= <-]; now right].
  intros H. left. exact (int_raises _ _ H).
Qed.

(** The classifier raises nothing but the [ValueError] of [int]. *)
Lemma within_past_week_raises now s e :
  within_past_week now s = Raise e -> e = ValueError.
Proof.
  destruct s as [|c s]; [discriminate|].
  rewrite within_past_week_rules_nonempty by discriminate. cbv zeta.
  destruct (contains _ _); [discriminate|].
  destruct (is_some _); [discriminate|].
  destruct (is_some _); [discriminate|].
  destruct (re_match no_flags re_days _) as [m|] eqn:MD.
  - change re_days with (Cat (Group 1 (Plus Digit)) after_days) in MD.
    destruct (counted_group_head after_days _ m eq_refl MD) as [u [v [G _]]].
    unfold int_group. rewrite G.
    destruct (int_ u) eqn:I; [discriminate|]. cbn [bind].
    intros [= <-]. exact (int_raises _ _ I).
  - destruct (re_match no_flags re_weeks _) as [m|] eqn:MW.
    + change re_weeks with (Cat (Group 1 (Plus Digit)) after_weeks) in MW.
      destruct (counted_group_head after_weeks _ m eq_refl MW) as [u [v [G _]]].
      unfold int_group. rewrite G.
      destruct (int_ u) eqn:I; [discriminate|]. cbn [bind].
      intros [= <-]. exact (int_raises _ _ I).
    + rewrite try_formats_first. discriminate.
Qed.

(** A text that no rule and no date format recognizes is not recent. *)
Lemma unrecognized_false now s :
  relative_rule (lower (strip s)) = false ->
  first_parsed (strip s) date_formats = None ->
  within_past_week now s = Ret false.
Proof.
  intros NR P. destruct s as [|c s]; [reflexivity|].
  rewrite within_past_week_rules_nonempty by discriminate. cbv zeta.
  unfold relative_rule in NR.
  repeat (apply orb_false_iff in NR as [NR ?]).
  rewrite NR.
  repeat match goal with
         | H : is_some ?x = false |- _ =>
             apply is_some_none in H; rewrite H
         end.
  cbn [is_some]. now rewrite try_formats_first, P.
Qed.

Lemma long_numeral_raises now :
  within_past_week now (long_numeral ++ L " days ago") = Raise ValueError
  /\ within_past_week now (long_numeral ++ L " weeks ago") = Raise ValueError.
Proof.
  destruct long_numeral_facts as [Hn Hl].
  assert (Yd : contains (L "yesterday")
                        (lower (strip (long_numeral ++ L " days ago"))) = false)
    by (vm_compute; reflexivity).
  assert (Yw : contains (L "yesterday")
                        (lower (strip (long_numeral ++ L " weeks ago"))) = false)
    by (vm_compute; reflexivity).
  split.
  - rewrite (day_unit_window now _ long_numeral _ (L " ") "days" (L " ") []
               Hn (or_intror (or_introl eq_refl)) eq_refl eq_refl);
      [now rewrite Yd, Hl|vm_compute; reflexivity].
  - rewrite (week_unit_window now _ long_numeral _ (L " ") "weeks" (L " ") []
               Hn (or_intror (or_introl eq_refl)) eq_refl eq_refl);
      [now rewrite Yw, Hl|vm_compute; reflexivity].
Qed.

(** Whether the classifier raises does not depend on the clock. *)
Lemma raise_any_clock now now' s e :
  within_past_week now s = Raise e -> within_past_week now' s = Raise e.
Proof.
  destruct s as [|c s]; [discriminate|].
  rewrite !within_past_week_rules_nonempty by discriminate. cbv zeta.
  destruct (contains _ _); [discriminate|].
  destruct (is_some _); [discriminate|].
  destruct (is_some _); [discriminate|].
  destruct (re_match no_flags re_days _) as [m|]; [exact (fun H => H)|].
  destruct (re_match no_flags re_weeks _) as [m|]; [exact (fun H => H)|].
  rewrite try_formats_first. discriminate.
Qed.

(** C6.  The classifier is not total: on a date of 4301 digits and
    [days ago] (or [weeks ago]) the call of [int] raises a [ValueError]
    that nothing catches, whatever the clock shows. *)
Theorem classifier_raises_beyond_int_limit :
  forall now,
    within_past_week now (long_numeral ++ L " days ago") = Raise ValueError
    /\ within_past_week now (long_numeral ++ L " weeks ago")
       = Raise ValueError.
Proof. exact long_numeral_raises. Qed.

(* ------------------------------------------------------------------ *)
(** ** Text after a counted date *)

(** Text after [ago] does not keep a counted date from matching. *)
Lemma counted_with_trailing_text now s (ds : str) n ws1 u ws2 (tail : str) :
  numeral_of ds n -> blank ws1 = true -> blank ws2 = true ->
  lower (strip s) = counted ds ws1 u ws2 ++ tail ->
  (In u short_units -> within_past_week now s = Ret true)
  /\ (In u day_units -> List.length ds <= max_str_digits ->
      within_past_week now s
      = Ret (contains (L "yesterday") (lower (strip s)) || (n <=? 7)%Z))
  /\ (In u week_units -> List.length ds <= max_str_digits ->
      within_past_week now s
      = Ret (contains (L "yesterday") (lower (strip s)) || (n <=? 1)%Z)).
Proof.
  intros Hn B1 B2 E. pose proof Hn as [Hne [Hd _]]. conj.
  - intros Hu. exact (short_unit_recent now s ds ws1 u ws2 tail Hne Hd Hu B1 B2 E).
  - intros Hu Hl.
    rewrite (day_unit_window now s ds n ws1 u ws2 tail Hn Hu B1 B2 E).
    apply Nat.leb_le in Hl. rewrite Hl. now destruct (contains _ _).
  - intros Hu Hl.
    rewrite (week_unit_window now s ds n ws1 u ws2 tail Hn Hu B1 B2 E).
    apply Nat.leb_le in Hl. rewrite Hl. now destruct (contains _ _).
Qed.

(* ------------------------------------------------------------------ *)
(** ** C9 *)

Lemma month_then_sep_split (w v a b : str) dch :
  forallb (fun c => negb (sep c)) w = true -> sep dch = true ->
  w ++ v = a ++ dch :: b -> exists v1, v = v1 ++ dch :: b.
Proof.
  revert a; induction w as [|y w IH]; intros a Hw Hd E.
  - now exists a.
  - simpl in Hw. apply andb_true_iff in Hw as [Hy Hw].
    destruct a as [|y' a]; simpl in E; injection E as -> E.
    + rewrite Hd in Hy. discriminate.
    + now apply (IH a).
Qed.

Lemma digit_sep c : is_digit c = true -> sep c = true.
Proof. unfold sep. intros ->. now rewrite orb_true_r. Qed.

(** A text with a letter somewhere after a digit is no date. *)
Lemma digit_then_letter_no_date t fmt d (a b : str) dch x :
  In fmt date_formats -> strptime t fmt = Ret d ->
  lower t = a ++ dch :: b -> is_digit dch = true ->
  In x b -> sep x = false -> False.
Proof.
  intros Hf S E Hd Ix Hx.
  destruct (strptime_shape t fmt d Hf S) as [w [v [Iw [E' F]]]].
  assert (X : forallb (fun w => forallb (fun c => negb (sep c)) w) all_months
              = true) by (vm_compute; reflexivity).
  rewrite forallb_forall in X. specialize (X w Iw).
  rewrite E' in E.
  destruct (month_then_sep_split w v a b dch X (digit_sep _ Hd) E) as [v1 ->].
  rewrite forallb_forall in F.
  assert (Fx : sep x = true) by (apply F; apply in_or_app; right; now right).
  congruence.
Qed.

(** A text that holds a numeral and, further on, [ago] is no date of
    the three formats: when no rule applies to it, it is not recent. *)
Lemma prefixed_counted_false now s (p ds : str) n ws1 u ws2 (tail : str) :
  numeral_of ds n ->
  lower (strip s) = p ++ counted ds ws1 u ws2 ++ tail ->
  relative_rule (lower (strip s)) = false ->
  within_past_week now s = Ret false.
Proof.
  intros [Hne [Hd Hv]] E NR. apply unrecognized_false; [exact NR|].
  destruct (first_parsed (strip s) date_formats) as [d|] eqn:P; [|reflexivity].
  exfalso. destruct (first_parsed_some _ _ _ P) as [fmt [Hf S]].
  destruct ds as [|dch ds]; [congruence|].
  simpl in Hd. apply andb_true_iff in Hd as [Hd _].
  apply (digit_then_letter_no_date (strip s) fmt d p
           ((ds ++ ws1 ++ L u ++ ws2 ++ L "ago") ++ tail) dch "a" Hf S);
    [exact E|exact Hd| |reflexivity].
  apply in_or_app. left. apply in_or_app. right.
  apply in_or_app. right. apply in_or_app. right.
  apply in_or_app. right. simpl. tauto.
Qed.

Lemma not_relative t :
  starts_with_digit t = false -> contains (L "yesterday") t = false ->
  relative_rule t = false.
Proof.
  intros D Y. unfold relative_rule.
  destruct (counted_need_digit _ D) as [-> [-> [-> ->]]]. now rewrite Y.
Qed.

Lemma yesterday_no_space (y : str) c :
  lower y = L "yesterday" -> In c y -> is_space c = false.
Proof.
  intros E I. rewrite <- lower_space.
  assert (J : In (lower_char c) (L "yesterday"))
    by (rewrite <- E; now apply in_map).
  assert (X : forallb (fun x => negb (is_space x)) (L "yesterday") = true)
    by reflexivity.
  rewrite forallb_forall in X. now apply negb_true_iff, X.
Qed.

(** [strip] keeps a word that lies in the text. *)
Lemma strip_keeps (a y b : str) :
  y <> [] -> (forall c, In c y -> is_space c = false) ->
  strip (a ++ y ++ b) = lstrip a ++ y ++ rstrip b.
Proof.
  intros Hne Hy. unfold strip.
  rewrite lstrip_app_stop.
  - rewrite app_assoc, rstrip_app_stop; [now rewrite <- app_assoc| |].
    + intros c x' E. rewrite rev_app_distr in E.
      destruct (rev y) as [|c' r] eqn:R.
      * apply (f_equal (@rev ascii)) in R. rewrite rev_involutive in R.
        now subst y.
      * simpl in E. injection E as <- _. apply Hy, in_rev. rewrite R. now left.
    + destruct (lstrip a), y; try discriminate. congruence.
  - intros c y' E. apply Hy. destruct y as [|c0 y]; [congruence|].
    simpl in E. injection E as <- _. now left.
  - destruct y; [congruence|discriminate].
Qed.

Lemma yesterday_anywhere now (a y b : str) :
  lower y = L "yesterday" -> within_past_week now (a ++ y ++ b) = Ret true.
Proof.
  intros E. assert (Hne : y <> []) by (intros ->; discriminate).
  rewrite within_past_week_rules_nonempty
    by (destruct a, y; try discriminate; congruence).
  cbv zeta. rewrite (strip_keeps a y b Hne (fun c => yesterday_no_space y c E)).
  now rewrite !lower_app, E, contains_mid.
Qed.

(** C9, the claim as it is written: a counted date with text before it
    is recent when that text is a counted date of its own. *)
Lemma prefix_counterexample :
  within_past_week now_oct11 (L "5 mins ago, 9 days ago") = Ret true.
Proof. vm_compute. reflexivity. Qed.

(** C9.  The four counted patterns are tried at the start of the
    trimmed, lowered text only: when that text does not begin with a
    digit none of them matches.  A text in which a counted date stands
    behind other text is not recent unless one of the rules applies to
    the text from its start or [yesterday] occurs in it; in particular
    it is not recent when it does not begin with a digit and holds no
    [yesterday].  Text after [ago] does not matter (the numeral of a
    date in days or weeks being one that [int] accepts).  The word
    [yesterday] is looked for in the whole text. *)
Theorem counted_patterns_anchored_at_start :
  (forall t, starts_with_digit t = false ->
     re_match no_flags re_minutes t = None
     /\ re_match no_flags re_hours t = None
     /\ re_match no_flags re_days t = None
     /\ re_match no_flags re_weeks t = None)
  /\ (forall now s (p ds : str) n ws1 u ws2 (tail : str),
        numeral_of ds n ->
        lower (strip s) = p ++ counted ds ws1 u ws2 ++ tail ->
        relative_rule (lower (strip s)) = false ->
        within_past_week now s = Ret false)
  /\ (forall now s (p ds : str) n ws1 u ws2 (tail : str),
        numeral_of ds n ->
        lower (strip s) = p ++ counted ds ws1 u ws2 ++ tail ->
        starts_with_digit (lower (strip s)) = false ->
        contains (L "yesterday") (lower (strip s)) = false ->
        within_past_week now s = Ret false)
  /\ (forall now s (ds : str) n ws1 u ws2 (tail : str),
        numeral_of ds n -> blank ws1 = true -> blank ws2 = true ->
        lower (strip s) = counted ds ws1 u ws2 ++ tail ->
        (In u short_units -> within_past_week now s = Ret true)
        /\ (In u day_units -> List.length ds <= max_str_digits ->
            within_past_week now s
            = Ret (contains (L "yesterday") (lower (strip s))
                   || (n <=? 7)%Z))
        /\ (In u week_units -> List.length ds <= max_str_digits ->
            within_past_week now s
            = Ret (contains (L "yesterday") (lower (strip s))
                   || (n <=? 1)%Z)))
  /\ (forall now (a y b : str),
        lower y = L "yesterday" -> within_past_week now (a ++ y ++ b) = Ret true).
Proof.
  conj.
  - exact counted_need_digit.
  - exact prefixed_counted_false.
  - intros now s p ds n ws1 u ws2 tail Hn E D Y.
    exact (prefixed_counted_false now s p ds n ws1 u ws2 tail Hn E
             (not_relative _ D Y)).
  - exact counted_with_trailing_text.
  - exact yesterday_anywhere.
Qed.

Lemma counted_patterns_anchored_at_start_witness :
  within_past_week now_oct11 (L "about 3 days ago") = Ret false
  /\ within_past_week now_oct11 (L "12 or about 3 days ago") = Ret false
  /\ within_past_week now_oct11 (L "3 days ago, updated") = Ret true
  /\ within_past_week now_oct11 (L "9 days ago, updated") = Ret false
  /\ within_past_week now_oct11 (L "Posted Yesterday at 5pm") = Ret true.
Proof.
  assert (U : forall k, (k <= 3)%nat -> k <= max_str_digits)
    by (intros k H; unfold max_str_digits; lia).
  assert (N3 : numeral_of (L "3") 3)
    by (unfold numeral_of; conj; discriminate || reflexivity).
  assert (N9 : numeral_of (L "9") 9)
    by (unfold numeral_of; conj; discriminate || reflexivity).
  conj.
  - exact (proj1 (proj2 (proj2 counted_patterns_anchored_at_start))
             now_oct11 (L "about 3 days ago") (L "about ") (L "3") 3%Z
             (L " ") "days"%string (L " ") [] N3 eq_refl eq_refl eq_refl).
  - exact (proj1 (proj2 counted_patterns_anchored_at_start)
             now_oct11 (L "12 or about 3 days ago") (L "12 or about ")
             (L "3") 3%Z (L " ") "days"%string (L " ") [] N3 eq_refl
             ltac:(vm_compute; reflexivity)).
  - exact (proj1 (proj2 (proj1 (proj2 (proj2 (proj2
             counted_patterns_anchored_at_start)))
             now_oct11 (L "3 days ago, updated") (L "3") 3%Z (L " ")
             "days"%string (L " ") (L ", updated") N3 eq_refl eq_refl eq_refl))
             ltac:(simpl; tauto) ltac:(apply U; cbn; lia)).
  - exact (proj1 (proj2 (proj1 (proj2 (proj2 (proj2
             counted_patterns_anchored_at_start)))
             now_oct11 (L "9 days ago, updated") (L "9") 9%Z (L " ")
             "days"%string (L " ") (L ", updated") N9 eq_refl eq_refl eq_refl))
             ltac:(simpl; tauto) ltac:(apply U; cbn; lia)).
  - exact (proj2 (proj2 (proj2 (proj2 counted_patterns_anchored_at_start)))
             now_oct11 (L "Posted ") (L "Yesterday") (L " at 5pm") eq_refl).
Defined.

(* ================================================================== *)
(** * Proofs for the callers *)

Import Py News Llm Web.

(** ** [strip] once more *)

Lemma lstrip_head s c s' : lstrip s = c :: s' -> is_space c = false.
Proof.
  induction s as [|x s IH]; simpl; [discriminate|].
  destruct (is_space x) eqn:E; [exact IH|].
  intros H. injection H as <- _. exact E.
Qed.

Lemma rstrip_last s c s' : rev (rstrip s) = c :: s' -> is_space c = false.
Proof.
  unfold rstrip. rewrite rev_involutive. apply lstrip_head.
Qed.

Lemma rstrip_head s c s' :
  (forall x t, s = x :: t -> is_space x = false) ->
  rstrip s = c :: s' -> is_space c = false.
Proof.
  intros H E. destruct (rstrip_prefix s) as [w Hw].
  rewrite E in Hw. simpl in Hw. exact (H c _ Hw).
Qed.

Lemma strip_head s c s' : strip s = c :: s' -> is_space c = false.
Proof.
  unfold strip. apply rstrip_head. intros x t. apply lstrip_head.
Qed.

Lemma strip_last s c s' : rev (strip s) = c :: s' -> is_space c = false.
Proof. unfold strip. apply rstrip_last. Qed.

(** What [strip] returns has no blank at either end: a second [strip]
    changes nothing. *)
Lemma strip_idem s : strip (strip s) = strip s.
Proof.
  apply strip_id.
  - intros c s'. apply strip_head.
  - intros c s'. apply strip_last.
Qed.

Lemma lstrip_blank s : forallb is_space s = true -> lstrip s = [].
Proof.
  induction s as [|c s IH]; [reflexivity|]. simpl.
  intros H. apply andb_true_iff in H as [-> H]. exact (IH H).
Qed.

Lemma strip_blank s : forallb is_space s = true -> strip s = [].
Proof. intros H. unfold strip. now rewrite (lstrip_blank s H). Qed.

Lemma lstrip_nil_blank s : lstrip s = [] -> forallb is_space s = true.
Proof.
  induction s as [|c s IH]; [reflexivity|]. simpl.
  destruct (is_space c); [exact IH|discriminate].
Qed.

Lemma forallb_rev {A} (p : A -> bool) l : forallb p (rev l) = forallb p l.
Proof.
  induction l as [|x l IH]; [reflexivity|]. simpl.
  rewrite forallb_app, IH. simpl. rewrite andb_true_r. apply andb_comm.
Qed.

Lemma strip_nil_blank s : strip s = [] -> forallb is_space s = true.
Proof.
  unfold strip, rstrip. intros H.
  apply (f_equal (@rev ascii)) in H. rewrite rev_involutive in H. simpl in H.
  apply lstrip_nil_blank in H. rewrite forallb_rev in H.
  destruct (lstrip_suffix s) as [w Hw].
  assert (Hws : forallb is_space w = true).
  { clear H. revert w Hw. induction s as [|c s IH]; intros w Hw.
    - destruct w; [reflexivity|discriminate].
    - simpl in Hw. destruct (is_space c) eqn:E.
      + destruct w as [|x w].
        * simpl in Hw. pose proof (lstrip_suffix s) as [w' Hw'].
          apply (f_equal (@List.length ascii)) in Hw.
          rewrite Hw' in Hw at 1. simpl in Hw. rewrite length_app in Hw. lia.
        * simpl in Hw. injection Hw as <- Hw. simpl. rewrite E.
          exact (IH w Hw).
      + destruct w as [|x w]; [reflexivity|].
        apply (f_equal (@List.length ascii)) in Hw. simpl in Hw.
        rewrite length_app in Hw. simpl in Hw. lia. }
  rewrite Hw, forallb_app, Hws, H. reflexivity.
Qed.

(* ------------------------------------------------------------------ *)
(** ** The date filter and the blanks around a date *)

(** X11.  The blanks around a date do not count: the filter gives the
    same answer for a text and for the text without the blanks at its
    two ends, whatever the clock shows; a text of blanks only is
    answered like the empty text, with [False]. *)
Theorem within_past_week_ignores_outer_blanks :
  (forall now s, within_past_week now (strip s) = within_past_week now s)
  /\ (forall now s, forallb is_space s = true ->
                    within_past_week now s = Ret false).
Proof.
  assert (B : forall now s, forallb is_space s = true ->
                            within_past_week now s = Ret false).
  { intros now s H. destruct s as [|c s]; [reflexivity|].
    rewrite within_past_week_rules_nonempty by discriminate. cbv zeta.
    rewrite (strip_blank _ H). vm_compute. reflexivity. }
  split; [|exact B].
  intros now s. destruct (strip s) as [|c t] eqn:E.
  - symmetry. apply B. apply strip_nil_blank. exact E.
  - assert (Hs : s <> []) by (intros ->; discriminate).
    rewrite (within_past_week_rules_nonempty now s Hs).
    rewrite within_past_week_rules_nonempty by discriminate.
    rewrite <- E, strip_idem. reflexivity.
Qed.

Lemma within_past_week_ignores_outer_blanks_witness :
  within_past_week now_oct11 (L "   ") = Ret false.
Proof.
  apply (proj2 within_past_week_ignores_outer_blanks). vm_compute. reflexivity.
Defined.

(* ------------------------------------------------------------------ *)
(** ** The keyword of the form *)

Lemma form_keyword_facts (field : option str) :
  form_keyword field <> []
  /\ strip (form_keyword field) = form_keyword field
  /\ form_keyword field
     = match field with
       | Some s => if forallb is_space s then default_keyword else strip s
       | None => default_keyword
       end.
Proof.
  assert (D : strip default_keyword = default_keyword)
    by (vm_compute; reflexivity).
  unfold form_keyword. destruct field as [s|].
  - destruct s as [|c s]; cbn [is_empty].
    + rewrite D. cbn. repeat split; discriminate.
    + destruct (strip (c :: s)) as [|x t] eqn:E; cbn [is_empty].
      * rewrite (strip_nil_blank _ E). repeat split; discriminate.
      * destruct (forallb is_space (c :: s)) eqn:B.
        -- rewrite (strip_blank _ B) in E. discriminate.
        -- rewrite <- E. repeat split.
           ++ rewrite E. discriminate.
           ++ apply strip_idem.
  - rewrite D. cbn. repeat split; discriminate.
Qed.

(** X10.  The keyword that [generate] works with is never empty and has
    no blank at either end: it is the field without its outer blanks, and
    the default when the field is missing, empty or made of blanks. *)
Theorem form_keyword_normalized (field : option str) :
  form_keyword field <> []
  /\ strip (form_keyword field) = form_keyword field
  /\ form_keyword field
     = match field with
       | Some s => if forallb is_space s then default_keyword else strip s
       | None => default_keyword
       end.
Proof. exact (form_keyword_facts field). Qed.

(* ------------------------------------------------------------------ *)
(** ** Reading a result *)

Lemma bind_ret {A B} (e : res A) (k : A -> res B) y :
  bind e k = Ret y -> exists a, e = Ret a /\ k a = Ret y.
Proof. destruct e as [a|x]; simpl; [now exists a|discriminate]. Qed.

Lemma bind_attr {A B} (e : res A) (k : A -> res B) :
  (forall x, e = Raise x -> x = AttributeError) ->
  (forall a x, k a = Raise x -> x = AttributeError) ->
  forall x, bind e k = Raise x -> x = AttributeError.
Proof.
  intros He Hk x. destruct e as [a|y]; simpl.
  - apply Hk.
  - intros H. injection H as <-. now apply He.
Qed.

Lemma get_attr o k x : get o k = Raise x -> x = AttributeError.
Proof. destruct o; simpl; congruence. Qed.

Lemma strip__attr v x : strip_ v = Raise x -> x = AttributeError.
Proof. destruct v; simpl; congruence. Qed.

Lemma or_attr a b :
  (forall x, b = Raise x -> x = AttributeError) ->
  forall x, or_ a b = Raise x -> x = AttributeError.
Proof. unfold or_. destruct (truthy a); [discriminate|auto]. Qed.

Lemma ret_attr {A} (a : A) x : Ret a = Raise x -> x = AttributeError.
Proof. discriminate. Qed.

Ltac attr :=
  repeat first
    [ apply ret_attr
    | apply get_attr
    | apply strip__attr
    | apply or_attr
    | apply bind_attr; [|intros ?] ].

(** The only exception of [read_item] is an [AttributeError]. *)
Lemma read_item_attr it x : read_item it = Raise x -> x = AttributeError.
Proof.
  revert x. unfold read_item. attr.
  destruct a8; attr.
Qed.

Lemma strip__trimmed v s : strip_ v = Ret s -> trimmed s.
Proof.
  destruct v; simpl; try discriminate.
  intros H. injection H as <-. apply strip_idem.
Qed.

Ltac binds H :=
  repeat (let a := fresh "a" in let E := fresh "E" in
          apply bind_ret in H as (a & E & H)).

Lemma read_item_trimmed it x : read_item it = Ret x -> fields_trimmed x.
Proof.
  unfold read_item. intros H. binds H. injection H as <-.
  unfold fields_trimmed; cbn.
  repeat split; eapply strip__trimmed; eassumption.
Qed.

Lemma nameless_source_raises it :
  nameless_source it = true -> read_item it = Raise AttributeError.
Proof.
  intros N. destruct (read_item it) as [x|e] eqn:R.
  - exfalso. destruct it; try discriminate N. cbn [nameless_source] in N.
    destruct (dict_get d (L "source")) as [|b0|n0|x0|s0|l0|sd] eqn:S;
      try discriminate N.
    unfold read_item in R. cbn [get bind] in R. rewrite S in R.
    cbn [get bind] in R.
    destruct (dict_get sd (L "name")) eqn:Nm; try discriminate N;
      binds R; cbn in *; discriminate.
  - f_equal. exact (read_item_attr _ _ R).
Qed.

(* ------------------------------------------------------------------ *)
(** ** The body of the loop *)

Lemma recent_spec now x b :
  within_past_week now (date x) = Ret b -> recent now x = b.
Proof. unfold recent. intros ->. now destruct b. Qed.

(** The body of the loop, when the filter answers the date. *)
Lemma step_answered clock st it x b :
  read_item it = Ret x ->
  within_past_week (clock (ticks st)) (date x) = Ret b ->
  step clock st it = Ret (keep st (recent (clock (ticks st)) x) x).
Proof.
  intros R Hb. unfold step. rewrite R. cbn [bind].
  rewrite Hb, (recent_spec _ _ _ Hb). cbn [bind]. unfold keep. cbv zeta.
  cbn [seen all_items ticks].
  destruct b, (is_empty (url x)), (in_seen (url x) (seen st)),
    (is_empty (title x)), (is_empty (snippet x)); reflexivity.
Qed.

(** What a step that returns has done. *)
Lemma step_ret clock st it st' :
  step clock st it = Ret st' ->
  exists x, read_item it = Ret x
            /\ st' = keep st (recent (clock (ticks st)) x) x.
Proof.
  intros E. destruct (read_item it) as [x|e] eqn:R;
    [|unfold step in E; rewrite R in E; discriminate].
  exists x. split; [reflexivity|].
  destruct (within_past_week (clock (ticks st)) (date x)) as [b|e] eqn:Hb;
    [|unfold step in E; rewrite R in E; cbn [bind] in E; rewrite Hb in E;
      discriminate].
  rewrite (step_answered clock st it x b R Hb) in E. now injection E.
Qed.

Lemma short_date_answered now it x :
  short_date it = true -> read_item it = Ret x ->
  exists b, within_past_week now (date x) = Ret b.
Proof.
  unfold short_date. intros S R. rewrite R in S.
  apply within_past_week_returns. now apply Nat.leb_le.
Qed.

(** The body of the loop on a result with a short date. *)
Lemma step_eq clock st it :
  short_date it = true ->
  step clock st it
  = (x <- read_item it ;; Ret (keep st (recent (clock (ticks st)) x) x)).
Proof.
  intros S. destruct (read_item it) as [x|e] eqn:R; cbn [bind].
  - destruct (short_date_answered (clock (ticks st)) it x S R) as [b Hb].
    exact (step_answered clock st it x b R Hb).
  - unfold step. now rewrite R.
Qed.

Lemma step_attr clock st it x :
  short_date it = true -> step clock st it = Raise x -> x = AttributeError.
Proof.
  intros S. rewrite (step_eq clock st it S).
  destruct (read_item it) as [y|e] eqn:R; cbn [bind].
  - discriminate.
  - intros H. injection H as <-. exact (read_item_attr _ _ R).
Qed.

Lemma loop_attr clock its : forall st x,
  forallb short_date its = true ->
  loop clock st its = Raise x -> x = AttributeError.
Proof.
  induction its as [|it its IH]; intros st x S; simpl; [discriminate|].
  cbn in S. apply andb_true_iff in S as [Si S].
  revert x. apply bind_attr.
  - intros x. now apply step_attr.
  - intros a x. now apply IH.
Qed.

Lemma loop_unreadable clock it its :
  In it its -> (forall x, read_item it <> Ret x) ->
  forallb short_date its = true ->
  forall st, loop clock st its = Raise AttributeError.
Proof.
  intros Hin Hbad S st.
  destruct (loop clock st its) as [st'|e] eqn:E.
  - exfalso. clear S. revert st E. induction its as [|i its IH]; [destruct Hin|].
    intros st E. simpl in E. apply bind_ret in E as (st1 & E1 & E).
    destruct Hin as [->|Hin].
    + apply step_ret in E1 as (x & R & _). exact (Hbad x R).
    + exact (IH Hin st1 E).
  - f_equal. exact (loop_attr _ _ _ _ S E).
Qed.

(* ------------------------------------------------------------------ *)
(** ** What the loops keep true *)

Lemma str_eqb_eq a b : str_eqb a b = true <-> a = b.
Proof.
  revert b; induction a as [|x a IH]; intros [|y b]; simpl;
    try (split; [discriminate|congruence]); [tauto|].
  rewrite andb_true_iff, Ascii.eqb_eq, IH. split.
  - intros [-> ->]. reflexivity.
  - intros H. injection H as -> ->. tauto.
Qed.

Lemma str_eqb_refl a : str_eqb a a = true.
Proof. now apply str_eqb_eq. Qed.

Lemma in_seen_In u l : in_seen u l = true <-> In u l.
Proof.
  unfold in_seen. rewrite existsb_exists. split.
  - intros (y & Hy & E). apply str_eqb_eq in E. now subst.
  - intros H. exists u. split; [exact H|apply str_eqb_refl].
Qed.

Lemma links_app xs ys : links (xs ++ ys) = links xs ++ links ys.
Proof. unfold links. now rewrite map_app, filter_app. Qed.

Lemma is_empty_nil (s : str) : is_empty s = true <-> s = [].
Proof. destruct s; simpl; split; congruence. Qed.

(** The links of the list are distinct, [seen] holds just these links,
    and every item of the list is presentable. *)
Lemma keep_invariant clock st x :
  fields_trimmed x ->
  NoDup (links (all_items st)) ->
  (forall u, In u (seen st) <-> In u (links (all_items st))) ->
  Forall (presentable clock) (all_items st) ->
  let st' := keep st (recent (clock (ticks st)) x) x in
  NoDup (links (all_items st'))
  /\ (forall u, In u (seen st') <-> In u (links (all_items st')))
  /\ Forall (presentable clock) (all_items st').
Proof.
  intros T N Hs P. unfold keep. cbv zeta. cbn [all_items seen ticks].
  destruct (recent (clock (ticks st)) x) eqn:R; cbn [negb];
    [|cbn; auto].
  assert (Px : nonblank x = true -> presentable clock x).
  { intros NB. split; [exact NB|]. split; [exact T|now exists (ticks st)]. }
  destruct (is_empty (url x)) eqn:U; cbn [negb andb orb].
  - assert (L0 : links [x] = [])
      by (unfold links; cbn; now rewrite U).
    destruct (negb (is_empty (title x)) || negb (is_empty (snippet x)) || false)
      eqn:NB; cbn [all_items seen]; [|auto].
    rewrite links_app, L0, app_nil_r. split; [exact N|]. split; [exact Hs|].
    apply Forall_app. split; [exact P|]. constructor; [|constructor].
    apply Px. unfold nonblank. rewrite U. exact NB.
  - destruct (in_seen (url x) (seen st)) eqn:I; cbn [all_items seen]; [auto|].
    rewrite orb_true_r. cbn [all_items seen].
    assert (L1 : links [x] = [url x])
      by (unfold links; cbn; now rewrite U).
    rewrite links_app, L1.
    assert (NI : ~ In (url x) (links (all_items st))).
    { intros H. apply Hs in H. apply in_seen_In in H. congruence. }
    split; [|split].
    + apply NoDup_app; [exact N|repeat constructor; intros []|].
      intros a Ha [<-|[]]. exact (NI Ha).
    + intros u. rewrite in_app_iff. cbn. rewrite Hs. tauto.
    + apply Forall_app. split; [exact P|]. constructor; [|constructor].
      apply Px. unfold nonblank. rewrite U. apply orb_true_r.
Qed.

Lemma loop_invariant clock its : forall st st',
  loop clock st its = Ret st' ->
  NoDup (links (all_items st)) ->
  (forall u, In u (seen st) <-> In u (links (all_items st))) ->
  Forall (presentable clock) (all_items st) ->
  NoDup (links (all_items st'))
  /\ (forall u, In u (seen st') <-> In u (links (all_items st')))
  /\ Forall (presentable clock) (all_items st').
Proof.
  induction its as [|it its IH]; intros st st' E N Hs P; simpl in E.
  - injection E as <-. auto.
  - apply bind_ret in E as (st1 & E1 & E).
    apply step_ret in E1 as (x & R & ->).
    destruct (keep_invariant clock st x (read_item_trimmed _ _ R) N Hs P)
      as (N1 & S1 & P1).
    exact (IH _ _ E N1 S1 P1).
Qed.

Lemma pages_loop_invariant serve clock key keyword num ps : forall st st',
  pages_loop serve clock key keyword num ps st = Done st' ->
  NoDup (links (all_items st)) ->
  (forall u, In u (seen st) <-> In u (links (all_items st))) ->
  Forall (presentable clock) (all_items st) ->
  NoDup (links (all_items st'))
  /\ (forall u, In u (seen st') <-> In u (links (all_items st')))
  /\ Forall (presentable clock) (all_items st').
Proof.
  induction ps as [|p ps IH]; intros st st' E N Hs P; simpl in E.
  - injection E as <-. auto.
  - destruct (serve p _) as [data|]; [|discriminate].
    destruct (results_of data) as [its|e]; [|discriminate]. cbn [bind] in E.
    destruct (loop clock st its) as [st1|e] eqn:E1; [|discriminate].
    destruct (loop_invariant clock its st st1 E1 N Hs P) as (N1 & S1 & P1).
    exact (IH _ _ E N1 S1 P1).
Qed.

Lemma fetch_done serve clock key keyword pages num out :
  fetch_and_clean_news serve clock key keyword pages num = Done out ->
  NoDup (links out) /\ Forall (presentable clock) out.
Proof.
  unfold fetch_and_clean_news.
  destruct (pages_loop _ _ _ _ _ _ _) as [st| |] eqn:E; try discriminate.
  intros H. injection H as <-.
  destruct (pages_loop_invariant _ _ _ _ _ _ _ _ E) as (N & _ & P); cbn.
  - constructor.
  - tauto.
  - constructor.
  - split; assumption.
Qed.

(** X1.  The list that [fetch_and_clean_news] returns never holds two
    items with the same link: the non-empty links of its items are
    pairwise distinct, whatever the service answers, over all pages. *)
Theorem fetch_links_distinct serve clock key keyword pages num out :
  fetch_and_clean_news serve clock key keyword pages num = Done out ->
  NoDup (links out).
Proof. intros H. exact (proj1 (fetch_done _ _ _ _ _ _ _ H)). Qed.

Lemma fetch_links_distinct_witness : NoDup (links two_pages_kept).
Proof.
  apply (fetch_links_distinct two_pages noon_oct11 [] (L "acme") 2 10).
  vm_compute. reflexivity.
Defined.

(** X2.  Every item of the list that is returned has a title, a snippet
    or a link, its five fields have no blank at either end, and its date
    passed the filter when it was tested. *)
Theorem fetch_items_presentable serve clock key keyword pages num out :
  fetch_and_clean_news serve clock key keyword pages num = Done out ->
  forall x, In x out ->
    nonblank x = true
    /\ (strip (title x) = title x /\ strip (snippet x) = snippet x
        /\ strip (url x) = url x /\ strip (source x) = source x
        /\ strip (date x) = date x)
    /\ exists k, within_past_week (clock k) (date x) = Ret true.
Proof.
  intros H x Hx.
  pose proof (proj2 (fetch_done _ _ _ _ _ _ _ H)) as P.
  rewrite Forall_forall in P. destruct (P x Hx) as (NB & T & k & R).
  split; [exact NB|]. split; [exact T|]. exists k.
  unfold recent in R.
  destruct (within_past_week (clock k) (date x)) as [[|]|]; congruence.
Qed.

Lemma fetch_items_presentable_witness :
  Forall (fun x =>
            nonblank x = true
            /\ (strip (title x) = title x /\ strip (snippet x) = snippet x
                /\ strip (url x) = url x /\ strip (source x) = source x
                /\ strip (date x) = date x)
            /\ exists k, within_past_week (noon_oct11 k) (date x) = Ret true)
         two_pages_kept.
Proof.
  apply Forall_forall.
  apply (fetch_items_presentable two_pages noon_oct11 [] (L "acme") 2 10).
  vm_compute. reflexivity.
Defined.

(* ------------------------------------------------------------------ *)
(** ** The first of each link *)

Lemma combine_snoc {A B} (l1 : list A) (l2 : list B) a b :
  List.length l1 = List.length l2 ->
  combine (l1 ++ [a]) (l2 ++ [b]) = combine l1 l2 ++ [(a, b)].
Proof.
  revert l2; induction l1 as [|x l1 IH]; intros [|y l2] H; simpl in *;
    try discriminate; [reflexivity|].
  f_equal. apply IH. now injection H.
Qed.

Lemma kept_snoc pre x :
  kept (pre ++ [x])
  = kept pre
    ++ (if nonblank x && (is_empty (url x) || negb (existsb (same_url x) pre))
        then [x] else []).
Proof.
  unfold kept. rewrite length_app. cbn [List.length].
  rewrite Nat.add_1_r, seq_S. cbn [Nat.add].
  rewrite combine_snoc by (now rewrite length_seq).
  rewrite filter_app, map_app. f_equal.
  - f_equal. apply filter_ext_in. intros [i y] Hin. cbn [fst snd].
    apply in_combine_l in Hin. apply in_seq in Hin. unfold first_of_url.
    rewrite firstn_app. replace (i - List.length pre) with 0 by lia.
    cbn [firstn]. now rewrite app_nil_r.
  - cbn [filter fst snd]. unfold first_of_url.
    rewrite firstn_app, Nat.sub_diag, firstn_all. cbn [firstn].
    rewrite app_nil_r.
    destruct (nonblank x && (is_empty (url x) || negb (existsb (same_url x) pre)));
      reflexivity.
Qed.

Lemma str_eqb_sym a b : str_eqb a b = str_eqb b a.
Proof.
  destruct (str_eqb a b) eqn:E1, (str_eqb b a) eqn:E2; try reflexivity.
  - apply str_eqb_eq in E1. subst. rewrite str_eqb_refl in E2. discriminate.
  - apply str_eqb_eq in E2. subst. rewrite str_eqb_refl in E1. discriminate.
Qed.

Lemma keep_tracks clock st x pre :
  tracks pre st ->
  tracks (if recent (clock (ticks st)) x then pre ++ [x] else pre)
         (keep st (recent (clock (ticks st)) x) x)
  /\ ticks (keep st (recent (clock (ticks st)) x) x) = S (ticks st).
Proof.
  intros [A Hs]. unfold keep. cbv zeta. cbn [all_items seen ticks].
  destruct (recent (clock (ticks st)) x); cbn [negb].
  2:{ split; [split; assumption|reflexivity]. }
  unfold tracks. rewrite kept_snoc. unfold nonblank.
  assert (Q : in_seen (url x) (seen st) = existsb (same_url x) pre
              \/ url x = []).
  { destruct (url x) as [|c u] eqn:U; [now right|left].
    unfold same_url. rewrite U. apply Hs. discriminate. }
  destruct (is_empty (url x)) eqn:U; cbn [negb andb orb].
  - apply is_empty_nil in U.
    assert (Hs' : forall u, u <> [] ->
              in_seen u (seen st)
              = existsb (fun y => str_eqb u (url y)) (pre ++ [x])).
    { intros u Hu. rewrite existsb_app, (Hs u Hu). cbn. rewrite U.
      destruct u; [congruence|]. cbn. now rewrite !orb_false_r. }
    rewrite !orb_false_r.
    destruct (negb (is_empty (title x)) || negb (is_empty (snippet x)));
      cbn [all_items seen ticks].
    + split; [split; [now rewrite A|exact Hs']|reflexivity].
    + split; [split; [now rewrite A, app_nil_r|exact Hs']|reflexivity].
  - destruct Q as [Q|Q]; [|rewrite Q in U; discriminate].
    rewrite orb_true_r. cbn [andb]. rewrite <- Q.
    destruct (in_seen (url x) (seen st)) eqn:I; cbn [negb all_items seen ticks].
    + split; [split|reflexivity]; [now rewrite A, app_nil_r|].
      intros u Hu. rewrite existsb_app, (Hs u Hu). cbn.
      rewrite orb_false_r.
      destruct (str_eqb u (url x)) eqn:E; [|now rewrite orb_false_r].
      apply str_eqb_eq in E. subst u. rewrite <- (Hs _ Hu), I. reflexivity.
    + split; [split|reflexivity]; [now rewrite A|].
      intros u Hu. rewrite existsb_app. cbn. rewrite orb_false_r.
      unfold in_seen in *. cbn. rewrite (Hs u Hu). apply orb_comm.
Qed.

Lemma read_all_app a b xs :
  read_all (a ++ b) = Ret xs ->
  exists xa xb, read_all a = Ret xa /\ read_all b = Ret xb /\ xs = xa ++ xb.
Proof.
  revert xs; induction a as [|it a IH]; intros xs H; simpl in *.
  - now exists [], xs.
  - apply bind_ret in H as (x & R & H). apply bind_ret in H as (xs' & R' & H).
    injection H as <-. destruct (IH _ R') as (xa & xb & Ea & Eb & ->).
    exists (x :: xa), xb. rewrite R, Ea. cbn. auto.
Qed.

Lemma recent_of_app clock xa : forall k xb,
  recent_of clock k (xa ++ xb)
  = recent_of clock k xa ++ recent_of clock (k + List.length xa) xb.
Proof.
  induction xa as [|x xa IH]; intros k xb; cbn [app recent_of List.length].
  - now rewrite Nat.add_0_r.
  - rewrite IH, Nat.add_succ_r. cbn [Nat.add].
    destruct (recent (clock k) x); reflexivity.
Qed.

Lemma loop_tracks clock its : forall xs st pre,
  read_all its = Ret xs -> forallb short_date its = true -> tracks pre st ->
  exists st',
    loop clock st its = Ret st'
    /\ tracks (pre ++ recent_of clock (ticks st) xs) st'
    /\ ticks st' = ticks st + List.length xs.
Proof.
  induction its as [|it its IH]; intros xs st pre R S T; simpl in R.
  - injection R as <-. exists st. cbn. rewrite app_nil_r, Nat.add_0_r. auto.
  - apply bind_ret in R as (x & Rx & R). apply bind_ret in R as (xs' & R' & R).
    cbn in S. apply andb_true_iff in S as [Si S].
    injection R as <-. cbn [loop]. rewrite (step_eq clock st it Si), Rx.
    cbn [bind].
    destruct (keep_tracks clock st x pre T) as [T1 K1].
    destruct (IH xs' _ _ R' S T1) as (st' & E & T' & K'). exists st'.
    split; [exact E|]. rewrite K1 in T', K'. cbn [recent_of List.length].
    split; [|lia].
    destruct (recent (clock (ticks st)) x); [|exact T'].
    now rewrite <- app_assoc in T'.
Qed.

Lemma pages_loop_tracks serve clock key keyword num : forall results a xs st pre,
  Forall2 (serves serve key keyword num)
          (seq a (List.length results)) results ->
  read_all (List.concat results) = Ret xs ->
  forallb short_date (List.concat results) = true ->
  tracks pre st ->
  exists st',
    pages_loop serve clock key keyword num
               (map Z.of_nat (seq a (List.length results))) st = Done st'
    /\ tracks (pre ++ recent_of clock (ticks st) xs) st'.
Proof.
  induction results as [|its results IH]; intros a xs st pre F R S T.
  - cbn in R. injection R as <-. exists st. cbn. now rewrite app_nil_r.
  - cbn [List.length seq] in F. inversion F as [|p r ps rs Sv F']; subst.
    cbn [List.concat] in R, S. rewrite forallb_app in S.
    apply andb_true_iff in S as [Sa Sb].
    destruct (read_all_app _ _ _ R) as (xa & xb & Ra & Rb & ->).
    destruct Sv as (data & Sd & Rd).
    cbn [List.length seq map pages_loop]. rewrite Sd, Rd. cbn [bind].
    destruct (loop_tracks clock its xa st pre Ra Sa T) as (st1 & E1 & T1 & K1).
    rewrite E1.
    destruct (IH (S a) xb st1 _ F' Rb Sb T1) as (st' & E & T').
    exists st'. split; [exact E|].
    now rewrite recent_of_app, app_assoc, <- K1.
Qed.

(** X3.  When every page is served with results that can all be read
    and whose dates have at most 4300 characters, the list that is
    returned holds, in the order of the results over all pages, the
    items that passed the date filter, have something to show and are
    the first item with their link among those that passed: an item
    that did not pass the filter does not keep a later item with the
    same link out, and items without a link are all kept. *)
Theorem fetch_keeps_first_recent serve clock key keyword pages num results xs :
  Forall2 (serves serve key keyword num) (seq 0 (Z.to_nat pages)) results ->
  read_all (List.concat results) = Ret xs ->
  forallb short_date (List.concat results) = true ->
  fetch_and_clean_news serve clock key keyword pages num
  = Done (kept (recent_of clock 0 xs)).
Proof.
  intros F R S. unfold fetch_and_clean_news, range.
  assert (Len : Z.to_nat pages = List.length results).
  { apply Forall2_length in F. now rewrite length_seq in F. }
  rewrite Len in *.
  destruct (pages_loop_tracks serve clock key keyword num results 0 xs
              {| all_items := []; seen := []; ticks := 0 |} [] F R S)
    as (st' & E & T & _).
  - split; [reflexivity|]. intros u _. reflexivity.
  - rewrite E. now rewrite T.
Qed.

Lemma fetch_keeps_first_recent_witness :
  fetch_and_clean_news two_pages noon_oct11 [] (L "acme") 2 10
  = Done (kept (recent_of noon_oct11 0 two_pages_read))
  /\ kept (recent_of noon_oct11 0 two_pages_read) = two_pages_kept.
Proof.
  split.
  - apply (fetch_keeps_first_recent two_pages noon_oct11 [] (L "acme") 2 10
             [page_one; page_two]).
    + repeat constructor; eexists; split; vm_compute; reflexivity.
    + vm_compute. reflexivity.
    + vm_compute. reflexivity.
  - vm_compute. reflexivity.
Defined.

(* ------------------------------------------------------------------ *)
(** ** A result that cannot be read *)

Lemma pages_loop_unreadable serve clock key keyword num it :
  (forall x, read_item it <> Ret x) ->
  forall results a st,
    Forall2 (serves serve key keyword num)
            (seq a (List.length results)) results ->
    In it (List.concat results) ->
    forallb short_date (List.concat results) = true ->
    pages_loop serve clock key keyword num
               (map Z.of_nat (seq a (List.length results))) st
    = Raised AttributeError.
Proof.
  intros Hbad. induction results as [|its results IH]; intros a st F Hin S.
  - destruct Hin.
  - cbn [List.length seq] in F. inversion F as [|p r ps rs Sv F']; subst.
    destruct Sv as (data & Sd & Rd).
    cbn [List.concat] in S. rewrite forallb_app in S.
    apply andb_true_iff in S as [Sa Sb].
    cbn [List.length seq map pages_loop]. rewrite Sd, Rd. cbn [bind].
    destruct (loop clock st its) as [st1|e] eqn:E.
    + apply IH; [exact F'| |exact Sb]. cbn [List.concat] in Hin.
      apply in_app_or in Hin as [Hin|Hin]; [|exact Hin].
      rewrite (loop_unreadable clock it its Hin Hbad Sa st) in E. discriminate.
    + now rewrite (loop_attr _ _ _ _ Sa E).
Qed.

Lemma text_strip v :
  text_or_nothing v = true ->
  exists s, (t <- or_ v (Ret (VStr [])) ;; strip_ t) = Ret s.
Proof.
  unfold or_. destruct v as [|b|n|x|s|l|d]; cbn.
  - now eexists.
  - destruct b; [discriminate|now eexists].
  - destruct (n =? 0)%Z; [now eexists|discriminate].
  - destruct x; cbn; try discriminate. now eexists.
  - destruct s; now eexists.
  - destruct l; [now eexists|discriminate].
  - destruct d; [now eexists|discriminate].
Qed.

Lemma strip_text v t s :
  or_ v (Ret (VStr [])) = Ret t -> strip_ t = Ret s ->
  text_or_nothing v = true.
Proof.
  unfold or_. destruct (truthy v) eqn:T.
  - intros [= <-]. destruct v; cbn; try discriminate. reflexivity.
  - intros _ _. destruct v; cbn in *; try discriminate; try reflexivity;
      now rewrite T.
Qed.

Ltac field F :=
  let s := fresh "s" in
  let E := fresh "E" in
  destruct F as [s E];
  match type of E with
  | bind ?e _ = _ =>
      destruct e; cbn [bind] in E |- *;
      [rewrite E; cbn [bind]|discriminate E]
  end.

(** The results that can be read are the well-formed ones. *)
Lemma read_item_well_formed it :
  well_formed it = true <-> exists x, read_item it = Ret x.
Proof.
  split.
  - destruct it as [|b|n|x|s|l|d]; try discriminate.
    cbn [well_formed]. intros H.
    apply andb_true_iff in H as [H Hd]. apply andb_true_iff in H as [H Hso].
    apply andb_true_iff in H as [H Hl]. apply andb_true_iff in H as [Ht Hsn].
    unfold read_item. cbn [get bind].
    field (text_strip _ Ht).
    assert (Esn : exists s,
              (t <- or_ (dict_get d (L "snippet"))
                        (or_ (dict_get d (L "description")) (Ret (VStr []))) ;;
               strip_ t) = Ret s).
    { unfold or_ at 1. destruct (truthy (dict_get d (L "snippet"))) eqn:T.
      - destruct (dict_get d (L "snippet")); cbn in Hsn, T |- *;
          try (rewrite T in Hsn; discriminate Hsn); try discriminate T.
        now eexists.
      - exact (text_strip _ Hsn). }
    field Esn.
    field (text_strip _ Hl).
    assert (Eso : exists s,
              (so <- match dict_get d (L "source") with
                     | VDict _ => get (dict_get d (L "source")) "name"
                     | _ => or_ (dict_get d (L "source")) (Ret (VStr []))
                     end ;; strip_ so) = Ret s).
    { destruct (dict_get d (L "source")) as [|?|?|?|?|?|sd] eqn:S;
        first [ exact (text_strip _ Hso)
              | cbn [get bind];
                destruct (dict_get sd (L "name")); try discriminate Hso;
                cbn; now eexists ]. }
    field Eso.
    field (text_strip _ Hd).
    now eexists.
  - intros [x R]. destruct it as [|b|n|x0|s|l|d]; try discriminate R.
    unfold read_item in R. cbn [get bind] in R.
    apply bind_ret in R as (t & Et & R). apply bind_ret in R as (ts & Ets & R).
    apply bind_ret in R as (sn & Esn & R). apply bind_ret in R as (sns & Esns & R).
    apply bind_ret in R as (u & Eu & R). apply bind_ret in R as (us & Eus & R).
    apply bind_ret in R as (so & Eso & R). apply bind_ret in R as (sos & Esos & R).
    apply bind_ret in R as (da & Eda & R). apply bind_ret in R as (das & Edas & _).
    cbn [well_formed]. repeat (apply andb_true_iff; split).
    + exact (strip_text _ _ _ Et Ets).
    + unfold or_ at 1 in Esn.
      destruct (truthy (dict_get d (L "snippet"))) eqn:T.
      * assert (V : sn = dict_get d (L "snippet")) by congruence. subst sn.
        revert Esns.
        destruct (dict_get d (L "snippet")); try discriminate. reflexivity.
      * exact (strip_text _ _ _ Esn Esns).
    + exact (strip_text _ _ _ Eu Eus).
    + revert Eso.
      destruct (dict_get d (L "source")) as [|?|?|?|?|?|sd] eqn:S; intros Eso;
        first [ exact (strip_text _ _ _ Eso Esos)
              | cbn [get] in Eso;
                assert (V : so = dict_get sd (L "name")) by congruence;
                subst so; revert Esos;
                destruct (dict_get sd (L "name")); try discriminate;
                reflexivity ].
    + exact (strip_text _ _ _ Eda Edas).
Qed.

Lemma read_all_well_formed its :
  forallb well_formed its = true -> exists xs, read_all its = Ret xs.
Proof.
  induction its as [|it its IH]; intros H; [now exists []|].
  cbn in H. apply andb_true_iff in H as [Hi H].
  apply read_item_well_formed in Hi as [x Rx].
  destruct (IH H) as [xs Rxs]. exists (x :: xs). cbn. now rewrite Rx, Rxs.
Qed.

Lemma nameless_malformed it : nameless_source it = true -> well_formed it = false.
Proof.
  intros N. destruct (well_formed it) eqn:W; [|reflexivity].
  apply read_item_well_formed in W as [x R].
  rewrite (nameless_source_raises it N) in R. discriminate.
Qed.

(** A result on whose date the filter raises ends the loops with a
    [ValueError], when all results can be read. *)
Lemma step_value clock st it e :
  well_formed it = true -> step clock st it = Raise e -> e = ValueError.
Proof.
  intros W. apply read_item_well_formed in W as [x R].
  unfold step. rewrite R. cbn [bind].
  destruct (within_past_week (clock (ticks st)) (date x)) as [b|e'] eqn:Hb.
  - cbn [bind]. cbv zeta.
    destruct (negb b); [discriminate|].
    destruct (_ && _); [discriminate|].
    destruct (_ || _); discriminate.
  - cbn [bind]. intros [= <-]. exact (within_past_week_raises _ _ _ Hb).
Qed.

Lemma step_refused clock st it st' :
  refused it -> step clock st it <> Ret st'.
Proof.
  intros (x & now & R & V) E. unfold step in E. rewrite R in E.
  cbn [bind] in E.
  rewrite (raise_any_clock now (clock (ticks st)) _ _ V) in E. discriminate.
Qed.

Lemma loop_refused clock it its :
  In it its -> refused it -> forallb well_formed its = true ->
  forall st, loop clock st its = Raise ValueError.
Proof.
  intros Hin Hr. induction its as [|i its IH]; [destruct Hin|].
  intros W st. cbn in W. apply andb_true_iff in W as [Wi W]. cbn [loop].
  destruct (step clock st i) as [st1|e] eqn:E; cbn [bind].
  - destruct Hin as [->|Hin]; [now elim (step_refused clock st it st1 Hr)|].
    exact (IH Hin W st1).
  - now rewrite (step_value clock st i e Wi E).
Qed.

Lemma loop_value clock its : forall st e,
  forallb well_formed its = true ->
  loop clock st its = Raise e -> e = ValueError.
Proof.
  induction its as [|i its IH]; intros st e W; [discriminate|].
  cbn in W. apply andb_true_iff in W as [Wi W]. cbn [loop].
  destruct (step clock st i) as [st1|e'] eqn:E; cbn [bind].
  - now apply IH.
  - intros [= <-]. exact (step_value clock st i e' Wi E).
Qed.

Lemma pages_loop_refused serve clock key keyword num it :
  refused it ->
  forall results a st,
    Forall2 (serves serve key keyword num)
            (seq a (List.length results)) results ->
    In it (List.concat results) ->
    forallb well_formed (List.concat results) = true ->
    pages_loop serve clock key keyword num
               (map Z.of_nat (seq a (List.length results))) st
    = Raised ValueError.
Proof.
  intros Hr. induction results as [|its results IH]; intros a st F Hin W.
  - destruct Hin.
  - cbn [List.length seq] in F. inversion F as [|p r ps rs Sv F']; subst.
    destruct Sv as (data & Sd & Rd).
    cbn [List.concat] in W. rewrite forallb_app in W.
    apply andb_true_iff in W as [Wa Wb].
    cbn [List.length seq map pages_loop]. rewrite Sd, Rd. cbn [bind].
    destruct (loop clock st its) as [st1|e] eqn:E.
    + apply IH; [exact F'| |exact Wb]. cbn [List.concat] in Hin.
      apply in_app_or in Hin as [Hin|Hin]; [|exact Hin].
      rewrite (loop_refused clock it its Hin Hr Wa st) in E. discriminate.
    + now rewrite (loop_value _ _ _ _ Wa E).
Qed.

(** X4.  When every page is served with results that can be gone
    through, the fetch returns a list if every result is well formed
    and every date has at most 4300 characters.  It fails with an
    [AttributeError] if, the dates being so, a result is not well
    formed, on whatever page it stands: then nothing is returned, not
    even the items of the pages before.  It fails with a [ValueError]
    if the results are well formed and the filter raises on the date
    of one of them.  A result whose [source] is a dict without a string
    under [name] is one that is not well formed. *)
Theorem fetch_returns_iff_well_formed serve clock key keyword pages num results :
  Forall2 (serves serve key keyword num) (seq 0 (Z.to_nat pages)) results ->
  (forallb well_formed (List.concat results) = true ->
   forallb short_date (List.concat results) = true ->
   exists out,
     fetch_and_clean_news serve clock key keyword pages num = Done out)
  /\ (forallb well_formed (List.concat results) = false ->
      forallb short_date (List.concat results) = true ->
      fetch_and_clean_news serve clock key keyword pages num
      = Raised AttributeError)
  /\ (forallb well_formed (List.concat results) = true ->
      (exists it, In it (List.concat results) /\ refused it) ->
      fetch_and_clean_news serve clock key keyword pages num
      = Raised ValueError)
  /\ (forall it, nameless_source it = true -> well_formed it = false).
Proof.
  intros F.
  assert (Len : Z.to_nat pages = List.length results).
  { apply Forall2_length in F. now rewrite length_seq in F. }
  split; [|split; [|split; [|exact nameless_malformed]]].
  - intros W S. destruct (read_all_well_formed _ W) as [xs R].
    unfold fetch_and_clean_news, range. rewrite Len in *.
    destruct (pages_loop_tracks serve clock key keyword num results 0 xs
                {| all_items := []; seen := []; ticks := 0 |} [] F R S)
      as (st' & E & _).
    + split; [reflexivity|]. intros u _. reflexivity.
    + rewrite E. now eexists.
  - intros W S.
    assert (B : exists it, In it (List.concat results) /\ well_formed it = false).
    { clear S. induction (List.concat results) as [|i l IH]; [discriminate|].
      cbn in W. destruct (well_formed i) eqn:Wi.
      - destruct (IH W) as (it & Hin & Hit). exists it. split; [now right|exact Hit].
      - exists i. split; [now left|exact Wi]. }
    destruct B as (it & Hin & Hit).
    unfold fetch_and_clean_news, range. rewrite Len in *.
    rewrite (pages_loop_unreadable serve clock key keyword num it); auto.
    intros x Hx.
    assert (W' : well_formed it = true)
      by (apply read_item_well_formed; now exists x).
    congruence.
  - intros W (it & Hin & Hr).
    unfold fetch_and_clean_news, range. rewrite Len in *.
    now rewrite (pages_loop_refused serve clock key keyword num it Hr
                   results 0 _ F Hin W).
Qed.

Lemma fetch_returns_iff_well_formed_witness :
  fetch_and_clean_news nameless_page noon_oct11 [] (L "acme") 1 10
  = Raised AttributeError
  /\ (exists out,
        fetch_and_clean_news two_pages noon_oct11 [] (L "acme") 2 10 = Done out)
  /\ fetch_and_clean_news long_date_page noon_oct11 [] (L "acme") 1 10
     = Raised ValueError.
Proof.
  split; [|split].
  - apply (fetch_returns_iff_well_formed nameless_page noon_oct11 [] (L "acme")
             1 10
             [[VDict [(L "title", VStr (L "Acme"));
                      (L "source", VDict [(L "icon", VStr (L "i.png"))]);
                      (L "date", VStr (L "3 weeks ago"))]]]).
    + repeat constructor; eexists; split; vm_compute; reflexivity.
    + vm_compute. reflexivity.
    + vm_compute. reflexivity.
  - apply (fetch_returns_iff_well_formed two_pages noon_oct11 [] (L "acme")
             2 10 [page_one; page_two]).
    + repeat constructor; eexists; split; vm_compute; reflexivity.
    + vm_compute. reflexivity.
    + vm_compute. reflexivity.
  - apply (fetch_returns_iff_well_formed long_date_page noon_oct11 []
             (L "acme") 1 10
             [[result "Acme" "http://a.example/1" "2 days ago";
               VDict [(L "title", VStr (L "Beta"));
                      (L "date", VStr (long_numeral ++ L " days ago"))]]]).
    + repeat constructor; eexists; split; vm_compute; reflexivity.
    + vm_compute. reflexivity.
    + eexists. split; [right; left; reflexivity|].
      exists {| title := L "Beta"; snippet := []; url := []; source := [];
                date := long_numeral ++ L " days ago" |}, (noon_oct11 0).
      split; [vm_compute; reflexivity|].
      exact (proj1 (long_numeral_raises (noon_oct11 0))).
Defined.

(* ------------------------------------------------------------------ *)
(** ** No page *)

Lemma fetch_nothing serve clock key keyword pages num :
  (pages <= 0)%Z ->
  fetch_and_clean_news serve clock key keyword pages num = Done [].
Proof.
  intros H. unfold fetch_and_clean_news, range.
  replace (Z.to_nat pages) with 0 by lia. reflexivity.
Qed.

(** X5.  With a page count of zero or below no request is made: the
    result is the empty list whatever the service would answer, and no
    exception is raised. *)
Theorem fetch_no_pages serve clock key keyword pages num :
  (pages <= 0)%Z ->
  fetch_and_clean_news serve clock key keyword pages num = Done [].
Proof. apply fetch_nothing. Qed.

Lemma fetch_no_pages_witness :
  fetch_and_clean_news (fun _ _ => Failure) noon_oct11 [] (L "acme") (-1) 10
  = Done [].
Proof. apply fetch_no_pages. lia. Defined.

(* ------------------------------------------------------------------ *)
(** ** The patterns of the sanitizer on a list of plain lines *)

(** A pattern that begins with a literal does not match where the text
    begins with another character. *)
Lemma exec_head_literal f a R0 R st c s :
  rest st = c :: s -> atom_ok f (Lit a) c = false ->
  exec f (Cat (Cat (One (Lit a)) R0) R) st = [].
Proof.
  intros E H. cbn [exec]. rewrite E. cbn [atom_ok] in H |- *.
  now rewrite H.
Qed.

Lemma match_at_head_lt f r R0 R pv c s :
  r = Cat (Cat (One (Lit "<"%char)) R0) R ->
  markup_free c = true ->
  match_at f r pv (c :: s) = None.
Proof.
  intros -> M. unfold match_at.
  rewrite (exec_head_literal f "<" R0 R
             {| prev := pv; rest := c :: s; groups := [] |} c s eq_refl);
    [reflexivity|].
  pose proof (markup_free_lt f [c]) as F. cbn in F. rewrite M in F.
  specialize (F eq_refl). now inversion F.
Qed.

Lemma find_scan_skip f r (P : list match_obj -> Prop) x :
  (forall pv, P (find_scan f r 0 pv x)) ->
  forall u pv, P (find_scan f r (List.length u) pv (u ++ x)).
Proof.
  intros H. induction u as [|c u IH]; intros pv; cbn; [apply H|apply IH].
Qed.

(** On a character other than [<] the scan goes on. *)
Lemma find_scan_char f r R0 R (P : list match_obj -> Prop) c x :
  r = Cat (Cat (One (Lit "<"%char)) R0) R ->
  markup_free c = true ->
  (forall pv, P (find_scan f r 0 pv x)) ->
  forall pv, P (find_scan f r 0 pv (c :: x)).
Proof.
  intros E M H pv. cbn [find_scan].
  rewrite (match_at_head_lt f r R0 R pv c x E M). apply H.
Qed.

Lemma find_scan_chars f r R0 R (P : list match_obj -> Prop) u x :
  r = Cat (Cat (One (Lit "<"%char)) R0) R ->
  forallb markup_free u = true ->
  (forall pv, P (find_scan f r 0 pv x)) ->
  forall pv, P (find_scan f r 0 pv (u ++ x)).
Proof.
  intros E. induction u as [|c u IH]; intros M H; [exact H|].
  cbn in M. apply andb_true_iff in M as [Mc M]. cbn [app].
  apply (find_scan_char f r R0 R P c (u ++ x) E Mc). now apply IH.
Qed.

(** A tag of a list is no beginning of a script element and no [<a>]
    tag. *)
Lemma find_scan_tag_none f r R0 R t x :
  r = Cat (Cat (One (Lit "<"%char)) R0) R ->
  In t list_tags ->
  (forall pv y, match_at f r pv (t ++ y) = None) ->
  (forall pv, find_scan f r 0 pv x = []) ->
  forall pv, find_scan f r 0 pv (t ++ x) = [].
Proof.
  intros E Ht N H pv.
  destruct t as [|c t]; [cbn in Ht; repeat (destruct Ht as [Ht|Ht]; try discriminate); destruct Ht|].
  pose proof (N pv x) as N1. cbn [app] in N1 |- *. cbn [find_scan].
  rewrite N1.
  apply (find_scan_chars f r R0 R (fun l => l = []) t x E); [|exact H].
  cbn in Ht.
  repeat (destruct Ht as [Ht|Ht]; [injection Ht as <- <-; reflexivity|]).
  destruct Ht.
Qed.

Lemma script_shape :
  re_script = Cat (Cat (One (Lit "<"%char)) Eps)
                  (seq_re [Star Space; lit "script"; LazyStar Dot; lit ">";
                           LazyStar Dot; lit "<"; Star Space; lit "/";
                           Star Space; lit "script"; Star Space; lit ">"]).
Proof. reflexivity. Qed.

Lemma link_shape :
  re_link = Cat (Cat (One (Lit "<"%char)) (Cat (One (Lit "a"%char)) Eps))
                (seq_re [WordB; Group 1 (Star not_gt); lit ">"]).
Proof. reflexivity. Qed.

Lemma tag_shape :
  re_tag = Cat (Cat (One (Lit "<"%char)) Eps)
               (seq_re [Opt (lit "/");
                        Group 1 (Plus (Set_ [IRange "a" "z"; IRange "0" "9"]));
                        Opt (Cat (One Space) (Star not_gt)); lit ">"]).
Proof. reflexivity. Qed.

Lemma in_list_tags t :
  In t list_tags ->
  t = L "<ul>" \/ t = L "</ul>" \/ t = L "<li>" \/ t = L "</li>".
Proof.
  intros H. cbn in H. destruct H as [<-|[<-|[<-|[<-|[]]]]]; auto.
Qed.

(** No script element begins in a listing. *)
Lemma listing_no_script x :
  listing x -> forall pv, find_scan flag_is re_script 0 pv x = [].
Proof.
  induction 1 as [|c x M _ IH|t x Ht _ IH].
  - intros pv. vm_compute. reflexivity.
  - exact (find_scan_char flag_is re_script _ _ (fun l => l = []) c x
             script_shape M IH).
  - apply (find_scan_tag_none flag_is re_script _ _ t x script_shape Ht);
      [|exact IH].
    intros pv y.
    destruct (in_list_tags t Ht) as [->|[->|[->| ->]]]; vm_compute; reflexivity.
Qed.

(** No [<a>] tag stands in a listing. *)
Lemma listing_no_link x :
  listing x -> forall pv, find_scan flag_i re_link 0 pv x = [].
Proof.
  induction 1 as [|c x M _ IH|t x Ht _ IH].
  - intros pv. vm_compute. reflexivity.
  - exact (find_scan_char flag_i re_link _ _ (fun l => l = []) c x
             link_shape M IH).
  - apply (find_scan_tag_none flag_i re_link _ _ t x link_shape Ht);
      [|exact IH].
    intros pv y.
    destruct (in_list_tags t Ht) as [->|[->|[->| ->]]]; vm_compute; reflexivity.
Qed.

(** Where a tag of a list stands, the tag pattern matches just this tag,
    and the tag is kept. *)
Lemma tag_match_list_tag t pv x :
  In t list_tags ->
  exists m, match_at flag_is re_tag pv (t ++ x) = Some m
            /\ m_text m = t
            /\ keep_or_strip m = Ret (m_text m).
Proof.
  intros Ht.
  destruct (in_list_tags t Ht) as [->|[->|[->| ->]]];
    unfold match_at; cbn -[taken]; eexists; (split; [reflexivity|]);
    unfold keep_or_strip, m_group; cbn -[taken].
  - change (taken _ x) with (taken (L "<ul>" ++ x) x).
    change (taken _ (">"%char :: x))
      with (taken (L "ul" ++ ">"%char :: x) (">"%char :: x)).
    rewrite !taken_app. split; reflexivity.
  - change (taken _ x) with (taken (L "</ul>" ++ x) x).
    change (taken _ (">"%char :: x))
      with (taken (L "ul" ++ ">"%char :: x) (">"%char :: x)).
    rewrite !taken_app. split; reflexivity.
  - change (taken _ x) with (taken (L "<li>" ++ x) x).
    change (taken _ (">"%char :: x))
      with (taken (L "li" ++ ">"%char :: x) (">"%char :: x)).
    rewrite !taken_app. split; reflexivity.
  - change (taken _ x) with (taken (L "</li>" ++ x) x).
    change (taken _ (">"%char :: x))
      with (taken (L "li" ++ ">"%char :: x) (">"%char :: x)).
    rewrite !taken_app. split; reflexivity.
Qed.

(** Every tag of a listing is kept by the allowlist. *)
Lemma listing_tags_kept x :
  listing x ->
  forall pv, Forall (fun m => keep_or_strip m = Ret (m_text m))
                    (find_scan flag_is re_tag 0 pv x).
Proof.
  induction 1 as [|c x M _ IH|t x Ht _ IH].
  - intros pv. vm_compute. constructor.
  - exact (find_scan_char flag_is re_tag _ _
             (Forall (fun m => keep_or_strip m = Ret (m_text m))) c x
             tag_shape M IH).
  - intros pv. destruct (tag_match_list_tag t pv x Ht) as (m & Hm & Tm & Km).
    destruct t as [|c t];
      [destruct (in_list_tags _ Ht) as [?|[?|[?|?]]]; discriminate|].
    cbn [app find_scan]. cbn [app] in Hm. rewrite Hm. rewrite Tm.
    constructor; [exact Km|]. cbn [List.length Nat.pred].
    exact (find_scan_skip flag_is re_tag _ x IH t (Some c)).
Qed.

Lemma listing_no_eq f x :
  listing x -> Forall (fun c => atom_ok f (Lit "="%char) c = false) x.
Proof.
  induction 1 as [|c x M _ IH|t x Ht _ IH].
  - constructor.
  - constructor; [|exact IH].
    pose proof (markup_free_eq f [c]) as F. cbn in F. rewrite M in F.
    specialize (F eq_refl). now inversion F.
  - apply Forall_app. split; [|exact IH].
    destruct (in_list_tags t Ht) as [->|[->|[->| ->]]];
      repeat constructor; destruct f as [[|] d]; reflexivity.
Qed.

(** The sanitizer returns a listing as it is. *)
Lemma sanitize_listing x :
  x <> [] -> listing x -> basic_sanitize_ul x = Ret x.
Proof.
  intros Hne Hl. unfold basic_sanitize_ul.
  destruct x as [|c x]; [congruence|]. cbn [is_empty].
  rewrite (re_sub_fixed flag_is re_script);
    [|unfold re_finditer; rewrite (listing_no_script _ Hl); constructor].
  cbn [bind].
  rewrite (re_sub_none_needs flag_is "=" re_handler _ _ eq_refl
             (listing_no_eq _ _ Hl)).
  cbn [bind].
  rewrite (re_sub_none_needs flag_i "=" re_href _ _ eq_refl
             (listing_no_eq _ _ Hl)).
  cbn [bind].
  rewrite (re_sub_fixed flag_is re_tag keep_or_strip);
    [|exact (listing_tags_kept _ Hl None)].
  cbn [bind].
  rewrite (re_sub_fixed flag_i re_link);
    [|unfold re_finditer; rewrite (listing_no_link _ Hl); constructor].
  reflexivity.
Qed.

(* ------------------------------------------------------------------ *)
(** ** The lines of a reply *)

Lemma lstrip_of_suffix p s : exists w, s = w ++ lstrip_of p s.
Proof.
  induction s as [|c s [w IH]]; simpl.
  - now exists [].
  - destruct (p c).
    + exists (c :: w). simpl. now f_equal.
    + now exists [].
Qed.

Lemma forallb_lstrip_of q p s :
  forallb q s = true -> forallb q (lstrip_of p s) = true.
Proof.
  intros H. destruct (lstrip_of_suffix p s) as [w Hw].
  rewrite Hw, forallb_app in H. now apply andb_true_iff in H.
Qed.

Lemma forallb_strip_of q p s :
  forallb q s = true -> forallb q (strip_of p s) = true.
Proof.
  intros H. unfold strip_of, rstrip_of.
  rewrite forallb_rev. apply forallb_lstrip_of. rewrite forallb_rev.
  now apply forallb_lstrip_of.
Qed.

Lemma forallb_strip q s : forallb q s = true -> forallb q (strip s) = true.
Proof.
  intros H. unfold strip.
  destruct (lstrip_suffix s) as [w Hw].
  destruct (rstrip_prefix (lstrip s)) as [v Hv].
  rewrite Hw, forallb_app in H. apply andb_true_iff in H as [_ H].
  rewrite Hv, forallb_app in H. now apply andb_true_iff in H.
Qed.

Lemma split_from_forallb q s : forall line b,
  forallb q line = true -> forallb q s = true ->
  Forall (fun ln => forallb q ln = true) (split_from line b s).
Proof.
  induction s as [|c s IH]; intros line b Hl Hs; cbn [split_from].
  - destruct (is_empty line); repeat constructor. exact Hl.
  - cbn in Hs. apply andb_true_iff in Hs as [Hc Hs].
    destruct (b && Ascii.eqb c newline); [now apply IH|].
    destruct (is_linebreak c).
    + constructor; [exact Hl|now apply IH].
    + apply IH; [|exact Hs]. rewrite forallb_app, Hl. cbn. now rewrite Hc.
Qed.

Lemma lines_of_forallb q frag :
  forallb q frag = true ->
  Forall (fun ln => forallb q ln = true) (lines_of frag).
Proof.
  intros H. unfold lines_of, splitlines.
  pose proof (split_from_forallb q frag [] false eq_refl H) as F.
  induction F as [|ln l Hln _ IH]; cbn [filter map]; [constructor|].
  destruct (negb (is_empty (strip ln))); [|exact IH].
  cbn [map]. constructor; [now apply forallb_strip_of|exact IH].
Qed.

Lemma listing_chars u x :
  forallb markup_free u = true -> listing x -> listing (u ++ x).
Proof.
  induction u as [|c u IH]; intros M H; [exact H|].
  cbn in M. apply andb_true_iff in M as [Mc M]. cbn [app].
  apply listing_char; [exact Mc|now apply IH].
Qed.

Lemma listing_items lines x :
  Forall (fun ln => forallb markup_free ln = true) lines ->
  listing x -> listing (List.concat (map li lines) ++ x).
Proof.
  induction 1 as [|ln lines Hln _ IH]; intros Hx; [exact Hx|].
  cbn [map List.concat]. unfold li at 1. rewrite <- !app_assoc.
  apply listing_tag; [cbn; auto|].
  apply listing_chars; [exact Hln|].
  apply listing_tag; [cbn; auto|]. now apply IH.
Qed.

Lemma as_list_listing frag :
  forallb markup_free frag = true -> listing (as_list frag).
Proof.
  intros H. unfold as_list. cbv zeta.
  apply listing_tag; [cbn; auto|].
  apply listing_char; [reflexivity|].
  apply listing_items; [now apply lines_of_forallb|].
  apply listing_char; [reflexivity|].
  rewrite <- (app_nil_r (L "</ul>")).
  apply listing_tag; [cbn; auto|constructor].
Qed.

Lemma contains_head_absent x p b :
  forallb (fun c => negb (Ascii.eqb x c)) b = true ->
  contains (x :: p) b = false.
Proof.
  induction b as [|c b IH]; intros H; [reflexivity|].
  cbn in H. apply andb_true_iff in H as [Hc H].
  rewrite contains_cons, (IH H), orb_false_r. cbn.
  apply negb_true_iff in Hc. now rewrite Hc.
Qed.

Lemma markup_free_no_ul s :
  forallb markup_free s = true -> contains (L "<ul") (lower s) = false.
Proof.
  intros H. apply (contains_head_absent "<" (L "ul")).
  unfold lower. rewrite forallb_forall in *. intros c Hc.
  apply in_map_iff in Hc as (c0 & <- & Hc0). specialize (H c0 Hc0).
  unfold markup_free in H. apply andb_true_iff in H as [H _].
  rewrite Ascii.eqb_sym, lit_lt_ci. exact H.
Qed.

(** X7.  A reply in which neither [<] nor [=] occurs comes back as a
    list, one item for each line that is not blank, in the order of the
    lines, each line without the hyphens, spaces and tabs at its two
    ends; the text of the lines is not changed otherwise and the
    sanitizer takes nothing away. *)
Theorem plain_lines_become_items (s : str) :
  forallb markup_free s = true ->
  llm_ul_fragment (Some s)
  = Ret (L "<ul>" ++ newline
           :: List.concat (map (fun ln => L "<li>" ++ ln ++ L "</li>")
                               (lines_of (strip s)))
           ++ newline :: L "</ul>").
Proof.
  intros H. pose proof (forallb_strip _ _ H) as Hs.
  unfold llm_ul_fragment, fragment_of. cbn [or_empty]. cbv zeta.
  rewrite (markup_free_no_ul _ Hs). cbn [negb].
  rewrite sanitize_listing; [reflexivity|discriminate|].
  now apply as_list_listing.
Qed.

Lemma plain_lines_become_items_witness :
  llm_ul_fragment (Some three_lines)
  = Ret (L "<ul>" ++ newline
           :: L "<li>Acme raises a round</li><li>* Beta > Gamma</li><li>Delta</li>"
           ++ newline :: L "</ul>").
Proof.
  rewrite (plain_lines_become_items three_lines);
    vm_compute; reflexivity.
Defined.

(* ------------------------------------------------------------------ *)
(** ** What is handed to the sanitizer *)

Lemma as_list_has_ul frag :
  as_list frag <> [] /\ contains (L "<ul") (lower (as_list frag)) = true.
Proof. split; [discriminate|reflexivity]. Qed.

Lemma chunks_of_no_dict items : forall chunks,
  forallb (fun item => negb (is_dict item)) items = true ->
  chunks_of items chunks = Ret chunks.
Proof.
  induction items as [|item items IH]; intros chunks H; [reflexivity|].
  cbn in H. apply andb_true_iff in H as [Hi H].
  destruct item; try discriminate Hi; cbn [chunks_of]; now apply IH.
Qed.

(** Without a text and without a dict in the output, it is [str(resp)]
    that is worked on. *)
Lemma from_response_shown resp :
  truthy (attr_or (output_text resp) VNone) = false ->
  no_dict_output (output resp) = true ->
  from_response resp = llm_ul_fragment (Some (shown resp)).
Proof.
  intros T N. unfold from_response, html_fragment_of. cbv zeta. rewrite T.
  destruct (output resp) as [v|]; cbn [attr_or no_dict_output] in N |- *.
  - destruct v as [| | | | |items|]; try discriminate N.
    unfold or_. destruct items as [|i items]; cbn [truthy bind iter].
    + reflexivity.
    + rewrite (chunks_of_no_dict (i :: items) [] N). reflexivity.
  - reflexivity.
Qed.

(** X6.  What goes to the sanitizer is never empty and always holds
    [<ul], whatever text the reading of the reply leaves at line 199,
    so that the answer [<ul></ul>] of the sanitizer to an empty text
    never comes of it.  A reply whose [output_text] is a text of blanks
    gives a list with no item, two line feeds between its tags.  A
    reply whose [output_text] is missing or counts as false, and whose
    [output] is missing or a list without a dict, is answered with
    what comes of [str(resp)]. *)
Theorem reply_fragment_never_empty :
  (forall s,
     fragment_of (Some s) <> []
     /\ contains (L "<ul") (lower (fragment_of (Some s))) = true)
  /\ (forall resp s,
        output_text resp = Some (VStr s) -> s <> [] ->
        forallb is_space s = true ->
        from_response resp
        = Ret (L "<ul>" ++ newline :: newline :: L "</ul>"))
  /\ (forall resp,
        truthy (attr_or (output_text resp) VNone) = false ->
        no_dict_output (output resp) = true ->
        from_response resp = llm_ul_fragment (Some (shown resp))).
Proof.
  split; [|split].
  - intros s. unfold fragment_of. cbv zeta.
    destruct (contains (L "<ul") (lower (strip (or_empty (Some s))))) eqn:C;
      cbn [negb].
    + split; [|exact C]. intros E. rewrite E in C. discriminate.
    + apply as_list_has_ul.
  - intros resp s E Hne B. unfold from_response, html_fragment_of. cbv zeta.
    rewrite E. cbn [attr_or truthy]. destruct s as [|c s]; [congruence|].
    cbn [is_empty negb bind].
    unfold llm_ul_fragment, fragment_of. cbv zeta. cbn [or_empty].
    rewrite (strip_blank _ B). vm_compute. reflexivity.
  - exact from_response_shown.
Qed.

Lemma reply_fragment_never_empty_witness :
  from_response blank_reply = Ret (L "<ul>" ++ newline :: newline :: L "</ul>")
  /\ from_response object_reply
     = Ret (L "<ul>" ++ newline :: L "<li>Response(id=1)</li>"
              ++ newline :: L "</ul>").
Proof.
  split.
  - apply (proj1 (proj2 reply_fragment_never_empty) blank_reply (L "  "));
      [reflexivity|discriminate|reflexivity].
  - rewrite (proj2 (proj2 reply_fragment_never_empty) object_reply);
      vm_compute; reflexivity.
Defined.

(* ------------------------------------------------------------------ *)
(** ** The fragment that is shown *)

Lemma sanitize_returns_complete x :
  exists out, basic_sanitize_ul x = Ret out /\ attribute_complete out = true.
Proof.
  destruct x as [|c x].
  - exists (L "<ul></ul>"). split; vm_compute; reflexivity.
  - rewrite sanitize_steps by discriminate.
    destruct (allowlist_step_total (c :: x)) as [y ->]. cbn [bind].
    unfold re_sub. rewrite sub_scan_link. eexists. split; [reflexivity|].
    unfold attribute_complete, re_finditer. rewrite find_scan_link.
    apply forallb_forall. intros m Hm.
    pose proof (link_pass_complete y) as F.
    rewrite Forall_forall in F. exact (F m Hm).
Qed.

(** X8.  Whatever the reply of the model is, a text with or without a
    list, nothing or blanks, [llm_ul_fragment] returns and raises no
    exception, and in the fragment it returns every [<a ...>] tag holds
    [target=] and [rel=]. *)
Theorem llm_ul_fragment_returns (reply : option str) :
  exists out,
    llm_ul_fragment reply = Ret out
    /\ forallb (fun m => contains (L "target=") (m_text m)
                         && contains (L "rel=") (m_text m))
               (re_finditer flag_i re_link out) = true.
Proof. apply sanitize_returns_complete. Qed.

(* ------------------------------------------------------------------ *)
(** ** The startup mode *)

Lemma startswith_app_inv p q s :
  startswith (p ++ q) s = true -> exists t, s = p ++ q ++ t.
Proof.
  intros H. destruct (startswith_split _ _ H) as [t ->].
  exists t. now rewrite app_assoc.
Qed.

Lemma contains_part p q r s :
  contains (p ++ q ++ r) s = true -> contains q s = true.
Proof.
  induction s as [|c s IH]; intros H.
  - cbn in H. rewrite orb_false_r in H.
    destruct (startswith_split _ _ H) as [t E].
    destruct p; [|discriminate]. destruct q; [reflexivity|discriminate].
  - rewrite contains_cons in H. apply orb_true_iff in H as [H|H].
    + destruct (startswith_split _ _ H) as [t ->].
      rewrite <- !app_assoc. apply contains_mid.
    + rewrite contains_cons, (IH H). apply orb_true_r.
Qed.

(** X9.  The startup mode is on exactly when the keyword, in lower
    case, holds one of the five words [startup], [agentic ai],
    [founder], [seed], [series a]; the other four entries of the list
    of the source hold one of these and change nothing.  The test is
    one of substrings: the keyword need not hold the word as a word of
    its own. *)
Theorem startup_mode_words (keyword : option str) :
  startup_mode keyword
  = (let k := lower (or_empty keyword) in
     contains (L "startup") k || contains (L "agentic ai") k
     || contains (L "founder") k || contains (L "seed") k
     || contains (L "series a") k).
Proof.
  unfold startup_mode, startup_words. cbv zeta.
  set (k := lower (or_empty keyword)). cbn [map existsb].
  assert (H1 : contains (L "startups") k = true -> contains (L "startup") k = true)
    by exact (contains_part [] (L "startup") (L "s") k).
  assert (H2 : contains (L "ai startup") k = true -> contains (L "startup") k = true)
    by exact (contains_part (L "ai ") (L "startup") [] k).
  assert (H3 : contains (L "pre-seed") k = true -> contains (L "seed") k = true)
    by exact (contains_part (L "pre-") (L "seed") [] k).
  assert (H4 : contains (L "pre seed") k = true -> contains (L "seed") k = true)
    by exact (contains_part (L "pre ") (L "seed") [] k).
  destruct (contains (L "startup") k), (contains (L "startups") k),
    (contains (L "ai startup") k), (contains (L "agentic ai") k),
    (contains (L "founder") k), (contains (L "seed") k),
    (contains (L "series a") k), (contains (L "pre-seed") k),
    (contains (L "pre seed") k); cbn; try reflexivity;
    try (specialize (H1 eq_refl); discriminate);
    try (specialize (H2 eq_refl); discriminate);
    try (specialize (H3 eq_refl); discriminate);
    try (specialize (H4 eq_refl); discriminate).
Qed.

(* ------------------------------------------------------------------ *)
(** ** The allowlist on a tag on its own *)

Import Markup.

Lemma name_char_set c :
  atom_ok flag_is (Set_ [IRange "a" "z"; IRange "0" "9"]) c = name_char c.
Proof. by_char c. Qed.

Lemma name_char_markup_free c : name_char c = true -> markup_free c = true.
Proof. by_char c. Qed.

Lemma name_char_not_slash c :
  name_char c = true -> atom_ok flag_is (Lit "/"%char) c = false.
Proof. by_char c. Qed.

Lemma exec_cat_first f r1 r2 st s1 l1 s2 :
  exec f r1 st = s1 :: l1 -> (exists l2, exec f r2 s1 = s2 :: l2) ->
  exists l, exec f (Cat r1 r2) st = s2 :: l.
Proof.
  intros E1 [l2 E2]. rewrite exec_cat, E1. cbn [flat_map]. rewrite E2.
  eexists. reflexivity.
Qed.

Lemma exec_group f n r st :
  exec f (Group n r) st
  = map (fun st' =>
           {| prev := prev st'; rest := rest st';
              groups := (n, taken (rest st) (rest st')) :: groups st' |})
        (exec f r st).
Proof. reflexivity. Qed.

Lemma last_of_snoc pv u c : last_of pv (u ++ [c]) = Some c.
Proof. unfold last_of. now rewrite fold_left_app. Qed.

(** The tag pattern at a bare tag: the match is the tag, group 1 its
    name. *)
Lemma tag_match_bare closing name pv b :
  name <> [] -> forallb name_char name = true ->
  exists m,
    match_at flag_is re_tag pv (bare_tag closing name ++ b) = Some m
    /\ m_text m = bare_tag closing name
    /\ m_group m 1 = Some name.
Proof.
  intros Hne Hn.
  assert (Hset : forallb (atom_ok flag_is (Set_ [IRange "a" "z"; IRange "0" "9"]))
                         name = true).
  { rewrite forallb_forall in *. intros c Hc. rewrite name_char_set. auto. }
  set (tail := Cat (Opt (Cat (One Space) (Star not_gt))) (Cat (lit ">") Eps)).
  assert (Tail : forall pv' g,
            exec flag_is tail {| prev := pv'; rest := ">"%char :: b; groups := g |}
            = [{| prev := Some ">"%char; rest := b; groups := g |}]).
  { intros pv' g. reflexivity. }
  assert (Grp : forall pv' g,
            exists l,
              exec flag_is
                   (Cat (Group 1 (Plus (Set_ [IRange "a" "z"; IRange "0" "9"]))) tail)
                   {| prev := pv'; rest := name ++ ">"%char :: b; groups := g |}
              = {| prev := Some ">"%char; rest := b; groups := (1, name) :: g |}
                  :: l).
  { intros pv' g.
    destruct (plus_run flag_is (Set_ [IRange "a" "z"; IRange "0" "9"]) name
                (">"%char :: b) pv' g Hne Hset eq_refl) as [l El].
    eapply exec_cat_first.
    - rewrite exec_group, El. cbn [map rest prev groups].
      rewrite taken_app. reflexivity.
    - eexists. apply Tail. }
  assert (M : exists l,
            exec flag_is re_tag
                 {| prev := pv; rest := bare_tag closing name ++ b; groups := [] |}
            = {| prev := Some ">"%char; rest := b; groups := [(1, name)] |} :: l).
  { change re_tag
      with (Cat (lit "<")
                (Cat (Opt (lit "/"))
                     (Cat (Group 1 (Plus (Set_ [IRange "a" "z"; IRange "0" "9"])))
                          tail))).
    unfold bare_tag. rewrite <- !app_assoc. cbn [L list_ascii_of_string app].
    destruct closing.
    - eapply exec_cat_first; [reflexivity|].
      eapply exec_cat_first; [|exact (Grp (Some "/"%char) [])].
      reflexivity.
    - eapply exec_cat_first; [reflexivity|].
      eapply exec_cat_first; [|exact (Grp (Some "<"%char) [])].
      clear Grp Tail Hset.
      destruct name as [|c name']; [congruence|].
      cbn in Hn. apply andb_true_iff in Hn as [Hc _].
      cbn [exec lit seq_re fold_right map L list_ascii_of_string app rest
           advance flat_map].
      rewrite (name_char_not_slash c Hc). reflexivity. }
  destruct M as [l El]. unfold match_at. rewrite El.
  eexists. split; [reflexivity|]. cbn [m_text m_group m_groups rest groups].
  split; [apply taken_app|reflexivity].
Qed.

Lemma match_at_nil f R0 R a pv :
  match_at f (Cat (Cat (One (Lit a)) R0) R) pv [] = None.
Proof. reflexivity. Qed.

Lemma sub_scan_nil f r R0 R repl pv :
  r = Cat (Cat (One (Lit "<"%char)) R0) R ->
  sub_scan f r repl 0 pv [] = Ret [].
Proof. intros ->. cbn [sub_scan]. now rewrite match_at_nil. Qed.

Lemma sub_scan_chars f r R0 R repl u y z :
  r = Cat (Cat (One (Lit "<"%char)) R0) R ->
  forallb markup_free u = true ->
  (forall pv, sub_scan f r repl 0 pv y = Ret z) ->
  forall pv, sub_scan f r repl 0 pv (u ++ y) = Ret (u ++ z).
Proof.
  intros E. induction u as [|c u IH]; intros M H pv; [apply H|].
  cbn in M. apply andb_true_iff in M as [Mc M]. cbn [app sub_scan].
  rewrite (match_at_head_lt f r R0 R pv c (u ++ y) E Mc).
  now rewrite (IH M H (Some c)).
Qed.

Lemma sub_scan_skip f r repl y z :
  (forall pv, sub_scan f r repl 0 pv y = Ret z) ->
  forall u pv, sub_scan f r repl (List.length u) pv (u ++ y) = Ret z.
Proof.
  intros H. induction u as [|c u IH]; intros pv; cbn; [apply H|apply IH].
Qed.

Lemma sub_scan_plain f r R0 R repl u :
  r = Cat (Cat (One (Lit "<"%char)) R0) R ->
  forallb markup_free u = true ->
  forall pv, sub_scan f r repl 0 pv u = Ret u.
Proof.
  intros E M pv. rewrite <- (app_nil_r u) at 1.
  rewrite (sub_scan_chars f r R0 R repl u [] [] E M);
    [now rewrite app_nil_r|].
  intros pv'. exact (sub_scan_nil f r R0 R repl pv' E).
Qed.

(** The allowlist pass on a text whose only markup is a bare tag. *)
Lemma tag_pass_bare a b closing name :
  forallb markup_free a = true -> forallb markup_free b = true ->
  name <> [] -> forallb name_char name = true ->
  re_sub flag_is re_tag keep_or_strip (a ++ bare_tag closing name ++ b)
  = Ret (a ++ (if existsb (str_eqb (lower name)) allowed
               then bare_tag closing name else []) ++ b).
Proof.
  intros Ma Mb Hne Hn. unfold re_sub.
  apply (sub_scan_chars flag_is re_tag _ _ keep_or_strip a _ _ tag_shape Ma).
  intros pv.
  destruct (tag_match_bare closing name pv b Hne Hn) as (m & Hm & Tm & Gm).
  assert (K : keep_or_strip m
              = Ret (if existsb (str_eqb (lower name)) allowed
                     then bare_tag closing name else [])).
  { unfold keep_or_strip. now rewrite Gm, Tm. }
  assert (Len : List.length (m_text m)
                = S (List.length ((if closing then L "/" else [])
                                    ++ name ++ L ">"))).
  { rewrite Tm. reflexivity. }
  revert Hm. unfold bare_tag. cbn [L list_ascii_of_string]. cbn [app].
  intros Hm. cbn [sub_scan]. rewrite Hm, K. cbn [bind]. rewrite Len.
  change ((if closing then ["/"%char] else []) ++ name ++ [">"%char])
    with ((if closing then L "/" else []) ++ name ++ L ">").
  rewrite (sub_scan_skip flag_is re_tag keep_or_strip b b);
    [reflexivity|].
  exact (sub_scan_plain flag_is re_tag _ _ keep_or_strip b tag_shape Mb).
Qed.

(** A pattern that begins with [<] finds nothing in a text with a single
    [<] at which it does not match. *)
Lemma find_scan_single f r R0 R a t :
  r = Cat (Cat (One (Lit "<"%char)) R0) R ->
  forallb markup_free a = true -> forallb markup_free t = true ->
  (forall pv, match_at f r pv ("<"%char :: t) = None) ->
  forall pv, find_scan f r 0 pv (a ++ "<"%char :: t) = [].
Proof.
  intros E Ma Mt N.
  apply (find_scan_chars f r R0 R (fun l => l = []) a _ E Ma).
  intros pv. cbn [find_scan]. rewrite N.
  apply (find_scan_none_needs f "<" r t 0 (Some "<"%char));
    [subst r; reflexivity|].
  exact (markup_free_lt f t Mt).
Qed.

Lemma match_at_second_lt f R pv t :
  needs "<" R = true -> forallb markup_free t = true ->
  match_at f (Cat (Cat (One (Lit "<"%char)) Eps) R) pv ("<"%char :: t) = None.
Proof.
  intros N Mt. unfold match_at. rewrite exec_cat.
  assert (E : exec f (Cat (One (Lit "<"%char)) Eps)
                   {| prev := pv; rest := "<"%char :: t; groups := [] |}
              = [{| prev := Some "<"%char; rest := t; groups := [] |}])
    by (destruct f as [[|] d]; reflexivity).
  rewrite E. cbn [flat_map]. rewrite app_nil_r.
  now rewrite (exec_needs f "<" R
                 {| prev := Some "<"%char; rest := t; groups := [] |}
                 N (markup_free_lt f t Mt)).
Qed.

Lemma script_none_single pv t :
  forallb markup_free t = true ->
  match_at flag_is re_script pv ("<"%char :: t) = None.
Proof.
  intros Mt. rewrite script_shape.
  apply match_at_second_lt; [reflexivity|exact Mt].
Qed.

Lemma bare_tail_markup_free (closing : bool) name b :
  forallb name_char name = true -> forallb markup_free b = true ->
  forallb markup_free ((if closing then L "/" else []) ++ name ++ L ">" ++ b)
  = true.
Proof.
  intros Hn Mb. rewrite !forallb_app, Mb.
  rewrite (forallb_impl _ _ _ name_char_markup_free Hn).
  destruct closing; reflexivity.
Qed.

Lemma bare_tag_split a (closing : bool) name b :
  a ++ bare_tag closing name ++ b
  = a ++ "<"%char :: ((if closing then L "/" else []) ++ name ++ L ">" ++ b).
Proof. unfold bare_tag. now rewrite <- !app_assoc. Qed.

Lemma single_lt_no_eq f a t :
  forallb markup_free a = true -> forallb markup_free t = true ->
  Forall (fun c => atom_ok f (Lit "="%char) c = false) (a ++ "<"%char :: t).
Proof.
  intros Ma Mt. apply Forall_app. split; [exact (markup_free_eq f a Ma)|].
  constructor; [destruct f as [[|] d]; reflexivity|].
  exact (markup_free_eq f t Mt).
Qed.

(** None of the allowed names but [a] begins with an [a]. *)
Lemma allowed_head name :
  existsb (str_eqb (lower name)) allowed = true -> lower name <> L "a" ->
  match name with
  | c :: _ => atom_ok flag_i (Lit "a"%char) c = false
  | [] => True
  end.
Proof.
  intros A N. destruct name as [|c name]; [exact I|].
  cbn [existsb allowed map] in A.
  repeat (apply orb_true_iff in A as [A|A]);
    try discriminate A;
    apply str_eqb_eq in A; try congruence;
    cbn [lower map] in A; injection A as A _;
    cbn [atom_ok flag_i ignorecase]; rewrite A; reflexivity.
Qed.

Lemma link_none_single pv (closing : bool) name b :
  name <> [] ->
  (closing = false ->
   match name with
   | c :: _ => atom_ok flag_i (Lit "a"%char) c = false
   | [] => True
   end) ->
  match_at flag_i re_link pv
           ("<"%char :: (if closing then L "/" else []) ++ name ++ L ">" ++ b)
  = None.
Proof.
  intros Hne H. unfold match_at. rewrite link_shape.
  destruct closing.
  - reflexivity.
  - destruct name as [|c name]; [congruence|]. specialize (H eq_refl).
    cbn [app L list_ascii_of_string]. rewrite !exec_cat.
    change (exec flag_i (One (Lit "<"%char))
                 {| prev := pv;
                    rest := "<"%char :: c :: name ++ ">"%char :: b;
                    groups := [] |})
      with [{| prev := Some "<"%char; rest := c :: name ++ ">"%char :: b;
               groups := [] |}].
    cbn [flat_map]. rewrite ?exec_cat. cbn [exec rest]. rewrite H.
    reflexivity.
Qed.

(** X12.  In a text that has no [<] and no [=] apart from one tag
    without attributes, [<name>] or [</name>] with a name of ASCII
    letters and digits, the sanitizer takes the tag away when its name,
    in lower case, is not on the allowlist, and leaves the text around
    it as it is; a tag of the allowlist stays, and the whole text comes
    back unchanged.  (An opening [<a>] gets its two attributes and is
    left to the statement on them.) *)
Theorem sanitize_bare_tag (a b name : str) (closing : bool) :
  forallb markup_free a = true -> forallb markup_free b = true ->
  name <> [] -> forallb name_char name = true ->
  (closing = false -> lower name <> L "a") ->
  basic_sanitize_ul (a ++ bare_tag closing name ++ b)
  = Ret (if existsb (str_eqb (lower name)) allowed
         then a ++ bare_tag closing name ++ b
         else a ++ b).
Proof.
  intros Ma Mb Hne Hn Ha.
  pose proof (bare_tail_markup_free closing name b Hn Mb) as Mt.
  pose proof (tag_pass_bare a b closing name Ma Mb Hne Hn) as T.
  assert (NE : is_empty (a ++ bare_tag closing name ++ b) = false)
    by (rewrite bare_tag_split; destruct a; reflexivity).
  unfold basic_sanitize_ul. rewrite NE.
  rewrite (re_sub_fixed flag_is re_script).
  2:{ unfold re_finditer. rewrite bare_tag_split.
      rewrite (find_scan_single flag_is re_script _ _ a _ script_shape Ma Mt);
        [constructor|].
      intros pv. now apply script_none_single. }
  cbn [bind].
  rewrite (re_sub_none_needs flag_is "=" re_handler).
  2:{ reflexivity. }
  2:{ rewrite bare_tag_split. now apply single_lt_no_eq. }
  cbn [bind].
  rewrite (re_sub_none_needs flag_i "=" re_href).
  2:{ reflexivity. }
  2:{ rewrite bare_tag_split. now apply single_lt_no_eq. }
  cbn [bind]. rewrite T. cbn [bind].
  destruct (existsb (str_eqb (lower name)) allowed) eqn:A.
  - rewrite (re_sub_fixed flag_i re_link); [reflexivity|].
    unfold re_finditer. rewrite bare_tag_split.
    rewrite (find_scan_single flag_i re_link _ _ a _ link_shape Ma Mt);
      [constructor|].
    intros pv. apply link_none_single; [exact Hne|].
    intros C. apply allowed_head; [exact A|exact (Ha C)].
  - cbn [app].
    rewrite (re_sub_none_needs flag_i "<" re_link); [reflexivity|reflexivity|].
    apply markup_free_lt. now rewrite forallb_app, Ma, Mb.
Qed.

Lemma sanitize_bare_tag_witness :
  basic_sanitize_ul (L "Acme <Blink>raises") = Ret (L "Acme raises")
  /\ basic_sanitize_ul (L "Acme raises</EM> a round")
     = Ret (L "Acme raises</EM> a round").
Proof.
  split.
  - apply (sanitize_bare_tag (L "Acme ") (L "raises") (L "Blink") false);
      try reflexivity; discriminate.
  - apply (sanitize_bare_tag (L "Acme raises") (L " a round") (L "EM") true);
      try reflexivity; discriminate.
Defined.

(* ------------------------------------------------------------------ *)
(** ** The date filter and the letter case *)

Import Case.

Lemma lower_word c : is_word (lower_char c) = is_word c.
Proof. by_char c. Qed.

Lemma lower_newline c :
  Ascii.eqb (lower_char c) newline = Ascii.eqb c newline.
Proof. by_char c. Qed.

Lemma lower_lower s : lower (lower s) = lower s.
Proof.
  unfold lower. rewrite map_map. apply map_ext. intros c. apply lower_idem.
Qed.

Lemma lstrip_lower s : lstrip (lower s) = lower (lstrip s).
Proof.
  induction s as [|c s IH]; [reflexivity|]. cbn [lower map lstrip].
  rewrite lower_space. destruct (is_space c); [exact IH|reflexivity].
Qed.

Lemma rev_lower s : rev (lower s) = lower (rev s).
Proof. unfold lower. symmetry. apply map_rev. Qed.

Lemma strip_lower s : strip (lower s) = lower (strip s).
Proof.
  unfold strip, rstrip.
  now rewrite lstrip_lower, rev_lower, lstrip_lower, rev_lower.
Qed.

Lemma atom_blind f a c :
  ignorecase f = true -> blind_atom a = true ->
  atom_ok f a (lower_char c) = atom_ok f a c.
Proof.
  intros I B. destruct a; try discriminate; cbn [atom_ok]; rewrite ?I.
  - now rewrite lower_idem.
  - now rewrite lower_newline.
  - apply lower_space.
  - apply lower_digit.
  - apply lower_word.
  - now rewrite lower_idem.
Qed.

Lemma greedy_star_lower p :
  (forall c, p (lower_char c) = p c) ->
  forall s pv g,
    greedy_star p (option_map lower_char pv) (lower s) (lower_groups g)
    = map lower_state (greedy_star p pv s g).
Proof.
  intros H. induction s as [|c s IH]; intros pv g; [reflexivity|].
  cbn [lower map greedy_star]. rewrite H. destruct (p c); [|reflexivity].
  rewrite map_app. cbn [map]. f_equal. exact (IH (Some c) g).
Qed.

Lemma lazy_star_lower p :
  (forall c, p (lower_char c) = p c) ->
  forall s pv g,
    lazy_star p (option_map lower_char pv) (lower s) (lower_groups g)
    = map lower_state (lazy_star p pv s g).
Proof.
  intros H. induction s as [|c s IH]; intros pv g; [reflexivity|].
  cbn [lower map lazy_star]. rewrite H. destruct (p c); [|reflexivity].
  cbn [map]. f_equal. exact (IH (Some c) g).
Qed.

Lemma lookup_lower n g :
  lookup n (lower_groups g) = option_map lower (lookup n g).
Proof.
  induction g as [|[k v] g IH]; [reflexivity|]. cbn.
  destruct (Nat.eqb k n); [reflexivity|exact IH].
Qed.

Lemma backref_lower g : forall st,
  backref true (lower g) (lower_state st) = map lower_state (backref true g st).
Proof.
  induction g as [|x g IH]; intros st; [reflexivity|].
  cbn [lower map backref lower_state rest].
  destruct (rest st) as [|c s']; [reflexivity|]. cbn [lower map].
  rewrite !lower_idem.
  destruct (Ascii.eqb (lower_char c) (lower_char x)); [|reflexivity].
  exact (IH (advance c s' st)).
Qed.

Lemma taken_lower a b : taken (lower a) (lower b) = lower (taken a b).
Proof.
  unfold taken, lower. rewrite !length_map. apply firstn_map.
Qed.

Lemma flat_map_map {A B C} (f : B -> list C) (g : A -> B) l :
  flat_map f (map g l) = flat_map (fun x => f (g x)) l.
Proof.
  induction l as [|x l IH]; [reflexivity|]. cbn. now rewrite IH.
Qed.

Lemma map_flat_map {A B C} (f : A -> list B) (g : B -> C) l :
  map g (flat_map f l) = flat_map (fun x => map g (f x)) l.
Proof.
  induction l as [|x l IH]; [reflexivity|]. cbn. now rewrite map_app, IH.
Qed.

(** When case is ignored, a pattern without negated sets matches the
    text in lower case the way it matches the text. *)
Lemma exec_lower f r :
  ignorecase f = true -> case_blind r = true ->
  forall st, exec f r (lower_state st) = map lower_state (exec f r st).
Proof.
  intros I.
  induction r as [|a|r1 IH1 r2 IH2|r1 IH1 r2 IH2|a|a|a|r1 IH1|n r1 IH1|n|];
    intros B st; cbn [case_blind] in B.
  - reflexivity.
  - cbn [exec lower_state rest]. destruct (rest st) as [|c s']; [reflexivity|].
    cbn [lower map]. rewrite (atom_blind f a c I B).
    destruct (atom_ok f a c); reflexivity.
  - apply andb_true_iff in B as [B1 B2]. cbn [exec].
    rewrite (IH1 B1), flat_map_map, map_flat_map.
    apply flat_map_ext. intros x. exact (IH2 B2 x).
  - apply andb_true_iff in B as [B1 B2]. cbn [exec].
    now rewrite (IH1 B1), (IH2 B2), map_app.
  - cbn [exec lower_state rest prev groups].
    apply greedy_star_lower. intros c. exact (atom_blind f a c I B).
  - cbn [exec lower_state rest prev groups].
    destruct (rest st) as [|c s']; [reflexivity|]. cbn [lower map].
    rewrite (atom_blind f a c I B). destruct (atom_ok f a c); [|reflexivity].
    apply (greedy_star_lower _ (fun c => atom_blind f a c I B) s' (Some c)).
  - cbn [exec lower_state rest prev groups].
    apply lazy_star_lower. intros c. exact (atom_blind f a c I B).
  - cbn [exec]. now rewrite (IH1 B), map_app.
  - cbn [exec]. rewrite (IH1 B), !map_map. apply map_ext. intros x.
    unfold lower_state. cbn [prev rest groups lower_groups map fst snd].
    now rewrite taken_lower.
  - cbn [exec lower_state groups]. rewrite lookup_lower, I.
    destruct (lookup n (groups st)) as [g|]; [|reflexivity].
    exact (backref_lower g st).
  - cbn [exec lower_state prev rest].
    assert (E : opt_word (hd_error (lower (rest st)))
                = opt_word (hd_error (rest st)))
      by (destruct (rest st); [reflexivity|apply lower_word]).
    assert (E' : opt_word (option_map lower_char (prev st))
                 = opt_word (prev st))
      by (destruct (prev st); [apply lower_word|reflexivity]).
    rewrite E, E'. destruct (xorb _ _); reflexivity.
Qed.

Lemma re_match_lower f r s :
  ignorecase f = true -> case_blind r = true ->
  re_match f r (lower s) = option_map lower_match (re_match f r s).
Proof.
  intros I B. unfold re_match, match_at.
  change (exec f r {| prev := None; rest := lower s; groups := [] |})
    with (exec f r (lower_state {| prev := None; rest := s; groups := [] |})).
  rewrite (exec_lower f r I B).
  destruct (exec f r {| prev := None; rest := s; groups := [] |}) as [|st l];
    [reflexivity|].
  cbn [map option_map]. unfold lower_match, lower_state.
  cbn [m_text m_groups m_last m_after prev rest groups].
  now rewrite taken_lower.
Qed.

Lemma digits_value_lower t :
  forallb is_digit t = true -> lower t = t.
Proof.
  unfold lower. induction t as [|c t IH]; [reflexivity|]. cbn [forallb map].
  intros H. apply andb_true_iff in H as [Hc H].
  now rewrite (digit_lower c Hc), (IH H).
Qed.

Lemma forallb_digit_lower t : forallb is_digit (lower t) = forallb is_digit t.
Proof.
  unfold lower. induction t as [|c t IH]; [reflexivity|]. cbn [forallb map].
  now rewrite lower_digit, IH.
Qed.

Lemma int_lower g : int_ (lower g) = int_ g.
Proof.
  unfold int_. rewrite strip_lower, forallb_digit_lower.
  assert (E : is_empty (lower (strip g)) = is_empty (strip g))
    by (destruct (strip g); reflexivity).
  rewrite E. destruct (forallb is_digit (strip g)) eqn:D.
  - now rewrite (digits_value_lower _ D).
  - now rewrite !andb_false_r.
Qed.

Lemma opt_int_lower o d : opt_int (option_map lower o) d = opt_int o d.
Proof. destruct o; [apply int_lower|reflexivity]. Qed.

Lemma date_formats_blind fmt r :
  In fmt date_formats -> format_regex false fmt = Some r -> case_blind r = true.
Proof.
  intros [<-|[<-|[<-|[]]]] E; vm_compute in E; injection E as <-;
    vm_compute; reflexivity.
Qed.

(** The three date formats read a text and the text in lower case as the
    same date. *)
Lemma strptime_lower t fmt :
  In fmt date_formats -> strptime (lower t) fmt = strptime t fmt.
Proof.
  intros Hf. unfold strptime.
  destruct (format_regex false fmt) as [r|] eqn:E; [|reflexivity].
  rewrite (re_match_lower flag_i r t eq_refl (date_formats_blind fmt r Hf E)).
  destruct (re_match flag_i r t) as [found|]; [|reflexivity].
  cbn [option_map]. unfold lower_match at 1. cbn [m_after].
  assert (Ea : is_empty (lower (m_after found)) = is_empty (m_after found))
    by (destruct (m_after found); reflexivity).
  rewrite Ea. destruct (negb (is_empty (m_after found))); [reflexivity|].
  unfold found_month, m_group, lower_match. cbn [m_groups].
  rewrite !lookup_lower, !opt_int_lower.
  destruct (lookup (key "B") (m_groups found)) as [gB|];
    destruct (lookup (key "b") (m_groups found)) as [gb|];
    cbn [option_map]; rewrite ?lower_lower; reflexivity.
Qed.

Lemma try_formats_lower now t fmts :
  (forall fmt, In fmt fmts -> In fmt date_formats) ->
  try_formats now (lower t) fmts = try_formats now t fmts.
Proof.
  induction fmts as [|fmt more IH]; intros H; [reflexivity|].
  cbn [try_formats]. rewrite (strptime_lower t fmt (H fmt (or_introl eq_refl))).
  destruct (strptime t fmt) as [d|[]]; try reflexivity.
  apply IH. intros f Hf. apply H. now right.
Qed.

Lemma within_past_week_lower now s :
  within_past_week now (lower s) = within_past_week now s.
Proof.
  destruct s as [|c s]; [reflexivity|].
  rewrite (within_past_week_rules_nonempty now (c :: s)) by discriminate.
  rewrite within_past_week_rules_nonempty by discriminate. cbv zeta.
  rewrite strip_lower, lower_lower.
  rewrite (try_formats_lower now (strip (c :: s)) date_formats (fun _ H => H)).
  reflexivity.
Qed.

(** X13.  The date filter does not look at the letter case: two texts
    that are the same in lower case get the same answer, whatever the
    clock shows. *)
Theorem within_past_week_ignores_case (now : datetime) (s1 s2 : str) :
  lower s1 = lower s2 ->
  within_past_week now s1 = within_past_week now s2.
Proof.
  intros E. rewrite <- (within_past_week_lower now s1), E.
  apply within_past_week_lower.
Qed.

Lemma within_past_week_ignores_case_witness :
  within_past_week now_oct11 (L "OCT 9, 2025")
  = within_past_week now_oct11 (L "oct 9, 2025")
  /\ within_past_week now_oct11 (L "2 DAYS AGO") = Ret true.
Proof.
  split.
  - apply within_past_week_ignores_case. reflexivity.
  - rewrite (within_past_week_ignores_case now_oct11 (L "2 DAYS AGO")
               (L "2 days ago") eq_refl).
    vm_compute. reflexivity.
Defined.

(* ------------------------------------------------------------------ *)
(** ** [generate] *)

Lemma int_text_value_error s e : int_text s = Raise e -> e = ValueError.
Proof.
  unfold int_text. cbv zeta.
  destruct (digit_groups _ _ && _); [discriminate|congruence].
Qed.

Lemma form_int_value_error field d e :
  form_int field d = Raise e -> e = ValueError.
Proof.
  destruct field as [[|c s]|]; cbn [form_int]; try discriminate.
  apply int_text_value_error.
Qed.

Lemma form_keyword_nonempty field : form_keyword field <> [].
Proof. exact (proj1 (form_keyword_facts field)). Qed.

(** X14.  The two counts of the form are not checked against the ranges
    the page names.  A field that is no number gives the error page and
    no request is made.  A page count of zero or below is taken as it
    is: the search service is not asked, but the language model is,
    with an empty list of items, and the page shows what comes of its
    reply with a count of zero. *)
Theorem generate_counts_unchecked (c : config) (w : world) :
  (forall e, form_int (form w "pages") (DEFAULT_PAGES c) = Raise e ->
             generate c w = error_page (Python ValueError))
  /\ (forall pages e,
        form_int (form w "pages") (DEFAULT_PAGES c) = Ret pages ->
        form_int (form w "num") (DEFAULT_NUM c) = Raise e ->
        generate c w = error_page (Python ValueError))
  /\ (forall pages num,
        form_int (form w "pages") (DEFAULT_PAGES c) = Ret pages ->
        form_int (form w "num") (DEFAULT_NUM c) = Ret num ->
        (pages <= 0)%Z ->
        match ask w [] (form_keyword (form w "keyword")) with
        | None => generate c w = error_page ModelError
        | Some reply =>
            exists ul,
              llm_ul_fragment reply = Ret ul
              /\ generate c w
                 = {| keyword := form_keyword (form w "keyword");
                      ul_fragment := Some ul;
                      meta := Some {| count := 0;
                                      meta_generated_at := generated_at w;
                                      meta_duration_sec := duration_sec w;
                                      pages := pages;
                                      num := num;
                                      meta_keyword :=
                                        form_keyword (form w "keyword") |};
                      error := None |}
        end).
Proof.
  split; [|split].
  - intros e E. unfold generate. cbv zeta. rewrite E.
    now rewrite (form_int_value_error _ _ _ E).
  - intros pages e Ep E. unfold generate. cbv zeta. rewrite Ep, E.
    now rewrite (form_int_value_error _ _ _ E).
  - intros pages num Ep En H. unfold generate. cbv zeta. rewrite Ep, En.
    rewrite (fetch_nothing _ _ _ _ pages num H).
    destruct (ask w [] _) as [reply|]; [|reflexivity].
    destruct (sanitize_returns_complete (fragment_of reply)) as (ul & E & _).
    exists ul. unfold llm_ul_fragment. rewrite E. split; reflexivity.
Qed.

Lemma generate_counts_unchecked_witness :
  exists ul,
    llm_ul_fragment (Some (L "- nothing found")) = Ret ul
    /\ generate defaults no_service
       = {| keyword := L "Acme";
            ul_fragment := Some ul;
            meta := Some {| count := 0;
                            meta_generated_at := L "2025-10-11 12:00:00";
                            meta_duration_sec := SpecFloat.S754_zero false;
                            pages := -3;
                            num := 40;
                            meta_keyword := L "Acme" |};
            error := None |}.
Proof.
  exact (proj2 (proj2 (generate_counts_unchecked defaults no_service))
           (-3)%Z 40%Z eq_refl eq_refl ltac:(lia)).
Defined.

(** X15.  [generate] shows one of two pages.  The page without an error
    holds the keyword of the form, which is not empty, a fragment in
    which every [<a ...>] tag has [target=] and [rel=], and a count that
    is the number of the items fetched, no two of which have the same
    link; the page with an error holds no fragment and no figures, and
    the default keyword. *)
Theorem generate_page (c : config) (w : world) :
  match error (generate c w) with
  | None =>
      keyword (generate c w) = form_keyword (form w "keyword")
      /\ keyword (generate c w) <> []
      /\ exists ul m cleaned,
           ul_fragment (generate c w) = Some ul
           /\ attribute_complete ul = true
           /\ meta (generate c w) = Some m
           /\ meta_keyword m = keyword (generate c w)
           /\ fetch_and_clean_news (serve w) (clock w) (SERPAPI_KEY c)
                                   (keyword (generate c w)) (pages m) (num m)
              = Done cleaned
           /\ count m = List.length cleaned
           /\ NoDup (links cleaned)
  | Some _ =>
      keyword (generate c w) = default_keyword
      /\ ul_fragment (generate c w) = None
      /\ meta (generate c w) = None
  end.
Proof.
  unfold generate. cbv zeta.
  destruct (form_int (form w "pages") (DEFAULT_PAGES c)) as [pg|e];
    [|cbn; auto].
  destruct (form_int (form w "num") (DEFAULT_NUM c)) as [nm|e];
    [|cbn; auto].
  destruct (fetch_and_clean_news _ _ _ _ pg nm) as [cleaned|e|] eqn:F;
    [|cbn; auto..].
  destruct (ask w cleaned _) as [reply|]; [|cbn; auto].
  destruct (sanitize_returns_complete (fragment_of reply)) as (ul & E & A).
  unfold llm_ul_fragment. rewrite E.
  cbn [error keyword ul_fragment meta].
  split; [reflexivity|]. split; [apply form_keyword_nonempty|].
  exists ul. eexists. exists cleaned.
  split; [reflexivity|]. split; [exact A|]. split; [reflexivity|].
  cbn [meta_keyword pages num count].
  split; [reflexivity|]. split; [exact F|]. split; [reflexivity|].
  exact (proj1 (fetch_done _ _ _ _ _ _ _ F)).
Qed.

(* ------------------------------------------------------------------ *)
(** ** The script pass on a script element *)

(** A literal text is matched whatever the case of the letters. *)
Lemma exec_lit_ci f p : forall u t pv g,
  ignorecase f = true -> lower u = lower p ->
  exec f (lit_str p) {| prev := pv; rest := u ++ t; groups := g |}
  = [{| prev := last_of pv u; rest := t; groups := g |}].
Proof.
  induction p as [|x p IH]; intros u t pv g I E.
  - destruct u; [reflexivity|discriminate].
  - destruct u as [|c u]; [discriminate|].
    cbn [lower map] in E. injection E as Ec Eu.
    change (lit_str (x :: p)) with (Cat (One (Lit x)) (lit_str p)).
    rewrite exec_cat. cbn [exec rest app atom_ok]. rewrite I, Ec, Ascii.eqb_refl.
    cbn [flat_map advance groups]. rewrite app_nil_r.
    exact (IH u t (Some c) g I Eu).
Qed.

Lemma exec_lit_word f (w : string) u t pv g :
  ignorecase f = true -> lower u = L w -> lower (L w) = L w ->
  exec f (lit w) {| prev := pv; rest := u ++ t; groups := g |}
  = [{| prev := last_of pv u; rest := t; groups := g |}].
Proof.
  intros I E W. apply (exec_lit_ci f (L w) u t pv g I). now rewrite W.
Qed.

(** No blank is taken where a word begins. *)
Lemma star_space_none f u x p t pv g :
  lower u = x :: p -> is_space x = false ->
  exec f (Star Space) {| prev := pv; rest := u ++ t; groups := g |}
  = [{| prev := pv; rest := u ++ t; groups := g |}].
Proof.
  intros E X. destruct u as [|c u]; [discriminate|].
  cbn [lower map] in E. injection E as Ec _.
  cbn [exec rest prev groups app greedy_star atom_ok].
  now rewrite <- lower_space, Ec, X.
Qed.

Lemma lazy_star_head p pv s g :
  exists l, lazy_star p pv s g = {| prev := pv; rest := s; groups := g |} :: l.
Proof.
  destruct s as [|c s]; cbn [lazy_star]; [eexists; reflexivity|].
  destruct (p c); eexists; reflexivity.
Qed.

(** A lazy run goes on as long as what follows it in the pattern does
    not match. *)
Lemma exec_lazy_skip f a R g s2 l2 t : forall body pv,
  forallb (atom_ok f a) body = true ->
  (forall c, In c body ->
             forall pv' y, exec f R {| prev := pv'; rest := c :: y; groups := g |}
                           = []) ->
  exec f R {| prev := last_of pv body; rest := t; groups := g |} = s2 :: l2 ->
  exists l, exec f (Cat (LazyStar a) R)
                 {| prev := pv; rest := body ++ t; groups := g |} = s2 :: l.
Proof.
  induction body as [|c body IH]; intros pv A N E.
  - rewrite exec_cat. cbn [exec rest prev groups app].
    destruct (lazy_star_head (atom_ok f a) pv t g) as [l ->].
    cbn [flat_map]. cbn [last_of fold_left] in E. rewrite E.
    eexists. reflexivity.
  - cbn [forallb] in A. apply andb_true_iff in A as [Ac A].
    rewrite exec_cat. cbn [exec rest prev groups app lazy_star]. rewrite Ac.
    cbn [flat_map]. rewrite (N c (or_introl eq_refl)). cbn [app].
    destruct (IH (Some c) A (fun x Hx => N x (or_intror Hx)) E) as [l El].
    rewrite exec_cat in El. cbn [exec rest prev groups] in El.
    eexists. exact El.
Qed.

Lemma no_lt_lit c : no_lt c = true -> atom_ok flag_is (Lit "<"%char) c = false.
Proof.
  unfold no_lt. intros H. apply negb_true_iff in H.
  cbn [atom_ok flag_is ignorecase]. change (lower_char "<") with "<"%char.
  now rewrite lit_lt_ci.
Qed.

Lemma dot_all c : atom_ok flag_is Dot c = true.
Proof. reflexivity. Qed.

(** The script pattern at a script element: the match is the element. *)
Lemma script_match o body cl b pv :
  lower o = L "<script>" -> lower cl = L "</script>" ->
  forallb no_lt body = true ->
  exists m,
    match_at flag_is re_script pv (o ++ body ++ cl ++ b) = Some m
    /\ m_text m = o ++ body ++ cl.
Proof.
  intros Ho Hc Hb.
  change (L "<script>") with (L "<" ++ L "script" ++ L ">") in Ho.
  apply map_eq_app in Ho as (o1 & o' & -> & Ho1 & Ho).
  apply map_eq_app in Ho as (o2 & o3 & -> & Ho2 & Ho3).
  change (L "</script>") with (L "<" ++ L "/" ++ L "script" ++ L ">") in Hc.
  apply map_eq_app in Hc as (k1 & k' & -> & Hk1 & Hc).
  apply map_eq_app in Hc as (k2 & k'' & -> & Hk2 & Hc).
  apply map_eq_app in Hc as (k3 & k4 & -> & Hk3 & Hk4).
  fold (lower o1) in Ho1. fold (lower o2) in Ho2. fold (lower o3) in Ho3.
  fold (lower k1) in Hk1. fold (lower k2) in Hk2. fold (lower k3) in Hk3.
  fold (lower k4) in Hk4.
  pose (fin := last_of (last_of (last_of (last_of (last_of (last_of (last_of (last_of pv o1) o2) o3) body) k1) k2) k3) k4).
  assert (M : exists pv' l,
            exec flag_is re_script
                 {| prev := pv;
                    rest := o1 ++ o2 ++ o3 ++ body ++ k1 ++ k2 ++ k3 ++ k4 ++ b;
                    groups := [] |}
            = {| prev := pv'; rest := b; groups := [] |} :: l).
  { exists fin.
    change re_script
      with (Cat (lit "<") (Cat (Star Space) (Cat (lit "script")
             (Cat (LazyStar Dot) (Cat (lit ">") (Cat (LazyStar Dot)
               (Cat (lit "<") (Cat (Star Space) (Cat (lit "/")
                 (Cat (Star Space) (Cat (lit "script") (Cat (Star Space)
                   (Cat (lit ">") Eps))))))))))))).
    eapply exec_cat_first;
      [exact (exec_lit_word flag_is "<" o1 _ _ _ eq_refl Ho1 eq_refl)|].
    eapply exec_cat_first;
      [exact (star_space_none flag_is o2 _ _ _ _ _ Ho2 eq_refl)|].
    eapply exec_cat_first;
      [exact (exec_lit_word flag_is "script" o2 _ _ _ eq_refl Ho2 eq_refl)|].
    destruct (lazy_star_head (atom_ok flag_is Dot) (last_of (last_of pv o1) o2)
                (o3 ++ body ++ k1 ++ k2 ++ k3 ++ k4 ++ b) []) as [l0 L0].
    assert (E : exists l,
                exec flag_is
                     (Cat (lit "<") (Cat (Star Space) (Cat (lit "/")
                        (Cat (Star Space) (Cat (lit "script")
                          (Cat (Star Space) (Cat (lit ">") Eps)))))))
                     {| prev := last_of (last_of (last_of (last_of pv o1) o2) o3) body;
                        rest := k1 ++ k2 ++ k3 ++ k4 ++ b; groups := [] |}
                = {| prev := fin; rest := b; groups := [] |} :: l).
      { eapply exec_cat_first;
          [exact (exec_lit_word flag_is "<" k1 _ _ _ eq_refl Hk1 eq_refl)|].
        eapply exec_cat_first;
          [exact (star_space_none flag_is k2 _ _ _ _ _ Hk2 eq_refl)|].
        eapply exec_cat_first;
          [exact (exec_lit_word flag_is "/" k2 _ _ _ eq_refl Hk2 eq_refl)|].
        eapply exec_cat_first;
          [exact (star_space_none flag_is k3 _ _ _ _ _ Hk3 eq_refl)|].
        eapply exec_cat_first;
          [exact (exec_lit_word flag_is "script" k3 _ _ _ eq_refl Hk3 eq_refl)|].
        eapply exec_cat_first;
          [exact (star_space_none flag_is k4 _ _ _ _ _ Hk4 eq_refl)|].
        eapply exec_cat_first;
          [exact (exec_lit_word flag_is ">" k4 _ _ _ eq_refl Hk4 eq_refl)|].
        eexists. reflexivity. }
    destruct E as [lE E].
    assert (T : exists l,
              exec flag_is
                   (Cat (lit ">") (Cat (LazyStar Dot)
                      (Cat (lit "<") (Cat (Star Space) (Cat (lit "/")
                        (Cat (Star Space) (Cat (lit "script") (Cat (Star Space)
                          (Cat (lit ">") Eps)))))))))
                   {| prev := last_of (last_of pv o1) o2;
                      rest := o3 ++ body ++ k1 ++ k2 ++ k3 ++ k4 ++ b;
                      groups := [] |}
              = {| prev := fin; rest := b; groups := [] |} :: l).
    { eapply exec_cat_first;
        [exact (exec_lit_word flag_is ">" o3 _ _ _ eq_refl Ho3 eq_refl)|].
      eapply (exec_lazy_skip flag_is Dot).
      - apply forallb_forall. intros c _. apply dot_all.
      - intros c Hc pv' y.
        rewrite forallb_forall in Hb.
        apply (exec_head_literal flag_is "<" Eps _
                 {| prev := pv'; rest := c :: y; groups := [] |} c y eq_refl).
        exact (no_lt_lit c (Hb c Hc)).
      - exact E. }
    eapply exec_cat_first; [exact L0|exact T]. }
  destruct M as (pv' & l & El).
  rewrite <- !app_assoc. unfold match_at. rewrite El.
  eexists. split; [reflexivity|]. cbn [m_text rest].
  replace (o1 ++ o2 ++ o3 ++ body ++ k1 ++ k2 ++ k3 ++ k4 ++ b)
    with ((o1 ++ o2 ++ o3 ++ body ++ k1 ++ k2 ++ k3 ++ k4) ++ b)
    by (now rewrite <- !app_assoc).
  apply taken_app.
Qed.

(** The script pass takes a script element out of the text around it. *)
Lemma script_pass a o body cl b :
  forallb markup_free a = true -> forallb markup_free b = true ->
  lower o = L "<script>" -> lower cl = L "</script>" ->
  forallb no_lt body = true ->
  re_sub flag_is re_script (fun _ => Ret []) (a ++ o ++ body ++ cl ++ b)
  = Ret (a ++ b).
Proof.
  intros Ma Mb Ho Hc Hb. unfold re_sub.
  apply (sub_scan_chars flag_is re_script _ _ (fun _ => Ret []) a _ _
           script_shape Ma).
  intros pv.
  destruct (script_match o body cl b pv Ho Hc Hb) as (m & Hm & Tm).
  destruct o as [|c o]; [discriminate|].
  assert (Len : List.length (m_text m) = S (List.length (o ++ body ++ cl)))
    by (rewrite Tm; reflexivity).
  cbn [app] in Hm |- *. cbn [sub_scan]. rewrite Hm. cbn [bind]. rewrite Len.
  replace (o ++ body ++ cl ++ b) with ((o ++ body ++ cl) ++ b)
    by (now rewrite <- !app_assoc).
  rewrite (sub_scan_skip flag_is re_script (fun _ => Ret []) b b);
    [reflexivity|].
  exact (sub_scan_plain flag_is re_script _ _ (fun _ => Ret []) b
           script_shape Mb).
Qed.

(** X16.  A script element is taken out whole: in a text that has no
    [<] and no [=] apart from one script element, which is [<script>],
    a body without [<] and [</script>], the two tags in any letter case,
    the sanitizer returns the text before the element followed by the
    text after it, and nothing of the body. *)
Theorem sanitize_removes_script (a o body cl b : str) :
  forallb markup_free a = true -> forallb markup_free b = true ->
  lower o = L "<script>" -> lower cl = L "</script>" ->
  forallb no_lt body = true ->
  basic_sanitize_ul (a ++ o ++ body ++ cl ++ b) = Ret (a ++ b).
Proof.
  intros Ma Mb Ho Hc Hb.
  assert (Mab : forallb markup_free (a ++ b) = true)
    by (now rewrite forallb_app, Ma, Mb).
  assert (NE : is_empty (a ++ o ++ body ++ cl ++ b) = false)
    by (destruct o; [discriminate|destruct a; reflexivity]).
  unfold basic_sanitize_ul. rewrite NE.
  rewrite (script_pass a o body cl b Ma Mb Ho Hc Hb). cbn [bind].
  rewrite (re_sub_none_needs flag_is "=" re_handler);
    [|reflexivity|exact (markup_free_eq flag_is _ Mab)].
  cbn [bind].
  rewrite (re_sub_none_needs flag_i "=" re_href);
    [|reflexivity|exact (markup_free_eq flag_i _ Mab)].
  cbn [bind].
  rewrite (re_sub_none_needs flag_is "<" re_tag);
    [|reflexivity|exact (markup_free_lt flag_is _ Mab)].
  cbn [bind].
  rewrite (re_sub_none_needs flag_i "<" re_link);
    [|reflexivity|exact (markup_free_lt flag_i _ Mab)].
  reflexivity.
Qed.

Lemma sanitize_removes_script_witness :
  basic_sanitize_ul (L "Acme <SCRIPT>x = 1 > 0</Script>raises")
  = Ret (L "Acme raises").
Proof.
  apply (sanitize_removes_script (L "Acme ") (L "<SCRIPT>") (L "x = 1 > 0")
           (L "</Script>") (L "raises"));
    reflexivity.
Defined.
